(** * mpv_tui.py: playback session, viewport and event loop

    A model of [src/mpv_tui.py].  The methods of [MediaPlayer] are written
    once, as programs over the atomic operations the Python code performs
    (attribute reads and writes, lock acquire and release, process calls,
    [random.randint]).  A program is run to completion for the properties
    of the main thread, and stepped one operation at a time, under a
    schedule, where the monitor thread runs beside it.

    In the programs [draw_interface] is kept as the test of the redraw
    flag, the read of the session slot, one frame and the reset of the
    flag, and the library is the [files] attribute the loop starts with.
    What a frame shows of the library (the rows of the file list, their
    text, the buttons), the loading of the directory, and the way from
    [main] into the loop and out of it are functions of their own, over a
    small model of the disk.

    What is left out: the rest of the drawing (title, box, status and
    help lines), the parsing of the command line, and interrupts from
    the keyboard other than where the loop reads a key. *)

From Stdlib Require Import ZArith List String Ascii Bool Lia.
From Stdlib Require Import Sorted Permutation.
Import ListNotations.
Local Open Scope Z_scope.

Set Implicit Arguments.

(** ** Data *)

(** A child process, as the [subprocess.Popen] object that stands for it. *)
Definition pid := nat.

(** The two threads: the main thread that runs [MediaPlayer.run] and the
    daemon thread that runs [MediaPlayer._monitor_processes]. *)
Inductive tid := Fg | Mon.

Definition tid_eqb (a b : tid) : bool :=
  match a, b with
  | Fg, Fg | Mon, Mon => true
  | _, _ => false
  end.

(** [class PlayerState]: the three attributes and the lock (its owner, when
    it is held). *)
Record PlayerState := mkPlayerState {
  child_finished : bool;
  mpv_process : option pid;
  needs_redraw : bool;
  lock : option tid
}.

(** The attributes of [MediaPlayer] that only the main thread touches. *)
Record MediaPlayer := mkMediaPlayer {
  directory : string;
  files : list string;
  highlight : Z;
  start_index : Z;
  shuffle_mode : bool
}.

(** What [subprocess.Popen] does with a command line. *)
Inductive popen_result :=
| Launched (p : pid)
| NotFound                (* FileNotFoundError *)
| Refused.                (* any other OSError, e.g. PermissionError *)

Inductive lookup_result := Resolves | Missing | Unusable.

(** What the program does to the world outside the two objects. *)
Inductive event :=
| EvSpawn (cmd : list string) (p : pid)
| EvSpawnFailed (cmd : list string)
| EvTerminate (p : pid)
| EvWait (p : pid) (timeout : Z)
| EvKill (p : pid)
| EvRandInt (lo hi r : Z)
| EvRender (m : MediaPlayer) (playing : bool).

(** The operating system and the [random] module, as far as the program
    sees them.  [path_lookup] says what executing a program name does now,
    [heeds_term] whether a process exits within the grace period once it is
    sent SIGTERM, [rng] what the k-th call of [randint] answers. *)
Record OS := mkOS {
  alive : list pid;
  next_pid : pid;
  path_lookup : string -> lookup_result;
  heeds_term : pid -> bool;
  rng : nat -> Z -> Z -> Z;
  draws : nat;
  trace : list event
}.

(** The shared cells of [PlayerState]. *)
Inductive cell := CProcess | CFinished | CRedraw.
Inductive mode := Rd | Wr.

(** One access to a shared cell: who, what, and whether the thread held
    [PlayerState.lock] at that moment. *)
Record access := mkAccess {
  acc_by : tid;
  acc_cell : cell;
  acc_mode : mode;
  acc_locked : bool
}.

Record Config := mkConfig {
  state : PlayerState;
  self : MediaPlayer;
  os : OS;
  accesses : list access
}.

(** Python exceptions the modelled code can meet. *)
Inductive exn :=
| FileNotFoundError
| OSError
| TimeoutExpired
| IndexError.

(** ** Programs *)

(** The atomic operations, indexed by the type of their answer. *)
Inductive action : Type -> Type :=
| Acquire : action unit
| Release : action unit
| ReadProc : action (option pid)
| WriteProc (v : option pid) : action unit
| ReadFinished : action bool
| WriteFinished (b : bool) : action unit
| ReadRedraw : action bool
| WriteRedraw (b : bool) : action unit
| GetSelf : action MediaPlayer
| SetSelf (m : MediaPlayer) : action unit
| Popen (cmd : list string) : action popen_result
| Terminate (p : pid) : action unit
| Wait (p : pid) (timeout : Z) : action bool
| Kill (p : pid) : action unit
| Poll (p : pid) : action bool
| RandInt (lo hi : Z) : action Z
| Refresh (playing : bool) : action unit
| Sleep (ms : Z) : action unit.

Inductive prog (A : Type) : Type :=
| Ret (a : A)
| Raise (e : exn)
| Act (R : Type) (o : action R) (k : R -> prog A).

Arguments Ret {A} a.
Arguments Raise {A} e.
Arguments Act {A R} o k.

Fixpoint bind {A B} (p : prog A) (f : A -> prog B) : prog B :=
  match p with
  | Ret a => f a
  | Raise e => Raise e
  | Act o k => Act o (fun r => bind (k r) f)
  end.

Definition act {R} (o : action R) : prog R := Act o (fun r => Ret r).

Declare Scope prog_scope.
Delimit Scope prog_scope with prog.
Notation "x <- p ;; q" := (bind p (fun x => q))
  (at level 61, p at next level, right associativity) : prog_scope.
Notation "p ;; q" := (bind p (fun _ => q))
  (at level 61, right associativity) : prog_scope.
Local Open Scope prog_scope.

(** [try: p except e: h e]; the handler re-raises what it does not catch. *)
Fixpoint try_except {A} (p : prog A) (h : exn -> prog A) : prog A :=
  match p with
  | Ret a => Ret a
  | Raise e => h e
  | Act o k => Act o (fun r => try_except (k r) h)
  end.

(** [try: p finally: q]. *)
Fixpoint try_finally {A} (p : prog A) (q : prog unit) : prog A :=
  match p with
  | Ret a => q ;; Ret a
  | Raise e => q ;; Raise e
  | Act o k => Act o (fun r => try_finally (k r) q)
  end.

(** ** Meaning of the operations *)

Definition set_state (c : Config) (s : PlayerState) : Config :=
  mkConfig s (self c) (os c) (accesses c).
Definition set_self (c : Config) (m : MediaPlayer) : Config :=
  mkConfig (state c) m (os c) (accesses c).
Definition set_os (c : Config) (o : OS) : Config :=
  mkConfig (state c) (self c) o (accesses c).

Definition with_lock (s : PlayerState) (l : option tid) : PlayerState :=
  mkPlayerState (child_finished s) (mpv_process s) (needs_redraw s) l.
Definition with_process (s : PlayerState) (v : option pid) : PlayerState :=
  mkPlayerState (child_finished s) v (needs_redraw s) (lock s).
Definition with_finished (s : PlayerState) (b : bool) : PlayerState :=
  mkPlayerState b (mpv_process s) (needs_redraw s) (lock s).
Definition with_redraw (s : PlayerState) (b : bool) : PlayerState :=
  mkPlayerState (child_finished s) (mpv_process s) b (lock s).

Definition holds (t : tid) (s : PlayerState) : bool :=
  match lock s with
  | Some u => tid_eqb t u
  | None => false
  end.

Definition note (t : tid) (x : cell) (m : mode) (c : Config) : Config :=
  mkConfig (state c) (self c) (os c)
           (accesses c ++ [mkAccess t x m (holds t (state c))]).

Definition emit (e : event) (o : OS) : OS :=
  mkOS (alive o) (next_pid o) (path_lookup o) (heeds_term o) (rng o) (draws o)
       (trace o ++ [e]).

Definition with_alive (o : OS) (l : list pid) : OS :=
  mkOS l (next_pid o) (path_lookup o) (heeds_term o) (rng o) (draws o) (trace o).

Definition is_alive (p : pid) (o : OS) : bool := existsb (Nat.eqb p) (alive o).

Definition reap (p : pid) (o : OS) : OS :=
  with_alive o (filter (fun q => negb (Nat.eqb p q)) (alive o)).

Definition spawn (cmd : list string) (o : OS) : popen_result * OS :=
  match path_lookup o (hd ""%string cmd) with
  | Resolves =>
      (Launched (next_pid o),
       mkOS (next_pid o :: alive o) (S (next_pid o)) (path_lookup o)
            (heeds_term o) (rng o) (draws o) (trace o ++ [EvSpawn cmd (next_pid o)]))
  | Missing => (NotFound, emit (EvSpawnFailed cmd) o)
  | Unusable => (Refused, emit (EvSpawnFailed cmd) o)
  end.

Definition draw (lo hi : Z) (o : OS) : Z * OS :=
  let r := rng o (draws o) lo hi in
  (r, mkOS (alive o) (next_pid o) (path_lookup o) (heeds_term o) (rng o)
           (S (draws o)) (trace o ++ [EvRandInt lo hi r])).

(** One operation of thread [t].  [None]: the thread cannot move (it waits
    for the lock). *)
Definition exec (t : tid) {R} (o : action R) (c : Config) : option (R * Config) :=
  match o in action R return option (R * Config) with
  | Acquire =>
      match lock (state c) with
      | None => Some (tt, set_state c (with_lock (state c) (Some t)))
      | Some _ => None
      end
  | Release => Some (tt, set_state c (with_lock (state c) None))
  | ReadProc => Some (mpv_process (state c), note t CProcess Rd c)
  | WriteProc v =>
      let c' := note t CProcess Wr c in
      Some (tt, set_state c' (with_process (state c') v))
  | ReadFinished => Some (child_finished (state c), note t CFinished Rd c)
  | WriteFinished b =>
      let c' := note t CFinished Wr c in
      Some (tt, set_state c' (with_finished (state c') b))
  | ReadRedraw => Some (needs_redraw (state c), note t CRedraw Rd c)
  | WriteRedraw b =>
      let c' := note t CRedraw Wr c in
      Some (tt, set_state c' (with_redraw (state c') b))
  | GetSelf => Some (self c, c)
  | SetSelf m => Some (tt, set_self c m)
  | Popen cmd => let (r, o') := spawn cmd (os c) in Some (r, set_os c o')
  | Terminate p =>
      let o1 := emit (EvTerminate p) (os c) in
      Some (tt, set_os c (if heeds_term o1 p then reap p o1 else o1))
  | Wait p timeout =>
      let o1 := emit (EvWait p timeout) (os c) in
      Some (negb (is_alive p o1), set_os c o1)
  | Kill p => Some (tt, set_os c (reap p (emit (EvKill p) (os c))))
  | Poll p => Some (negb (is_alive p (os c)), c)
  | RandInt lo hi => let (r, o') := draw lo hi (os c) in Some (r, set_os c o')
  | Refresh playing => Some (tt, set_os c (emit (EvRender (self c) playing) (os c)))
  | Sleep _ => Some (tt, c)
  end.

(** How a run of a program ends. *)
Inductive outcome (A : Type) :=
| Done (a : A)
| Raised (e : exn)
| Blocked.

Arguments Done {A} a.
Arguments Raised {A} e.
Arguments Blocked {A}.

(** A thread run alone until its program ends. *)
Fixpoint interp_as (t : tid) {A} (p : prog A) (c : Config) : outcome A * Config :=
  match p with
  | Ret a => (Done a, c)
  | Raise e => (Raised e, c)
  | Act o k =>
      match exec t o c with
      | Some (r, c') => interp_as t (k r) c'
      | None => (Blocked, c)
      end
  end.

Definition interp {A} (p : prog A) (c : Config) : outcome A * Config := interp_as Fg p c.

(** ** The methods of [MediaPlayer] *)

(** [l[i]] of Python: negative indices count from the end. *)
Definition py_index {A} (l : list A) (i : Z) : option A :=
  let n := Z.of_nat (List.length l) in
  if (0 <=? i) && (i <? n) then nth_error l (Z.to_nat i)
  else if (- n <=? i) && (i <? 0) then nth_error l (Z.to_nat (n + i))
  else None.

Definition index {A} (l : list A) (i : Z) : prog A :=
  match py_index l i with
  | Some x => Ret x
  | None => Raise IndexError
  end.

Definition with_highlight (m : MediaPlayer) (v : Z) : MediaPlayer :=
  mkMediaPlayer (directory m) (files m) v (start_index m) (shuffle_mode m).
Definition with_start_index (m : MediaPlayer) (v : Z) : MediaPlayer :=
  mkMediaPlayer (directory m) (files m) (highlight m) v (shuffle_mode m).
Definition with_shuffle_mode (m : MediaPlayer) (b : bool) : MediaPlayer :=
  mkMediaPlayer (directory m) (files m) (highlight m) (start_index m) b.

Definition assign_highlight (v : Z) : prog unit :=
  m <- act GetSelf ;; act (SetSelf (with_highlight m v)).
Definition assign_start_index (v : Z) : prog unit :=
  m <- act GetSelf ;; act (SetSelf (with_start_index m v)).
Definition assign_shuffle_mode (b : bool) : prog unit :=
  m <- act GetSelf ;; act (SetSelf (with_shuffle_mode m b)).

(** [PlayerState.get_process] and [PlayerState.set_process]: the body runs
    [with self.lock]. *)
Definition get_process : prog (option pid) :=
  act Acquire ;; v <- act ReadProc ;; act Release ;; Ret v.

Definition set_process (process : option pid) : prog unit :=
  act Acquire ;; act (WriteProc process) ;; act Release.

(** The components of a path as pathlib keeps them: what stands between
    the slashes, but for the empty ones and those that are one dot. *)
Fixpoint split_slash (s : string) : list string :=
  match s with
  | EmptyString => [EmptyString]
  | String c r =>
      if Ascii.eqb c "/" then EmptyString :: split_slash r
      else match split_slash r with
           | x :: xs => String c x :: xs
           | [] => [String c EmptyString]
           end
  end.

Definition path_parts (s : string) : list string :=
  filter (fun x => negb (String.eqb x "") && negb (String.eqb x "."))
         (split_slash s).

(** The root of a path: one slash, or two when it starts with exactly
    two; none for a relative path. *)
Definition path_root (s : string) : string :=
  match s with
  | String "/" (String "/" (String "/" _)) => "/"
  | String "/" (String "/" _) => "//"
  | String "/" _ => "/"
  | _ => ""
  end.

(** [str(self.directory / filename)], [dir] being the text of the
    directory, which is a resolved path.  A name that starts with a slash
    stands for itself; any other is put after the components of the
    directory.  For a name from [os.listdir] this is the directory, a
    slash unless the directory is the root, and the name. *)
Definition filepath (dir filename : string) : string :=
  let absolute := negb (String.eqb (path_root filename) "") in
  let root := if absolute then path_root filename else path_root dir in
  let parts := if absolute then path_parts filename
               else path_parts dir ++ path_parts filename in
  match root, parts with
  | EmptyString, [] => "."
  | _, _ => (root ++ String.concat "/" parts)%string
  end.

Definition players (path : string) : list (list string) :=
  [ ["mpv"; "--no-terminal"; "--quiet"; path];
    ["mplayer"; "-quiet"; path];
    ["vlc"; "--intf"; "dummy"; path] ]%string.

Definition popen (cmd : list string) : prog pid :=
  r <- act (Popen cmd) ;;
  match r with
  | Launched p => Ret p
  | NotFound => Raise FileNotFoundError
  | Refused => Raise OSError
  end.

(** [process.wait(timeout=t)]. *)
Definition wait (p : pid) (t : Z) : prog unit :=
  exited <- act (Wait p t) ;;
  if exited then Ret tt else Raise TimeoutExpired.

(** [MediaPlayer.stop_playback]. *)
Definition stop_playback : prog unit :=
  process <- get_process ;;
  match process with
  | Some p =>
      try_finally
        (try_except
           (act (Terminate p) ;; wait p 1)
           (fun e => match e with
                     | TimeoutExpired => act (Kill p)
                     | _ => Raise e
                     end))
        (set_process None ;; act (WriteRedraw true))
  | None => Ret tt
  end.

(** The [for player_cmd in players] loop of [play_file]. *)
Fixpoint try_players (cmds : list (list string)) : prog bool :=
  match cmds with
  | [] => Ret false
  | player_cmd :: rest =>
      try_except
        (process <- popen player_cmd ;;
         set_process (Some process) ;;
         act (WriteRedraw true) ;;
         Ret true)
        (fun e => match e with
                  | FileNotFoundError => try_players rest
                  | _ => Raise e
                  end)
  end.

(** [MediaPlayer.play_file]. *)
Definition play_file (filename : string) : prog bool :=
  stop_playback ;;
  m <- act GetSelf ;;
  try_players (players (filepath (directory m) filename)).

(** [MediaPlayer.draw_interface], without the drawing: what is rendered is
    a snapshot of the attributes and the playing status. *)
Definition draw_interface : prog unit :=
  dirty <- act ReadRedraw ;;
  if negb dirty then Ret tt
  else
    process <- get_process ;;
    act (Refresh (match process with Some _ => true | None => false end)) ;;
    act (WriteRedraw false).

(** [MediaPlayer.update_scroll]. *)
Definition update_scroll (display_count : Z) : prog unit :=
  m <- act GetSelf ;;
  (if highlight m <? start_index m then
     assign_start_index (highlight m)
   else if highlight m >=? start_index m + display_count then
     assign_start_index (highlight m - display_count + 1)
   else Ret tt) ;;
  m <- act GetSelf ;;
  assign_start_index (Z.max 0 (start_index m)).

(** [MediaPlayer.play_random_file]. *)
Definition play_random_file (display_count : Z) : prog unit :=
  m <- act GetSelf ;;
  match files m with
  | [] => Ret tt
  | _ :: _ =>
      random_index <- act (RandInt 0 (Z.of_nat (List.length (files m)) - 1)) ;;
      filename <- index (files m) random_index ;;
      play_file filename ;;
      assign_highlight random_index ;;
      update_scroll display_count ;;
      act (WriteRedraw true)
  end.

(** Key codes of curses. *)
Definition ERR : Z := -1.
Definition KEY_DOWN : Z := 258.
Definition KEY_UP : Z := 259.
Definition KEY_HOME : Z := 262.
Definition KEY_NPAGE : Z := 338.
Definition KEY_PPAGE : Z := 339.
Definition KEY_END : Z := 360.

(** [MediaPlayer.run], "Handle child process completion". *)
Definition handle_finished (display_count : Z) : prog unit :=
  finished <- act ReadFinished ;;
  if finished then
    act (WriteFinished false) ;;
    m <- act GetSelf ;;
    if shuffle_mode m then play_random_file display_count else Ret tt
  else Ret tt.

(** [MediaPlayer.run], "Handle user input", for the key [ch] that
    [stdscr.getch()] returned.  The answer is whether the loop breaks. *)
Definition handle_input (ch : Z) (display_count : Z) : prog bool :=
  if ch =? ERR then Ret false
  else
    act (WriteRedraw true) ;;
    if ch =? KEY_UP then
      m <- act GetSelf ;;
      (if highlight m >? 0 then
         assign_highlight (highlight m - 1) ;; update_scroll display_count
       else Ret tt) ;;
      Ret false
    else if ch =? KEY_DOWN then
      m <- act GetSelf ;;
      (if highlight m <? Z.of_nat (List.length (files m)) - 1 then
         assign_highlight (highlight m + 1) ;; update_scroll display_count
       else Ret tt) ;;
      Ret false
    else if ch =? KEY_PPAGE then
      m <- act GetSelf ;;
      assign_highlight (Z.max 0 (highlight m - display_count)) ;;
      update_scroll display_count ;;
      Ret false
    else if ch =? KEY_NPAGE then
      m <- act GetSelf ;;
      assign_highlight (Z.min (Z.of_nat (List.length (files m)) - 1)
                              (highlight m + display_count)) ;;
      update_scroll display_count ;;
      Ret false
    else if ch =? KEY_HOME then
      assign_highlight 0 ;;
      assign_start_index 0 ;;
      Ret false
    else if ch =? KEY_END then
      m <- act GetSelf ;;
      assign_highlight (Z.of_nat (List.length (files m)) - 1) ;;
      update_scroll display_count ;;
      Ret false
    else if (ch =? 10) || (ch =? 13) then            (* Enter *)
      assign_shuffle_mode false ;;
      m <- act GetSelf ;;
      match files m with
      | [] => Ret false
      | _ :: _ =>
          filename <- index (files m) (highlight m) ;;
          play_file filename ;;
          Ret false
      end
    else if ch =? 32 then                            (* Space *)
      stop_playback ;; Ret false
    else if (ch =? 115) || (ch =? 83) then           (* s, S *)
      m <- act GetSelf ;;
      assign_shuffle_mode (negb (shuffle_mode m)) ;;
      m <- act GetSelf ;;
      (if shuffle_mode m then
         process <- get_process ;;
         match process with
         | None => play_random_file display_count
         | Some _ => Ret tt
         end
       else Ret tt) ;;
      Ret false
    else if (ch =? 114) || (ch =? 82) then           (* r, R *)
      play_random_file display_count ;; Ret false
    else if (ch =? 113) || (ch =? 81) || (ch =? 27) then   (* q, Q, Esc *)
      Ret true
    else
      act (WriteRedraw false) ;; Ret false.

(** One turn of the [while True] loop of [MediaPlayer.run], for a terminal
    of [term_y] rows and the key [ch]. *)
Definition loop_body (term_y ch : Z) : prog bool :=
  let display_count := Z.max 1 (term_y - 13) in
  draw_interface ;;
  handle_finished display_count ;;
  quit <- handle_input ch display_count ;;
  (if quit then Ret tt else act (Sleep 50)) ;;
  Ret quit.

(** The loop over the turns the inputs last for, and the cleanup after a
    break. *)
Fixpoint event_loop (inputs : list (Z * Z)) : prog unit :=
  match inputs with
  | [] => Ret tt
  | (term_y, ch) :: rest =>
      quit <- loop_body term_y ch ;;
      if quit then stop_playback else event_loop rest
  end.

(** One turn of the [while True] loop of [_monitor_processes]. *)
Definition monitor_tick : prog unit :=
  process <- get_process ;;
  (match process with
   | Some p =>
       exited <- act (Poll p) ;;
       if exited then
         set_process None ;;
         act (WriteFinished true) ;;
         act (WriteRedraw true)
       else Ret tt
   | None => Ret tt
   end) ;;
  act (Sleep 100).

(** [MediaPlayer.__init__] and a loaded library: the state in which the
    event loop starts. *)
Definition init_state : PlayerState := mkPlayerState false None true None.
Definition init_self (dir : string) (fs : list string) : MediaPlayer :=
  mkMediaPlayer dir fs 0 0 false.

(** ** The two threads together *)

(** One operation of a program, if it can move. *)
Definition step_prog (t : tid) {A} (p : prog A) (c : Config) : prog A * Config :=
  match p with
  | Act o k =>
      match exec t o c with
      | Some (r, c') => (k r, c')
      | None => (p, c)
      end
  | _ => (p, c)
  end.

(** [n] operations of one thread, or as many as it can do. *)
Fixpoint steps (n : nat) (t : tid) {A} (p : prog A) (c : Config) : prog A * Config :=
  match n with
  | O => (p, c)
  | S n' => let (p', c') := step_prog t p c in steps n' t p' c'
  end.

(** How a program that has stopped moving has ended. *)
Definition result_of {A} (p : prog A) : outcome A :=
  match p with
  | Ret a => Done a
  | Raise e => Raised e
  | Act _ _ => Blocked
  end.

(** What is left of the programs of the main thread and of the monitor. *)
Record Threads := mkThreads {
  main_prog : prog unit;
  monitor_prog : prog unit
}.

(** Thread [t] performs its next operation.  The monitor's [while True]
    starts its body over when the body has ended. *)
Definition step (s : Threads * Config) (t : tid) : Threads * Config :=
  let (th, c) := s in
  match t with
  | Fg =>
      let (p, c') := step_prog Fg (main_prog th) c in
      (mkThreads p (monitor_prog th), c')
  | Mon =>
      let body := match monitor_prog th with
                  | Ret _ => monitor_tick
                  | p => p
                  end in
      let (p, c') := step_prog Mon body c in
      (mkThreads (main_prog th) p, c')
  end.

(** The threads stepped in the order a schedule gives. *)
Definition schedule (ts : list tid) (s : Threads * Config) : Threads * Config :=
  fold_left step ts s.

(** ** Vocabulary of the properties *)

(** The six navigation keys. *)
Inductive nav := NavUp | NavDown | NavPageUp | NavPageDown | NavHome | NavEnd.

Definition nav_code (k : nav) : Z :=
  match k with
  | NavUp => KEY_UP
  | NavDown => KEY_DOWN
  | NavPageUp => KEY_PPAGE
  | NavPageDown => KEY_NPAGE
  | NavHome => KEY_HOME
  | NavEnd => KEY_END
  end.

(** The viewport invariant of the data model. *)
Definition viewport_ok (display_count : Z) (m : MediaPlayer) : Prop :=
  0 <= start_index m /\
  start_index m <= highlight m < start_index m + display_count.

(** The keys handled one after the other; what each one returned and left
    behind. *)
Fixpoint visited (display_count : Z) (keys : list Z) (c : Config)
  : list (outcome bool * Config) :=
  match keys with
  | [] => []
  | ch :: rest =>
      let r := interp (handle_input ch display_count) c in
      r :: visited display_count rest (snd r)
  end.

(** The keys handled in a row, up to a key that quits. *)
Fixpoint press (display_count : Z) (keys : list Z) : prog unit :=
  match keys with
  | [] => Ret tt
  | ch :: rest =>
      quit <- handle_input ch display_count ;;
      if quit then Ret tt else press display_count rest
  end.

(** [play_file] called for one file name after the other; the answers. *)
Fixpoint play_all (names : list string) : prog (list bool) :=
  match names with
  | [] => Ret []
  | f :: rest =>
      ok <- play_file f ;;
      oks <- play_all rest ;;
      Ret (ok :: oks)
  end.

(** Every running child is the one in the session slot, and there is at
    most one. *)
Definition one_session (c : Config) : Prop :=
  match alive (os c) with
  | [] => True
  | [p] => mpv_process (state c) = Some p
  | _ => False
  end.

(** The state between two calls of the main thread: the lock is free and
    there is at most one child, the one in the slot. *)
Definition safe (c : Config) : Prop :=
  lock (state c) = None /\ one_session c.

(** A program that leaves a safe state safe, however it ends. *)
Definition keeps {A} (p : prog A) : Prop :=
  forall c, safe c -> safe (snd (interp p c)).

(** The operations that touch neither the lock nor the slot and start no
    process. *)
Definition quiet {R} (o : action R) : bool :=
  match o with
  | Acquire | Release | WriteProc _ | Popen _ => false
  | _ => true
  end.

(** Whether [p] is still running after SIGTERM and the grace period. *)
Definition survives_term (p : pid) (o : OS) : bool :=
  is_alive p o && negb (heeds_term o p).

(** The events of one [stop_playback]. *)
Definition stop_events (c : Config) : list event :=
  match mpv_process (state c) with
  | Some p =>
      [EvTerminate p; EvWait p 1] ++
      (if survives_term p (os c) then [EvKill p] else [])
  | None => []
  end.

(** The events of launch attempts. *)
Definition is_attempt (e : event) : Prop :=
  match e with
  | EvSpawn _ _ | EvSpawnFailed _ => True
  | _ => False
  end.

(** None of the three player commands can be found. *)
Definition no_player (o : OS) : Prop :=
  forall name, In name ["mpv"; "mplayer"; "vlc"]%string -> path_lookup o name = Missing.

(** What looking for the players in their order of preference comes to:
    the first one that is not missing decides. *)
Fixpoint first_found (o : OS) (names : list string) : lookup_result :=
  match names with
  | [] => Missing
  | n :: rest =>
      match path_lookup o n with
      | Missing => first_found o rest
      | r => r
      end
  end.

Definition player_found (o : OS) : lookup_result :=
  first_found o ["mpv"; "mplayer"; "vlc"]%string.

(** What [play_file] answers, by what the search for a player finds: true
    for a player launched, false for none found, and the error of a player
    found that cannot be executed. *)
Definition play_answer (found : lookup_result) : outcome bool :=
  match found with
  | Resolves => Done true
  | Missing => Done false
  | Unusable => Raised OSError
  end.

(** [random.randint(lo, hi)] answers within its bounds. *)
Definition rng_ok (o : OS) : Prop :=
  forall k lo hi, lo <= hi -> lo <= rng o k lo hi <= hi.

(** The index [play_random_file] draws in [c]. *)
Definition next_draw (c : Config) : Z :=
  rng (os c) (draws (os c)) 0 (Z.of_nat (List.length (files (self c))) - 1).

(** How often a run of accesses writes [child_finished]. *)
Definition writes_finished (a : access) : bool :=
  match acc_cell a, acc_mode a with
  | CFinished, Wr => true
  | _, _ => false
  end.

Definition finished_writes (l : list access) : nat :=
  List.length (filter writes_finished l).

(** The frames drawn in a trace. *)
Definition renders (l : list event) : list event :=
  filter (fun e => match e with EvRender _ _ => true | _ => false end) l.

(** The keys the loop has a branch for. *)
Definition bound_key (ch : Z) : bool :=
  (ch =? KEY_UP) || (ch =? KEY_DOWN) || (ch =? KEY_PPAGE) || (ch =? KEY_NPAGE) ||
  (ch =? KEY_HOME) || (ch =? KEY_END) || (ch =? 10) || (ch =? 13) || (ch =? 32) ||
  (ch =? 115) || (ch =? 83) || (ch =? 114) || (ch =? 82) ||
  (ch =? 113) || (ch =? 81) || (ch =? 27).

(** The claim that the [s] key, turning shuffle on over an empty slot,
    starts playback of the file it highlights. *)
Definition toggle_starts_playback (c : Config) (d : Z) : Prop :=
  let c' := snd (interp (handle_input 115 d) c) in
  shuffle_mode (self c') = negb (shuffle_mode (self c)) /\
  (shuffle_mode (self c') = true -> mpv_process (state c) = None ->
   exists p f cmd,
     mpv_process (state c') = Some p /\ In p (alive (os c')) /\
     py_index (files (self c)) (highlight (self c')) = Some f /\
     In cmd (players (filepath (directory (self c)) f)) /\
     In (EvSpawn cmd p) (trace (os c'))).

(** ** Closed forms

    What the methods leave behind when the main thread runs them with
    the lock free; each is proved equal to the run of the method. *)

(** Sequencing of runs: what [bind] does to the outcome of its first part. *)
Definition and_then {A B} (r : outcome A * Config)
    (f : A -> Config -> outcome B * Config) : outcome B * Config :=
  match r with
  | (Done a, c) => f a c
  | (Raised e, c) => (Raised e, c)
  | (Blocked, c) => (Blocked, c)
  end.

(** The start index [update_scroll] leaves, in closed form. *)
Definition scroll_target (s h d : Z) : Z :=
  Z.max 0 (if h <? s then h else if h >=? s + d then h - d + 1 else s).

(** [c] with further accesses on record. *)
Definition logged (c : Config) (l : list access) : Config :=
  mkConfig (state c) (self c) (os c) (accesses c ++ l).

(** [terminate()], [wait(timeout=1)] and, on a timeout, [kill()]. *)
Definition halt (p : pid) (o : OS) : OS :=
  let o1 := emit (EvTerminate p) o in
  let o2 := emit (EvWait p 1) (if heeds_term o p then reap p o1 else o1) in
  if is_alive p o2 then reap p (emit (EvKill p) o2) else o2.

(** What [stop_playback] leaves. *)
Definition stopped (c : Config) : Config :=
  match mpv_process (state c) with
  | Some p =>
      mkConfig (with_redraw (with_process (state c) None) true)
               (self c)
               (halt p (os c))
               (accesses c ++ [mkAccess Fg CProcess Rd true;
                               mkAccess Fg CProcess Wr true;
                               mkAccess Fg CRedraw Wr false])
  | None => logged c [mkAccess Fg CProcess Rd true]
  end.

(** What the loop over the candidate commands returns and leaves. *)
Fixpoint launched (cmds : list (list string)) (c : Config) : outcome bool * Config :=
  match cmds with
  | [] => (Done false, c)
  | cmd :: rest =>
      match path_lookup (os c) (hd ""%string cmd) with
      | Resolves =>
          (Done true,
           mkConfig (with_redraw (with_process (state c) (Some (next_pid (os c)))) true)
                    (self c)
                    (snd (spawn cmd (os c)))
                    (accesses c ++ [mkAccess Fg CProcess Wr true;
                                    mkAccess Fg CRedraw Wr false]))
      | Missing => launched rest (set_os c (emit (EvSpawnFailed cmd) (os c)))
      | Unusable => (Raised OSError, set_os c (emit (EvSpawnFailed cmd) (os c)))
      end
  end.

(** What [play_random_file] leaves once [play_file] has returned in [c2]. *)
Definition moved (i d : Z) (c2 : Config) : Config :=
  mkConfig (with_redraw (state c2) true)
           (with_start_index (with_highlight (self c2) i)
                             (scroll_target (start_index (self c2)) i d))
           (os c2)
           (accesses c2 ++ [mkAccess Fg CRedraw Wr false]).

(** The state right after the event loop has read a set [child_finished]
    and reset it. *)
Definition consumed (c : Config) : Config :=
  mkConfig (with_finished (state c) false) (self c) (os c)
           (accesses c ++ [mkAccess Fg CFinished Rd (holds Fg (state c));
                           mkAccess Fg CFinished Wr (holds Fg (state c))]).

(** The state in which the [s] key, having flipped the flag to on and
    found the slot empty, calls [play_random_file]. *)
Definition toggled_on (c : Config) : Config :=
  mkConfig (with_redraw (state c) true)
           (with_shuffle_mode (self c) true)
           (os c)
           (accesses c ++ [mkAccess Fg CRedraw Wr false;
                           mkAccess Fg CProcess Rd true]).

(** ** Concrete worlds *)

(** Three files in [/music], every player installed, every process heeding
    SIGTERM, and a [randint] that answers its lower bound. *)
Definition abc : list string := ["a.mp3"; "b.mp3"; "c.mp3"]%string.

Definition demo_os : OS :=
  mkOS [] 0%nat (fun _ => Resolves) (fun _ => true) (fun _ lo _ => lo) 0%nat [].

Definition demo : Config :=
  mkConfig init_state (init_self "/music" abc) demo_os [].

(** A session whose process ignores SIGTERM. *)
Definition demo_stubborn : Config :=
  mkConfig (mkPlayerState false (Some 0%nat) false None)
           (init_self "/music" abc)
           (mkOS [0%nat] 1%nat (fun _ => Resolves) (fun _ => false)
                 (fun _ lo _ => lo) 0%nat [])
           [].

(** A machine without any of the players. *)
Definition demo_bare : Config :=
  mkConfig init_state (init_self "/music" abc)
           (mkOS [] 0%nat (fun _ => Missing) (fun _ => true)
                 (fun _ lo _ => lo) 0%nat [])
           [].

(** The turn of the loop in which a child has finished with shuffle on. *)
Definition demo_finished : Config :=
  mkConfig (mkPlayerState true None false None)
           (mkMediaPlayer "/music" abc 2 1 true)
           demo_os [].

(** A turn of the loop that starts with the screen out of date, a child
    just finished, and shuffle on. *)
Definition demo_pending : Config :=
  mkConfig (mkPlayerState true None true None)
           (mkMediaPlayer "/music" abc 2 1 true)
           demo_os [].

(** A session is playing [a.mp3]; the user presses Enter in two turns of
    the loop, on a terminal of 20 rows. *)
Definition demo_playing : Config :=
  mkConfig (mkPlayerState false (Some 0%nat) false None)
           (init_self "/music" abc)
           (mkOS [0%nat] 1%nat (fun _ => Resolves) (fun _ => true)
                 (fun _ lo _ => lo) 0%nat [])
           [].

Definition demo_threads : Threads :=
  mkThreads (event_loop [(20, 10); (20, 10)]) monitor_tick.

(** ** Selection, keys and frames *)

(** The highlight is the index of a file of the library. *)
Definition in_library (m : MediaPlayer) : Prop :=
  0 <= highlight m < Z.of_nat (List.length (files m)).

(** The keys that break the loop. *)
Definition quit_key (ch : Z) : bool :=
  (ch =? 113) || (ch =? 81) || (ch =? 27).

(** The state in which the branch of a key starts: the key has been read
    and [needs_redraw] set. *)
Definition keyed (c : Config) : Config :=
  mkConfig (with_redraw (state c) true) (self c) (os c)
           (accesses c ++ [mkAccess Fg CRedraw Wr (holds Fg (state c))]).

(** Every value the program can return satisfies [P]. *)
Fixpoint answers {A} (P : A -> Prop) (p : prog A) : Prop :=
  match p with
  | Ret a => P a
  | Raise _ => True
  | Act _ k => forall r, answers P (k r)
  end.

(** Whether one of the keys of the inputs is a quit key. *)
Definition quit_among (inputs : list (Z * Z)) : bool :=
  existsb (fun i => quit_key (snd i)) inputs.

(** The state [draw_interface] leaves when the redraw flag was set. *)
Definition drawn (c : Config) : Config :=
  mkConfig (with_redraw (state c) false) (self c)
           (emit (EvRender (self c)
                           (match mpv_process (state c) with
                            | Some _ => true
                            | None => false
                            end)) (os c))
           (accesses c ++ [mkAccess Fg CRedraw Rd false;
                           mkAccess Fg CProcess Rd true;
                           mkAccess Fg CRedraw Wr false]).

(** ** The lock discipline *)

(** What an operation does to the lock as its thread sees it: [held]
    before, the answer after; [None] when the operation is out of place,
    as an access to the slot made without the lock is. *)
Definition lock_effect {R} (o : action R) (held : bool) : option bool :=
  match o with
  | Acquire => if held then None else Some true
  | Release => if held then Some false else None
  | ReadProc | WriteProc _ => if held then Some true else None
  | _ => Some held
  end.

(** A program that takes the lock before it touches the slot, and has let
    it go when it ends. *)
Fixpoint disciplined {A} (held : bool) (p : prog A) : Prop :=
  match p with
  | Ret _ | Raise _ => held = false
  | Act o k =>
      match lock_effect o held with
      | Some h => forall r, disciplined h (k r)
      | None => False
      end
  end.

(** An access to the slot is one made under the lock. *)
Definition guarded (a : access) : Prop :=
  acc_cell a = CProcess -> acc_locked a = true.

(** What holds of the two threads between any two operations. *)
Definition orderly (s : Threads * Config) : Prop :=
  disciplined (holds Fg (state (snd s))) (main_prog (fst s)) /\
  disciplined (holds Mon (state (snd s))) (monitor_prog (fst s)).

(** Whether thread [t], with [p] left to run, can perform its next
    operation. *)
Definition can_step (t : tid) {A} (p : prog A) (c : Config) : bool :=
  match p with
  | Act o _ => match exec t o c with Some _ => true | None => false end
  | _ => false
  end.

Definition movable (t : tid) (s : Threads * Config) : bool :=
  match t with
  | Fg => can_step Fg (main_prog (fst s)) (snd s)
  | Mon =>
      can_step Mon (match monitor_prog (fst s) with
                    | Ret _ => monitor_tick
                    | p => p
                    end) (snd s)
  end.

(** ** Turns and ticks that do not overlap *)

(** A whole turn of the loop of the main thread, or a whole turn of the
    monitor. *)
Inductive block := Turn (term_y ch : Z) | Tick.

(** The two threads run block by block, neither inside a block of the
    other: the states after each block, up to the end of the main
    thread. *)
Fixpoint blocks (bs : list block) (c : Config) : list Config :=
  match bs with
  | [] => []
  | Tick :: rest =>
      let c1 := snd (interp_as Mon monitor_tick c) in
      c1 :: blocks rest c1
  | Turn term_y ch :: rest =>
      match interp (loop_body term_y ch) c with
      | (Done false, c1) => c1 :: blocks rest c1
      | (Done true, c1) => [snd (interp stop_playback c1)]
      | (_, c1) => [c1]
      end
  end.

(** The keys of the turns of a run in blocks. *)
Definition plan_inputs (bs : list block) : list (Z * Z) :=
  flat_map (fun b => match b with
                     | Turn term_y ch => [(term_y, ch)]
                     | Tick => []
                     end) bs.

(** How the main thread ends in a run in blocks, and the state it ends
    in: true when a turn has read a quit key and the cleanup after the
    loop has returned, false when the turns given are over. *)
Fixpoint finish (bs : list block) (c : Config) : outcome bool * Config :=
  match bs with
  | [] => (Done false, c)
  | Tick :: rest => finish rest (snd (interp_as Mon monitor_tick c))
  | Turn term_y ch :: rest =>
      match interp (loop_body term_y ch) c with
      | (Done false, c1) => finish rest c1
      | (Done true, c1) =>
          match interp stop_playback c1 with
          | (Done _, c2) => (Done true, c2)
          | (Raised e, c2) => (Raised e, c2)
          | (Blocked, c2) => (Blocked, c2)
          end
      | (Raised e, c1) => (Raised e, c1)
      | (Blocked, c1) => (Blocked, c1)
      end
  end.

(** The main thread reads the slot, for a frame or to stop what plays,
    after the monitor has read it and before the monitor goes on. *)
Definition demo_overlap : Threads * Config :=
  (mkThreads (event_loop [(20, 32); (20, ERR); (20, ERR)]) monitor_tick,
   mkConfig (mkPlayerState false (Some 0%nat) false None)
            (mkMediaPlayer "/music" abc 1 0 true)
            (os demo_playing) []).

(** A machine on which mpv is found but cannot be executed, while mplayer
    and vlc could be launched; the highlight is on the second file. *)
Definition demo_unusable : Config :=
  mkConfig init_state (mkMediaPlayer "/music" abc 1 0 false)
           (mkOS [] 0%nat
                 (fun name => if String.eqb name "mpv" then Unusable else Resolves)
                 (fun _ => true) (fun _ lo _ => lo) 0%nat [])
           [].

(** A machine on which of the three players only mplayer is installed. *)
Definition demo_mplayer : Config :=
  mkConfig init_state (init_self "/music" abc)
           (mkOS [] 0%nat
                 (fun name => if String.eqb name "mplayer" then Resolves else Missing)
                 (fun _ => true) (fun _ lo _ => lo) 0%nat [])
           [].

(** ** The library on disk *)

Definition MEDIA_EXTENSIONS : list string :=
  [".mp3"; ".flac"; ".wav"; ".ogg"; ".m4a"; ".aac"; ".wma"; ".opus";
   ".mp4"; ".avi"; ".mkv"; ".mov"; ".webm"]%string.

(** Names are the bytes the file system has for them; Python reads them
    as UTF-8, a byte of no well-formed sequence as a lone surrogate, so
    that two names are equal when their bytes are, and an ASCII character
    is where its byte is.  [s.rfind(ch)] for an ASCII character: the index
    of its last occurrence, if it has one. *)
Fixpoint rfind (ch : ascii) (s : string) : option nat :=
  match s with
  | EmptyString => None
  | String c r =>
      match rfind ch r with
      | Some i => Some (S i)
      | None => if Ascii.eqb c ch then Some 0%nat else None
      end
  end.

(** [s[:i]] and [s[i:]], for [0 <= i]. *)
Fixpoint take (i : nat) (s : string) : string :=
  match i, s with
  | S j, String c r => String c (take j r)
  | _, _ => EmptyString
  end.

Fixpoint drop (i : nat) (s : string) : string :=
  match i, s with
  | S j, String _ r => drop j r
  | _, _ => s
  end.

(** [PurePath(name).suffix], for a name of one component, as [os.listdir]
    gives them: what starts at the last dot, unless that dot is the first
    or the last character of the name (the rule of pathlib as of Python
    3.11). *)
Definition suffix (name : string) : string :=
  match rfind "."%char name with
  | Some i =>
      if (0 <? i)%nat && (i <? String.length name - 1)%nat then drop i name
      else EmptyString
  | None => EmptyString
  end.

Definition lower_byte (c : ascii) : ascii :=
  let n := N_of_ascii c in
  if (65 <=? n)%N && (n <=? 90)%N then ascii_of_N (n + 32) else c.

(** [str.lower], as far as a comparison with ASCII strings can tell.  The
    letters A to Z are lowered.  The Kelvin sign U+212A (bytes 226, 132,
    170) is the one character outside ASCII whose lower case is an ASCII
    string, the letter k.  The lower case of any other character has a
    byte outside ASCII, as the character itself, which stands for it
    here. *)
Fixpoint lower (s : string) : string :=
  match s with
  | EmptyString => EmptyString
  | String c r =>
      match r with
      | String c2 (String c3 r3) =>
          if Ascii.eqb c "226" && Ascii.eqb c2 "132" && Ascii.eqb c3 "170"
          then String "k" (lower r3)
          else String (lower_byte c) (lower r)
      | _ => String (lower_byte c) (lower r)
      end
  end.

(** [MediaPlayer.is_media_file], for a name of one component. *)
Definition is_media_file (filename : string) : bool :=
  existsb (String.eqb (lower (suffix filename))) MEDIA_EXTENSIONS.

(** [entry.startswith('.')]. *)
Definition hidden (entry : string) : bool :=
  match entry with
  | String c _ => Ascii.eqb c "."
  | EmptyString => false
  end.

(** A directory as the calls of [load_media_files] see it: whether
    [os.chdir] is let in, and what [os.listdir] answers, if it does: the
    names, each with what [os.path.isfile] says of it. *)
Record dir_info := mkDir {
  enterable : bool;
  listing : option (list (string * bool))
}.

Inductive node := Absent | NotDir | IsDir (d : dir_info).

(** The file system and the working directory of the process. *)
Record World := mkWorld {
  node_at : string -> node;
  cwd : string
}.

(** [os.chdir(path)]; [None] when it raises. *)
Definition chdir (path : string) (w : World) : option World :=
  match node_at w path with
  | IsDir d => if enterable d then Some (mkWorld (node_at w) path) else None
  | _ => None
  end.

(** [os.listdir('.')]; [None] when it raises. *)
Definition listdir (w : World) : option (list (string * bool)) :=
  match node_at w (cwd w) with
  | IsDir d => listing d
  | _ => None
  end.

(** [try: os.chdir(original_cwd) except: pass]. *)
Definition restore (original_cwd : string) (w : World) : World :=
  match chdir original_cwd w with
  | Some w' => w'
  | None => w
  end.

(** The code points of a name as [os.listdir] gives it to Python: the
    bytes decoded as UTF-8, a byte that is part of no well-formed sequence
    standing as the lone surrogate U+DC00 plus the byte (the error handler
    [surrogateescape] of the file system encoding). *)
Definition continuation (n : N) : bool := ((128 <=? n) && (n <=? 191))%N.

(** The second byte of a sequence of three or of four, by its first. *)
Definition second_of_three (n0 n1 : N) : bool :=
  (if n0 =? 224 then (160 <=? n1) && (n1 <=? 191)
   else if n0 =? 237 then (128 <=? n1) && (n1 <=? 159)
   else continuation n1)%N.

Definition second_of_four (n0 n1 : N) : bool :=
  (if n0 =? 240 then (144 <=? n1) && (n1 <=? 191)
   else if n0 =? 244 then (128 <=? n1) && (n1 <=? 143)
   else continuation n1)%N.

Fixpoint code_points (s : string) : list N :=
  match s with
  | EmptyString => []
  | String b0 r0 =>
      let n0 := N_of_ascii b0 in
      let escaped := (56320 + n0)%N :: code_points r0 in
      if (n0 <? 128)%N then n0 :: code_points r0
      else
        match r0 with
        | EmptyString => escaped
        | String b1 r1 =>
            let n1 := N_of_ascii b1 in
            if ((194 <=? n0) && (n0 <=? 223))%N then
              if continuation n1
              then ((n0 - 192) * 64 + (n1 - 128))%N :: code_points r1
              else escaped
            else
              match r1 with
              | EmptyString => escaped
              | String b2 r2 =>
                  let n2 := N_of_ascii b2 in
                  if ((224 <=? n0) && (n0 <=? 239))%N then
                    if second_of_three n0 n1 && continuation n2
                    then ((n0 - 224) * 4096 + (n1 - 128) * 64 + (n2 - 128))%N
                         :: code_points r2
                    else escaped
                  else
                    match r2 with
                    | EmptyString => escaped
                    | String b3 r3 =>
                        let n3 := N_of_ascii b3 in
                        if ((240 <=? n0) && (n0 <=? 244))%N
                           && second_of_four n0 n1
                           && continuation n2 && continuation n3
                        then ((n0 - 240) * 262144 + (n1 - 128) * 4096
                              + (n2 - 128) * 64 + (n3 - 128))%N
                             :: code_points r3
                        else escaped
                    end
              end
        end
  end.

(** The order of Python on strings: by code points, the first difference
    decides, and a proper prefix comes first. *)
Fixpoint lex_leb (a b : list N) : bool :=
  match a, b with
  | [], _ => true
  | _ :: _, [] => false
  | x :: a', y :: b' =>
      if (x <? y)%N then true
      else if (y <? x)%N then false
      else lex_leb a' b'
  end.

Definition name_leb (a b : string) : bool :=
  lex_leb (code_points a) (code_points b).

(** [list.sort] on names. *)
Fixpoint insert_sorted (x : string) (l : list string) : list string :=
  match l with
  | [] => [x]
  | y :: r => if name_leb x y then x :: l else y :: insert_sorted x r
  end.

Fixpoint sort (l : list string) : list string :=
  match l with
  | [] => []
  | x :: r => insert_sorted x (sort r)
  end.

Definition with_files (m : MediaPlayer) (fs : list string) : MediaPlayer :=
  mkMediaPlayer (directory m) fs (highlight m) (start_index m) (shuffle_mode m).

(** The test of the [for entry in entries] loop. *)
Definition wanted (entry : string * bool) : bool :=
  snd entry && negb (hidden (fst entry)) && is_media_file (fst entry).

(** The loop, appending to [self.files]. *)
Definition collect (entries : list (string * bool)) : list string :=
  fold_left (fun fs entry => if wanted entry then fs ++ [fst entry] else fs)
            entries [].

(** [Path.cwd()]; [None] when it raises, the working directory being
    gone. *)
Definition getcwd (w : World) : option string :=
  match node_at w (cwd w) with
  | IsDir _ => Some (cwd w)
  | _ => None
  end.

(** [MediaPlayer.load_media_files].  An error raised before
    [original_cwd] is bound leaves the handler's [os.chdir] failing on the
    unbound name, which its bare [except] swallows. *)
Definition load_media_files (m : MediaPlayer) (w : World)
  : (exn + Z) * MediaPlayer * World :=
  match node_at w (directory m) with
  | Absent => (inl OSError, m, w)
  | NotDir => (inl OSError, m, w)
  | IsDir _ =>
      match getcwd w with
      | None => (inl OSError, m, w)
      | Some original_cwd =>
          match chdir (directory m) w with
          | None => (inl OSError, m, restore original_cwd w)
          | Some w1 =>
              match listdir w1 with
              | None => (inl OSError, m, restore original_cwd w1)
              | Some entries =>
                  let fs := sort (collect entries) in
                  (inr (Z.of_nat (List.length fs)), with_files m fs, w1)
              end
          end
      end
  end.

(** The order of [list.sort] on names. *)
Definition name_le (a b : string) : Prop := name_leb a b = true.

(** A small disk: a music directory with two media files among other
    entries, a directory that can be entered but not listed, and the home
    directory the process starts in. *)
Definition demo_world : World :=
  mkWorld
    (fun path =>
       if String.eqb path "/music" then
         IsDir (mkDir true (Some [("b.mp3", true); (".hidden.mp3", true);
                                  ("a.MP3", true); ("notes.txt", true);
                                  ("sub.mp3", false)]%string))
       else if String.eqb path "/locked" then IsDir (mkDir true None)
       else if String.eqb path "/home" then IsDir (mkDir true (Some []))
       else Absent)
    "/home".

(** ** The program from start to end *)

(** The two texts [run] can return. *)
Inductive message := ErrorAccessingDirectory | NoMediaFiles.

(** How [run] ends: with a text, with [None] after a break of the loop, or
    with an exception that escapes; or not within the inputs given. *)
Inductive run_result :=
| Message (text : message)
| Returned
| Escaped (e : exn)
| Ongoing.

(** What a turn of the loop gets from [stdscr.getch()]: a key code ([ERR]
    when no key waits), or the keyboard interrupt that the [try] around
    the key handling catches.  An interrupt that arrives elsewhere is not
    among the inputs: inside the key handling it breaks the loop as well,
    outside the [try] it ends the program as an interrupt, past [main]'s
    handler, and no exit code is returned. *)
Inductive keyboard := Key (ch : Z) | Interrupt.

(** Whether the loop is left on what the keyboard gives. *)
Definition breaks (k : keyboard) : bool :=
  match k with
  | Key ch => quit_key ch
  | Interrupt => true
  end.

(** One turn of the [while True] loop of [run]; the answer is whether the
    loop breaks.  On an interrupt no key is handled and the turn does not
    sleep. *)
Definition turn (term_y : Z) (k : keyboard) : prog bool :=
  match k with
  | Key ch => loop_body term_y ch
  | Interrupt =>
      draw_interface ;;
      handle_finished (Z.max 1 (term_y - 13)) ;;
      Ret true
  end.

(** The loop and the cleanup after a break; the answer is whether the
    loop was left within the inputs given. *)
Fixpoint main_loop (inputs : list (Z * keyboard)) : prog bool :=
  match inputs with
  | [] => Ret false
  | (term_y, k) :: rest =>
      quit <- turn term_y k ;;
      if quit then stop_playback ;; Ret true else main_loop rest
  end.

(** [MediaPlayer.run], the main thread on its own: the library is loaded,
    and the loop is entered if there is a file. *)
Definition run (c : Config) (w : World) (inputs : list (Z * keyboard))
  : run_result * Config * World :=
  match load_media_files (self c) w with
  | (inl _, m, w') => (Message ErrorAccessingDirectory, set_self c m, w')
  | (inr file_count, m, w') =>
      if file_count =? 0 then (Message NoMediaFiles, set_self c m, w')
      else
        let r := interp (main_loop inputs) (set_self c m) in
        (match fst r with
         | Done true => Returned
         | Done false => Ongoing
         | Raised e => Escaped e
         | Blocked => Ongoing
         end, snd r, w')
  end.

(** [main], for the directory of the command line, resolved: the exit
    code, if the program ends within the inputs given. *)
Definition main (directory_path : string) (w : World) (o : OS)
    (inputs : list (Z * keyboard)) : option Z * Config * World :=
  let player := mkConfig init_state (init_self directory_path []) o [] in
  match node_at w directory_path with
  | Absent => (Some 1, player, w)
  | NotDir => (Some 1, player, w)
  | IsDir d =>
      match listing d with
      | None => (Some 1, player, w)
      | Some _ =>
          let r := run player w inputs in
          (match fst (fst r) with
           | Message _ => Some 1
           | Escaped _ => Some 1
           | Returned => Some 0
           | Ongoing => None
           end, snd (fst r), snd r)
      end
  end.

(** ** The file list on the screen *)

(** The [for i in range(display_count)] loop of [draw_interface], from [i]
    on: the rows handed to [addstr] (whose error, if it has one, the loop
    ignores), each with its line, the name of its file and whether it is
    shown as the selection.  [None]: the index error of
    [self.files[file_idx]]. *)
Fixpoint list_rows (count : nat) (i : Z) (term_y : Z) (m : MediaPlayer)
  : option (list (Z * string * bool)) :=
  match count with
  | O => Some []
  | S count' =>
      let file_idx := start_index m + i in
      if file_idx >=? Z.of_nat (List.length (files m)) then Some []
      else
        let y_pos := 7 + i in
        if y_pos >=? term_y - 3 then Some []
        else
          match py_index (files m) file_idx with
          | None => None
          | Some filename =>
              match list_rows count' (i + 1) term_y m with
              | Some rest => Some ((y_pos, filename, highlight m =? file_idx) :: rest)
              | None => None
              end
          end
  end.

(** The file list area of [draw_interface] on a terminal of [term_y]
    lines. *)
Definition file_rows (term_y : Z) (m : MediaPlayer)
  : option (list (Z * string * bool)) :=
  let box_height := term_y - 7 in
  let list_height := box_height - 6 in
  let display_count := Z.max 1 list_height in
  list_rows (Z.to_nat display_count) 0 term_y m.

(** The text of a row.  Python counts and cuts strings by characters, so
    that a text is a list of them here, over any type of characters with
    its space, its asterisk and its full stop. *)

(** [s[:k]]: a negative [k] counts from the end. *)
Definition py_prefix {A} (s : list A) (k : Z) : list A :=
  if 0 <=? k then firstn (Z.to_nat k) s
  else firstn (Z.to_nat (Z.of_nat (List.length s) + k)) s.

(** "Truncate filename to fit". *)
Definition display_name {A} (dot : A) (box_width : Z) (filename : list A) : list A :=
  let max_name_len := Z.max 10 (box_width - 10) in
  if Z.of_nat (List.length filename) >? max_name_len then
    py_prefix filename (max_name_len - 3) ++ [dot; dot; dot]
  else filename.

(** What [addstr] is given for a row, on a terminal of [term_x] columns. *)
Definition row_text {A} (space star dot : A) (term_x : Z) (selected : bool)
    (filename : list A) : list A :=
  let box_width := term_x - 4 in
  let name := display_name dot box_width filename in
  if selected then
    let line_text := [space; star; space] ++ name in
    let padding :=
      repeat space
        (Z.to_nat (Z.max 0 (box_width - 6 - Z.of_nat (List.length line_text)))) in
    py_prefix (line_text ++ padding) (term_x - 5)
  else
    let line_text := [space; space; space] ++ name in
    py_prefix line_text (term_x - 5).

(** ** The buttons *)

(** The text [draw_button] writes. *)
Definition button_text (text : string) : string := ("< " ++ text ++ " >")%string.

(** The [for i, (text, selected) in enumerate(buttons)] loop, from index
    [i] on: the buttons drawn, each with its column, its text and whether
    it is shown selected. *)
Fixpoint button_loop (i : Z) (buttons : list (string * bool)) (term_x : Z)
  : list (Z * string * bool) :=
  match buttons with
  | [] => []
  | (text, selected) :: rest =>
      let x_pos := 4 + 12 * i in
      (if x_pos + Z.of_nat (String.length text) + 4 <? term_x
       then [(x_pos, button_text text, selected)] else [])
      ++ button_loop (i + 1) rest term_x
  end.

(** "Bottom control buttons": the line they are on, and the buttons. *)
Definition button_row (term_y term_x : Z) (m : MediaPlayer)
  : option (Z * list (Z * string * bool)) :=
  if term_y >? 3 then
    Some (term_y - 3,
          button_loop 0 [("Play", false); ("Stop", false);
                         ("Shuffle", shuffle_mode m); ("Random", false);
                         ("Quit", false)]%string term_x)
  else None.

(** * Properties *)

(** ** Running programs *)

(** Case analysis on the first test in the goal. *)
Ltac split_if :=
  match goal with
  | |- context [if ?b then _ else _] =>
      let E := fresh "E" in destruct b eqn:E
  end.

(** Boolean comparisons among the hypotheses, as inequalities. *)
Ltac z_facts :=
  repeat match goal with
         | H : (_ <? _) = true |- _ => apply Z.ltb_lt in H
         | H : (_ <? _) = false |- _ => apply Z.ltb_ge in H
         | H : (_ >? _) = true |- _ => rewrite Z.gtb_ltb in H
         | H : (_ >? _) = false |- _ => rewrite Z.gtb_ltb in H
         | H : (_ >=? _) = true |- _ => rewrite Z.geb_leb in H
         | H : (_ >=? _) = false |- _ => rewrite Z.geb_leb in H
         | H : (_ <=? _) = true |- _ => apply Z.leb_le in H
         | H : (_ <=? _) = false |- _ => apply Z.leb_gt in H
         end.

Lemma app_snoc (A : Type) (l r : list A) (x : A) : (l ++ [x]) ++ r = l ++ x :: r.
Proof. rewrite <- app_assoc. reflexivity. Qed.

(** The record updates of a configuration worked out, inside first. *)
Ltac norm :=
  cbv [set_state set_self set_os note logged with_lock with_process
       with_finished with_redraw holds tid_eqb negb
       with_highlight with_start_index with_shuffle_mode toggled_on consumed
       state self os accesses child_finished mpv_process needs_redraw lock
       directory files highlight start_index shuffle_mode];
  rewrite ?app_snoc.

Lemma interp_as_bind t A B (p : prog A) (f : A -> prog B) c :
  interp_as t (bind p f) c = and_then (interp_as t p c) (fun a c' => interp_as t (f a) c').
Proof.
  revert c. induction p as [a | e | R o k IH]; intro c; simpl; try reflexivity.
  destruct (exec t o c) as [[r c'] |]; [apply IH | reflexivity].
Qed.

Lemma interp_bind A B (p : prog A) (f : A -> prog B) c :
  interp (bind p f) c = and_then (interp p c) (fun a c' => interp (f a) c').
Proof. apply interp_as_bind. Qed.

Lemma interp_act (R : Type) (o : action R) c :
  interp (act o) c =
  match exec Fg o c with
  | Some (r, c') => (Done r, c')
  | None => (Blocked, c)
  end.
Proof. unfold interp, act. cbn. destruct (exec Fg o c) as [[r c'] |]; reflexivity. Qed.

(** ** Viewport *)

Lemma interp_update_scroll d c :
  interp (update_scroll d) c =
  (Done tt,
   set_self c (with_start_index (self c)
     (scroll_target (start_index (self c)) (highlight (self c)) d))).
Proof.
  unfold update_scroll, scroll_target, interp. cbn.
  destruct (highlight (self c) <? start_index (self c)); cbn; [reflexivity |].
  destruct (highlight (self c) >=? start_index (self c) + d); cbn; reflexivity.
Qed.

Lemma scroll_target_ok s h d :
  1 <= d -> 0 <= h ->
  0 <= scroll_target s h d /\
  scroll_target s h d <= h < scroll_target s h d + d.
Proof.
  intros Hd Hh. unfold scroll_target.
  repeat split_if; z_facts; lia.
Qed.

(** One navigation key: the call returns, touches nothing but the two
    viewport attributes and the redraw flag, and keeps the invariant. *)
Lemma nav_step (k : nav) d c :
  1 <= d -> files (self c) <> [] -> viewport_ok d (self c) ->
  exists h s,
    interp (handle_input (nav_code k) d) c =
    (Done false,
     mkConfig (with_redraw (state c) true)
              (with_start_index (with_highlight (self c) h) s)
              (os c)
              (accesses c ++ [mkAccess Fg CRedraw Wr (holds Fg (state c))])) /\
    0 <= s /\ s <= h < s + d.
Proof.
  intros Hd Hf [H0 [H1 H2]].
  assert (Hlen : 1 <= Z.of_nat (List.length (files (self c)))).
  { destruct (files (self c)); [congruence | cbn [List.length]; lia]. }
  destruct c as [st [dir fs h s sh] o a]; cbn in *.
  destruct k; unfold handle_input, interp; cbn;
    repeat (split_if; cbn); z_facts;
    (eexists _, _; split; [reflexivity | lia]).
Qed.

(** C2.  Navigation keeps the highlighted row in the window: from a state
    of a non-empty library in which [0 <= start_index <= highlight <
    start_index + display_count], with [display_count >= 1] fixed, every
    sequence of Up, Down, PageUp, PageDown, Home and End keys is handled
    without an error, and after each key the same bounds hold again. *)
Theorem viewport_invariant (d : Z) (c : Config) (evs : list nav) :
  1 <= d -> files (self c) <> [] -> viewport_ok d (self c) ->
  Forall (fun r => fst r = Done false /\ viewport_ok d (self (snd r)))
         (visited d (map nav_code evs) c).
Proof.
  intros Hd. revert c.
  induction evs as [| k evs IH]; intros c Hf Hv; cbn [map visited].
  - constructor.
  - destruct (nav_step k c Hd Hf Hv) as (h & s & Hrun & Hs & Hh).
    rewrite Hrun. constructor.
    + split; [reflexivity |]. unfold viewport_ok. cbn. lia.
    + apply IH; cbn; [exact Hf |]. unfold viewport_ok. cbn. lia.
Qed.

Lemma viewport_invariant_witness :
  1 <= 2 /\ files (self demo) <> [] /\ viewport_ok 2 (self demo) /\
  Forall (fun r => fst r = Done false /\ viewport_ok 2 (self (snd r)))
         (visited 2 (map nav_code [NavDown; NavEnd; NavPageUp; NavUp; NavHome; NavPageDown]) demo).
Proof.
  assert (H1 : 1 <= 2) by lia.
  assert (H2 : files (self demo) <> []) by discriminate.
  assert (H3 : viewport_ok 2 (self demo)) by (unfold viewport_ok; cbn; lia).
  repeat split; try assumption; try (cbn; lia).
  exact (@viewport_invariant 2 demo
           [NavDown; NavEnd; NavPageUp; NavUp; NavHome; NavPageDown] H1 H2 H3).
Defined.

(** C6.  [update_scroll] follows the minimal-scroll rule.  For a display
    count that is a number of rows (not negative; the loop computes it as
    [max(1, ...)]), the call returns and changes nothing but
    [start_index], whose new value is never negative and is: the old one, clamped at 0, when the highlight is
    inside the window; the highlight, clamped at 0, when it is above the
    window; [highlight - display_count + 1], clamped at 0, when it is below.
    On the values the attributes take (both non-negative) the clamp changes
    nothing.  In the library [a.mp3, b.mp3, c.mp3] with two rows, from
    highlight 0 and start index 0, two Down keys lead to highlight 2 and
    start index 1, and a Home key then to 0 and 0. *)
Theorem update_scroll_minimal (c : Config) (d : Z) :
  0 <= d ->
  (exists s',
     interp (update_scroll d) c =
       (Done tt, set_self c (with_start_index (self c) s')) /\
     let s := start_index (self c) in
     let h := highlight (self c) in
     0 <= s' /\
     (s <= h < s + d -> s' = Z.max 0 s) /\
     (h < s -> s' = Z.max 0 h) /\
     (s + d <= h -> s' = Z.max 0 (h - d + 1)) /\
     (0 <= s -> 0 <= h ->
      (s <= h < s + d -> s' = s) /\
      (h < s -> s' = h) /\
      (s + d <= h -> s' = h - d + 1))) /\
  (forall st dir o a,
     let c0 := mkConfig st (init_self dir abc) o a in
     let c2 := snd (interp (press 2 [KEY_DOWN; KEY_DOWN]) c0) in
     let c3 := snd (interp (press 2 [KEY_HOME]) c2) in
     highlight (self c2) = 2 /\ start_index (self c2) = 1 /\
     highlight (self c3) = 0 /\ start_index (self c3) = 0).
Proof.
  intros Hd. split.
  - eexists. split; [apply interp_update_scroll |].
    cbv zeta. unfold scroll_target.
    repeat split_if; z_facts; repeat split; intros; lia.
  - intros st dir o a. cbn. repeat split; reflexivity.
Qed.

Lemma update_scroll_minimal_witness :
  0 <= 2 /\
  start_index (self (snd (interp (update_scroll 2)
    (set_self demo (with_highlight (self demo) 2))))) = 1.
Proof.
  split; [lia |].
  destruct (@update_scroll_minimal (set_self demo (with_highlight (self demo) 2)) 2)
    as [(s' & Hrun & _ & _ & _ & Hbelow & _) _]; [lia |].
  rewrite Hrun. cbn. rewrite Hbelow; cbn; [reflexivity | lia].
Defined.

(** ** Playback *)

Lemma interp_get_process c :
  lock (state c) = None ->
  interp get_process c =
  (Done (mpv_process (state c)), logged c [mkAccess Fg CProcess Rd true]).
Proof.
  destruct c as [[cf mp nr lk] m o a]. cbn. intros ->. reflexivity.
Qed.

Lemma interp_set_process v c :
  lock (state c) = None ->
  interp (set_process v) c =
  (Done tt,
   mkConfig (with_process (state c) v) (self c) (os c)
            (accesses c ++ [mkAccess Fg CProcess Wr true])).
Proof.
  destruct c as [[cf mp nr lk] m o a]. cbn. intros ->. reflexivity.
Qed.

Lemma existsb_filter_out p (l : list pid) :
  existsb (Nat.eqb p) (filter (fun q => negb (Nat.eqb p q)) l) = false.
Proof.
  induction l as [| q l IH]; cbn; [reflexivity |].
  destruct (Nat.eqb p q) eqn:E; cbn; [exact IH | rewrite E; exact IH].
Qed.

Lemma is_alive_reap p o : is_alive p (reap p o) = false.
Proof. apply existsb_filter_out. Qed.

Lemma interp_stop_playback c :
  lock (state c) = None -> interp stop_playback c = (Done tt, stopped c).
Proof.
  destruct c as [[cf mp nr lk] m o a]. cbn. intros ->.
  unfold stop_playback, stopped, halt, interp, is_alive. cbn.
  destruct mp as [p |]; cbn; [| reflexivity].
  destruct (heeds_term o p) eqn:Hh; cbn; rewrite ?Hh; cbn.
  - rewrite existsb_filter_out. cbn. norm. reflexivity.
  - destruct (existsb (Nat.eqb p) (alive o)); cbn; norm; reflexivity.
Qed.

Lemma interp_try_players cmds c :
  lock (state c) = None -> interp (try_players cmds) c = launched cmds c.
Proof.
  revert c. induction cmds as [| cmd rest IH]; intros c Hl; [reflexivity |].
  destruct c as [[cf mp nr lk] m o a]. cbn in Hl. subst lk.
  unfold interp in *. cbn. unfold spawn.
  destruct (path_lookup o (hd ""%string cmd)); cbn.
  - norm. reflexivity.
  - apply (IH (mkConfig (mkPlayerState cf mp nr None) m (emit (EvSpawnFailed cmd) o) a)).
    reflexivity.
  - reflexivity.
Qed.

Lemma lock_stopped c : lock (state c) = None -> lock (state (stopped c)) = None.
Proof. unfold stopped. destruct (mpv_process (state c)); cbn; auto. Qed.

Lemma self_stopped c : self (stopped c) = self c.
Proof. unfold stopped. destruct (mpv_process (state c)); reflexivity. Qed.

Lemma interp_play_file f c :
  lock (state c) = None ->
  interp (play_file f) c =
  launched (players (filepath (directory (self c)) f)) (stopped c).
Proof.
  intros Hl. unfold play_file. rewrite interp_bind, interp_stop_playback by exact Hl.
  cbn [and_then]. unfold interp. cbn [bind act interp_as exec].
  rewrite self_stopped. apply interp_try_players, lock_stopped, Hl.
Qed.

Lemma filter_out_absent p (l : list pid) :
  existsb (Nat.eqb p) l = false ->
  filter (fun q => negb (Nat.eqb p q)) l = l.
Proof.
  induction l as [| q l IH]; cbn; [reflexivity |].
  destruct (Nat.eqb p q); cbn; [discriminate |].
  intros H. f_equal. exact (IH H).
Qed.

Lemma not_in_filter_out p (l : list pid) :
  ~ In p (filter (fun q => negb (Nat.eqb p q)) l).
Proof.
  rewrite filter_In. intros [_ H]. rewrite Nat.eqb_refl in H. discriminate.
Qed.

(** What stopping process [p] does to the system [o]. *)
Section Halt.

Variables (p : pid) (o : OS).

Lemma alive_halt :
  alive (halt p o) = filter (fun q => negb (Nat.eqb p q)) (alive o).
Proof.
  unfold halt, is_alive. cbn.
  destruct (heeds_term o p); cbn.
  - rewrite existsb_filter_out. reflexivity.
  - destruct (existsb (Nat.eqb p) (alive o)) eqn:E; cbn; [reflexivity |].
    symmetry. apply filter_out_absent, E.
Qed.

Lemma trace_halt :
  trace (halt p o) =
  trace o ++ [EvTerminate p; EvWait p 1] ++
  (if survives_term p o then [EvKill p] else []).
Proof.
  unfold halt, survives_term, is_alive. cbn.
  destruct (heeds_term o p); cbn.
  - rewrite existsb_filter_out, andb_false_r. cbn.
    rewrite app_snoc. reflexivity.
  - destruct (existsb (Nat.eqb p) (alive o)); cbn;
      rewrite ?app_snoc; reflexivity.
Qed.

Lemma rest_halt :
  next_pid (halt p o) = next_pid o /\
  path_lookup (halt p o) = path_lookup o /\
  heeds_term (halt p o) = heeds_term o /\
  rng (halt p o) = rng o /\
  draws (halt p o) = draws o.
Proof.
  unfold halt, is_alive. cbn.
  destruct (heeds_term o p); cbn;
    destruct (existsb _ _); cbn; repeat split; reflexivity.
Qed.

End Halt.

(** [stop_playback] leaves no child behind when every child was the one in
    the slot. *)
Lemma alive_stopped c : one_session c -> alive (os (stopped c)) = [].
Proof.
  unfold one_session, stopped.
  destruct (alive (os c)) as [| q [| q' l]] eqn:Ha; intros H.
  - destruct (mpv_process (state c)); cbn; [rewrite alive_halt |]; rewrite Ha; reflexivity.
  - rewrite H. cbn. rewrite alive_halt, Ha. cbn. rewrite Nat.eqb_refl. reflexivity.
  - contradiction.
Qed.

Lemma trace_stopped c : trace (os (stopped c)) = trace (os c) ++ stop_events c.
Proof.
  unfold stopped, stop_events.
  destruct (mpv_process (state c)); cbn; [apply trace_halt | symmetry; apply app_nil_r].
Qed.

Lemma mpv_process_stopped c : mpv_process (state (stopped c)) = None.
Proof.
  unfold stopped. destruct (mpv_process (state c)) eqn:E; cbn; [reflexivity | exact E].
Qed.

Lemma next_pid_stopped c : next_pid (os (stopped c)) = next_pid (os c).
Proof.
  unfold stopped. destruct (mpv_process (state c)); cbn; [apply rest_halt | reflexivity].
Qed.

Lemma path_lookup_stopped c : path_lookup (os (stopped c)) = path_lookup (os c).
Proof.
  unfold stopped. destruct (mpv_process (state c)); cbn; [apply rest_halt | reflexivity].
Qed.

Lemma child_finished_stopped c :
  child_finished (state (stopped c)) = child_finished (state c).
Proof. unfold stopped. destruct (mpv_process (state c)); reflexivity. Qed.

(** C4.  The contract of [stop_playback], run with the lock free.  The
    call returns without an exception and leaves the lock free.  With a
    process in the session slot it sends SIGTERM, waits with a timeout of
    1 second, kills the process exactly when it is still running after
    that, and in every case ends with an empty slot, the process gone and
    the redraw flag set.  With an empty slot it changes no attribute and
    nothing outside; a second call right after a first one is such a
    call. *)
Theorem stop_playback_contract (c : Config) :
  lock (state c) = None ->
  exists c',
    interp stop_playback c = (Done tt, c') /\
    lock (state c') = None /\
    self c' = self c /\
    child_finished (state c') = child_finished (state c) /\
    mpv_process (state c') = None /\
    next_pid (os c') = next_pid (os c) /\
    match mpv_process (state c) with
    | Some p =>
        trace (os c') =
          trace (os c) ++ [EvTerminate p; EvWait p 1] ++
          (if survives_term p (os c) then [EvKill p] else []) /\
        alive (os c') = filter (fun q => negb (Nat.eqb p q)) (alive (os c)) /\
        ~ In p (alive (os c')) /\
        needs_redraw (state c') = true
    | None => state c' = state c /\ os c' = os c
    end /\
    exists c'',
      interp stop_playback c' = (Done tt, c'') /\
      state c'' = state c' /\ self c'' = self c' /\ os c'' = os c'.
Proof.
  intros Hl. exists (stopped c).
  split; [apply interp_stop_playback, Hl |].
  split; [apply lock_stopped, Hl |].
  split; [apply self_stopped |].
  split; [apply child_finished_stopped |].
  split; [apply mpv_process_stopped |].
  split; [apply next_pid_stopped |].
  split.
  - unfold stopped. destruct (mpv_process (state c)) as [p |]; cbn [state os].
    + split; [apply trace_halt |].
      split; [apply alive_halt |].
      split; [rewrite alive_halt; apply not_in_filter_out | reflexivity].
    + split; reflexivity.
  - exists (stopped (stopped c)).
    split; [apply interp_stop_playback, lock_stopped, Hl |].
    assert (E : stopped (stopped c) = logged (stopped c) [mkAccess Fg CProcess Rd true]).
    { unfold stopped at 1. rewrite mpv_process_stopped. reflexivity. }
    rewrite E. repeat split; reflexivity.
Qed.

(** What the loop over the candidate commands leaves. *)
Lemma launched_frame cmds c :
  let r := launched cmds c in
  self (snd r) = self c /\
  lock (state (snd r)) = lock (state c) /\
  child_finished (state (snd r)) = child_finished (state c) /\
  path_lookup (os (snd r)) = path_lookup (os c) /\
  heeds_term (os (snd r)) = heeds_term (os c) /\
  rng (os (snd r)) = rng (os c) /\
  draws (os (snd r)) = draws (os c).
Proof.
  revert c. induction cmds as [| cmd rest IH]; intros c; cbn.
  - repeat split; reflexivity.
  - destruct (path_lookup (os c) (hd ""%string cmd)) eqn:E; cbn.
    + unfold spawn. rewrite E. cbn. repeat split; reflexivity.
    + apply (IH (set_os c (emit (EvSpawnFailed cmd) (os c)))).
    + repeat split; reflexivity.
Qed.

Lemma launched_attempts cmds c :
  exists attempts,
    trace (os (snd (launched cmds c))) = trace (os c) ++ attempts /\
    Forall is_attempt attempts.
Proof.
  revert c. induction cmds as [| cmd rest IH]; intros c; cbn.
  - exists []. split; [symmetry; apply app_nil_r | constructor].
  - destruct (path_lookup (os c) (hd ""%string cmd)) eqn:E; cbn.
    + unfold spawn. rewrite E. cbn.
      exists [EvSpawn cmd (next_pid (os c))]. split; [reflexivity |].
      repeat constructor.
    + destruct (IH (set_os c (emit (EvSpawnFailed cmd) (os c)))) as (l & Hl & Hf).
      exists (EvSpawnFailed cmd :: l). split.
      * rewrite Hl. cbn. rewrite <- app_assoc. reflexivity.
      * constructor; [exact I | exact Hf].
    + exists [EvSpawnFailed cmd]. split; [reflexivity | repeat constructor].
Qed.

Lemma launched_outcome cmds c :
  let r := launched cmds c in
  (fst r = Done true /\
   mpv_process (state (snd r)) = Some (next_pid (os c)) /\
   needs_redraw (state (snd r)) = true /\
   alive (os (snd r)) = next_pid (os c) :: alive (os c) /\
   next_pid (os (snd r)) = S (next_pid (os c)) /\
   exists cmd, In cmd cmds /\
     path_lookup (os c) (hd ""%string cmd) = Resolves /\
     In (EvSpawn cmd (next_pid (os c))) (trace (os (snd r)))) \/
  ((fst r = Done false /\
    Forall (fun cmd => path_lookup (os c) (hd ""%string cmd) = Missing) cmds \/
    fst r = Raised OSError /\
    exists cmd, In cmd cmds /\
      path_lookup (os c) (hd ""%string cmd) = Unusable) /\
   state (snd r) = state c /\
   alive (os (snd r)) = alive (os c) /\
   next_pid (os (snd r)) = next_pid (os c)).
Proof.
  revert c. induction cmds as [| cmd rest IH]; intros c; cbn.
  - right. repeat split. left. split; [reflexivity | constructor].
  - destruct (path_lookup (os c) (hd ""%string cmd)) eqn:E; cbn.
    + left. unfold spawn. rewrite E. cbn. repeat split.
      exists cmd. repeat split; [left; reflexivity | exact E |].
      apply in_or_app. right. left. reflexivity.
    + specialize (IH (set_os c (emit (EvSpawnFailed cmd) (os c)))).
      cbn in IH.
      destruct IH as [(H1 & H2 & H3 & H4 & H5 & cmd' & H6 & H7 & H8)
                     | ([[H1 H2] | [H1 (cmd' & H2 & H3)]] & H4 & H5 & H6)].
      * left. repeat split; try assumption.
        exists cmd'. repeat split; [right; exact H6 | exact H7 | exact H8].
      * right. repeat split; try assumption.
        left. split; [exact H1 | constructor; assumption].
      * right. repeat split; try assumption.
        right. split; [exact H1 |]. exists cmd'. split; [right; exact H2 | exact H3].
    + right. repeat split.
      right. split; [reflexivity |]. exists cmd. split; [left; reflexivity | exact E].
Qed.

(** One call of [play_file] from a state with at most one child. *)
Lemma play_file_spec f c :
  lock (state c) = None -> one_session c ->
  let r := interp (play_file f) c in
  lock (state (snd r)) = None /\
  self (snd r) = self c /\
  (exists attempts,
     trace (os (snd r)) = trace (os c) ++ stop_events c ++ attempts /\
     Forall is_attempt attempts) /\
  (fst r = Done true /\
   mpv_process (state (snd r)) = Some (next_pid (os c)) /\
   alive (os (snd r)) = [next_pid (os c)] /\
   (exists cmd, In cmd (players (filepath (directory (self c)) f)) /\
      In (EvSpawn cmd (next_pid (os c))) (trace (os (snd r)))) \/
   (fst r = Done false \/ fst r = Raised OSError) /\
   mpv_process (state (snd r)) = None /\
   alive (os (snd r)) = []).
Proof.
  intros Hl H1. cbv zeta. rewrite interp_play_file by exact Hl.
  set (cmds := players (filepath (directory (self c)) f)).
  destruct (launched_frame cmds (stopped c)) as (Hs & Hk & _).
  destruct (launched_attempts cmds (stopped c)) as (l & Ht & Hf).
  cbv zeta in Hs, Hk.
  split; [rewrite Hk; apply lock_stopped, Hl |].
  split; [rewrite Hs; apply self_stopped |].
  split.
  { exists l. split; [| exact Hf]. rewrite Ht, trace_stopped, <- app_assoc. reflexivity. }
  destruct (launched_outcome cmds (stopped c))
    as [(R1 & R2 & _ & R4 & _ & cmd & R6 & _ & R8) | (R1 & R2 & R3 & _)].
  - left. rewrite next_pid_stopped in *. rewrite alive_stopped in R4 by exact H1.
    split; [exact R1 |]. split; [exact R2 |]. split; [exact R4 |].
    exists cmd. split; assumption.
  - right. rewrite R2, R3, mpv_process_stopped, alive_stopped by exact H1.
    split; [| split; reflexivity].
    destruct R1 as [[R1 _] | [R1 _]]; [left | right]; exact R1.
Qed.

Lemma stop_playback_contract_witness :
  lock (state demo_stubborn) = None /\
  exists c',
    interp stop_playback demo_stubborn = (Done tt, c') /\
    mpv_process (state c') = None /\
    trace (os c') = [EvTerminate 0%nat; EvWait 0%nat 1; EvKill 0%nat] /\
    alive (os c') = [].
Proof.
  split; [reflexivity |].
  destruct (@stop_playback_contract demo_stubborn eq_refl)
    as (c' & Hrun & _ & _ & _ & Hslot & _ & (Htrace & Halive & _) & _).
  exists c'. repeat split; assumption.
Defined.

Lemma one_session_of_spec c p :
  alive (os c) = [p] -> mpv_process (state c) = Some p -> one_session c.
Proof. unfold one_session. intros -> H. exact H. Qed.

(** The answer of [play_file] is that of the first player found, and the
    players to be found stay the same. *)
Lemma play_file_answer f c :
  lock (state c) = None ->
  fst (interp (play_file f) c) = play_answer (player_found (os c)) /\
  player_found (os (snd (interp (play_file f) c))) = player_found (os c).
Proof.
  intros Hl. rewrite interp_play_file by exact Hl. split.
  - unfold player_found, first_found, players, launched.
    rewrite <- (path_lookup_stopped c). cbn.
    destruct (path_lookup (os (stopped c)) "mpv"); cbn; try reflexivity.
    destruct (path_lookup (os (stopped c)) "mplayer"); cbn; try reflexivity.
    destruct (path_lookup (os (stopped c)) "vlc"); cbn; reflexivity.
  - destruct (launched_frame (players (filepath (directory (self c)) f)) (stopped c))
      as (_ & _ & _ & Hp & _).
    cbv zeta in Hp. unfold player_found, first_found.
    rewrite Hp, path_lookup_stopped. reflexivity.
Qed.

(** C1.  [play_file] keeps to one session.  From a state in which the
    lock is free and every running child is the one in the slot, each of
    two calls in a row answers by what the search for a player finds (true
    when the first of mpv, mplayer and vlc that is found can be launched,
    false when none is found, the error of a player found that cannot be
    executed) and leaves at most one running child, the one in the slot.
    After the second call the running children are exactly the session
    this call recorded.  Where a player can be launched the second call
    returns true, and that session is the process it has just launched
    with one of the three commands for the second file: exactly the second
    session is live.  A process the first call left in the slot is not
    running any more, and the second call sent it SIGTERM, waited, and
    killed it where needed, before its first launch attempt. *)
Theorem play_file_one_session (c : Config) (f1 f2 : string) :
  lock (state c) = None -> one_session c ->
  let r1 := interp (play_file f1) c in
  let c1 := snd r1 in
  let r2 := interp (play_file f2) c1 in
  let c2 := snd r2 in
  one_session c1 /\ one_session c2 /\
  (List.length (alive (os c1)) <= 1)%nat /\
  (List.length (alive (os c2)) <= 1)%nat /\
  fst r1 <> Blocked /\ fst r2 <> Blocked /\
  alive (os c2) =
    match mpv_process (state c2) with Some p => [p] | None => [] end /\
  (fst r2 = Done true ->
   mpv_process (state c2) = Some (next_pid (os c1)) /\
   alive (os c2) = [next_pid (os c1)] /\
   exists cmd,
     In cmd (players (filepath (directory (self c)) f2)) /\
     In (EvSpawn cmd (next_pid (os c1))) (trace (os c2))) /\
  (forall p1, mpv_process (state c1) = Some p1 ->
   ~ In p1 (alive (os c2)) /\
   exists attempts,
     trace (os c2) =
       trace (os c1) ++
       ([EvTerminate p1; EvWait p1 1] ++
        (if survives_term p1 (os c1) then [EvKill p1] else [])) ++
       attempts /\
     Forall is_attempt attempts) /\
  fst r1 = play_answer (player_found (os c)) /\
  fst r2 = play_answer (player_found (os c)) /\
  (player_found (os c) = Resolves ->
   fst r2 = Done true /\
   mpv_process (state c2) = Some (next_pid (os c1)) /\
   alive (os c2) = [next_pid (os c1)]).
Proof.
  intros Hl H1. cbv zeta.
  destruct (@play_file_answer f1 c Hl) as (Ha1 & Hpf1).
  destruct (play_file_spec f1 c Hl H1) as (Hl1 & Hs1 & _ & Ho1). cbv zeta in *.
  set (r1 := interp (play_file f1) c) in *.
  assert (Hone1 : one_session (snd r1)).
  { destruct Ho1 as [(_ & A & B & _) | (_ & _ & B)].
    - exact (one_session_of_spec _ B A).
    - unfold one_session. rewrite B. exact I. }
  destruct (@play_file_answer f2 (snd r1) Hl1) as (Ha2 & _).
  fold r1 in Hpf1. rewrite Hpf1 in Ha2.
  destruct (play_file_spec f2 (snd r1) Hl1 Hone1) as (Hl2 & Hs2 & Ht2 & Ho2).
  cbv zeta in *. set (r2 := interp (play_file f2) (snd r1)) in *.
  assert (Hone2 : one_session (snd r2)).
  { destruct Ho2 as [(_ & A & B & _) | (_ & _ & B)].
    - exact (one_session_of_spec _ B A).
    - unfold one_session. rewrite B. exact I. }
  split; [exact Hone1 |]. split; [exact Hone2 |].
  split. { destruct Ho1 as [(_ & _ & B & _) | (_ & _ & B)]; rewrite B; cbn; lia. }
  split. { destruct Ho2 as [(_ & _ & B & _) | (_ & _ & B)]; rewrite B; cbn; lia. }
  split. { destruct Ho1 as [(A & _) | ([A | A] & _)]; rewrite A; discriminate. }
  split. { destruct Ho2 as [(A & _) | ([A | A] & _)]; rewrite A; discriminate. }
  split. { destruct Ho2 as [(_ & A & B & _) | (_ & A & B)]; rewrite A, B; reflexivity. }
  split; [| split; [| split; [| split]]].
  - intros Ht. destruct Ho2 as [(_ & A & B & cmd & C & D) | ([A | A] & _)];
      [| rewrite A in Ht; discriminate ..].
    split; [exact A |]. split; [exact B |].
    exists cmd. rewrite Hs1 in C. split; assumption.
  - intros p1 Hp1. split.
    + destruct Ho2 as [(_ & _ & B & _) | (_ & _ & B)]; rewrite B; [| intros []].
      intros [E | []].
      destruct Ho1 as [(_ & A & B1 & _) | (_ & A & _)]; rewrite A in Hp1; [| discriminate].
      injection Hp1 as <-.
      assert (Hn : next_pid (os (snd r1)) = S (next_pid (os c))).
      { unfold r1. rewrite interp_play_file by exact Hl.
        destruct (launched_outcome (players (filepath (directory (self c)) f1)) (stopped c))
          as [(_ & _ & _ & _ & N & _) | (_ & S1 & _)].
        - rewrite N, next_pid_stopped. reflexivity.
        - unfold r1 in A. rewrite interp_play_file in A by exact Hl.
          rewrite S1, mpv_process_stopped in A. discriminate. }
      rewrite Hn in E. lia.
    + destruct Ht2 as (l & T & F). exists l. split; [| exact F].
      rewrite T. unfold stop_events. rewrite Hp1. reflexivity.
  - exact Ha1.
  - exact Ha2.
  - intros Hfound. rewrite Hfound in Ha2. cbn [play_answer] in Ha2.
    destruct Ho2 as [(_ & A & B & _) | ([A | A] & _)];
      [| rewrite A in Ha2; discriminate ..].
    split; [exact Ha2 |]. split; [exact A | exact B].
Qed.

Lemma play_file_one_session_witness :
  lock (state demo_stubborn) = None /\ one_session demo_stubborn /\
  player_found (os demo_stubborn) = Resolves /\
  let c1 := snd (interp (play_file "a.mp3") demo_stubborn) in
  let c2 := snd (interp (play_file "b.mp3") c1) in
  alive (os c2) = match mpv_process (state c2) with Some p => [p] | None => [] end /\
  mpv_process (state c1) = Some 1%nat /\
  fst (interp (play_file "b.mp3") c1) = Done true /\
  mpv_process (state c2) = Some 2%nat /\ alive (os c2) = [2%nat].
Proof.
  assert (H1 : lock (state demo_stubborn) = None) by reflexivity.
  assert (H2 : one_session demo_stubborn) by reflexivity.
  assert (H3 : player_found (os demo_stubborn) = Resolves) by reflexivity.
  split; [exact H1 |]. split; [exact H2 |]. split; [exact H3 |]. cbv zeta.
  pose proof (@play_file_one_session demo_stubborn "a.mp3" "b.mp3" H1 H2) as H.
  cbv zeta in H.
  destruct H as (_ & _ & _ & _ & _ & _ & Ha & _ & _ & _ & _ & Hlive).
  split; [exact Ha |]. split; [reflexivity |]. exact (Hlive H3).
Defined.

Lemma no_player_candidates o path :
  no_player o ->
  Forall (fun cmd => path_lookup o (hd ""%string cmd) = Missing) (players path).
Proof.
  intros H. unfold players.
  repeat constructor; apply H; cbn; tauto.
Qed.

Lemma launched_all_missing cmds c :
  Forall (fun cmd => path_lookup (os c) (hd ""%string cmd) = Missing) cmds ->
  launched cmds c =
  (Done false,
   set_os c (mkOS (alive (os c)) (next_pid (os c)) (path_lookup (os c))
                  (heeds_term (os c)) (rng (os c)) (draws (os c))
                  (trace (os c) ++ map EvSpawnFailed cmds))).
Proof.
  revert c. induction cmds as [| cmd rest IH]; intros c H; cbn.
  - rewrite app_nil_r. destruct c as [st m [] a]. reflexivity.
  - inversion H as [| ? ? Hc Hr]; subst. rewrite Hc.
    rewrite IH by exact Hr. cbn. rewrite <- app_assoc. reflexivity.
Qed.

(** One failed call: nothing changes but the record of the attempts. *)
Lemma play_file_no_player_once f c :
  lock (state c) = None -> mpv_process (state c) = None -> no_player (os c) ->
  exists c',
    interp (play_file f) c = (Done false, c') /\
    state c' = state c /\ self c' = self c /\
    alive (os c') = alive (os c) /\ next_pid (os c') = next_pid (os c) /\
    path_lookup (os c') = path_lookup (os c) /\
    trace (os c') =
      trace (os c) ++ map EvSpawnFailed (players (filepath (directory (self c)) f)).
Proof.
  intros Hl Hp Hn. rewrite interp_play_file by exact Hl.
  assert (Hs : stopped c = logged c [mkAccess Fg CProcess Rd true]).
  { unfold stopped. rewrite Hp. reflexivity. }
  rewrite Hs, launched_all_missing by (apply no_player_candidates, Hn).
  eexists. split; [reflexivity |]. cbn. repeat split; reflexivity.
Qed.

(** C5.  Without any player.  When none of [mpv], [mplayer] and [vlc] can
    be found and no session is recorded, every call of [play_file] in a
    row of calls returns [False] without an exception; the attributes of
    [PlayerState] (so the empty slot and the redraw flag) and of
    [MediaPlayer] are as before, no process has been started, and all that
    happened outside are failed launch attempts. *)
Theorem play_file_no_player (c : Config) (names : list string) :
  lock (state c) = None -> mpv_process (state c) = None -> no_player (os c) ->
  exists c',
    interp (play_all names) c = (Done (map (fun _ => false) names), c') /\
    state c' = state c /\ self c' = self c /\
    mpv_process (state c') = None /\
    alive (os c') = alive (os c) /\ next_pid (os c') = next_pid (os c) /\
    exists cmds, trace (os c') = trace (os c) ++ map EvSpawnFailed cmds.
Proof.
  revert c. induction names as [| f rest IH]; intros c Hl Hp Hn.
  - exists c. split; [reflexivity |]. repeat split; try assumption.
    exists []. symmetry. apply app_nil_r.
  - destruct (play_file_no_player_once f c Hl Hp Hn)
      as (c1 & R1 & S1 & M1 & A1 & N1 & P1 & T1).
    destruct (IH c1) as (c2 & R2 & S2 & M2 & _ & A2 & N2 & cmds & T2).
    { rewrite S1. exact Hl. }
    { rewrite S1. exact Hp. }
    { unfold no_player. rewrite P1. exact Hn. }
    exists c2. split.
    + cbn [play_all map]. rewrite interp_bind, R1. cbn [and_then].
      rewrite interp_bind, R2. reflexivity.
    + rewrite S2, M2, A2, N2, S1, M1, A1, N1.
      repeat split; try reflexivity; try assumption.
      eexists. rewrite T2, T1, <- app_assoc, <- map_app. reflexivity.
Qed.

Lemma play_file_no_player_witness :
  lock (state demo_bare) = None /\ mpv_process (state demo_bare) = None /\
  no_player (os demo_bare) /\
  exists c',
    interp (play_all ["a.mp3"; "b.mp3"]%string) demo_bare = (Done [false; false], c') /\
    state c' = state demo_bare /\ alive (os c') = [].
Proof.
  assert (H1 : lock (state demo_bare) = None) by reflexivity.
  assert (H2 : mpv_process (state demo_bare) = None) by reflexivity.
  assert (H3 : no_player (os demo_bare)) by (intros name _; reflexivity).
  split; [exact H1 |]. split; [exact H2 |]. split; [exact H3 |].
  destruct (@play_file_no_player demo_bare ["a.mp3"; "b.mp3"]%string H1 H2 H3)
    as (c' & R & S & _ & _ & A & _).
  exists c'. repeat split; assumption.
Defined.

(** What [play_file] leaves alone, whatever children are around. *)
Lemma play_file_frame f c :
  lock (state c) = None ->
  let r := interp (play_file f) c in
  fst r <> Blocked /\
  self (snd r) = self c /\
  lock (state (snd r)) = None /\
  child_finished (state (snd r)) = child_finished (state c) /\
  path_lookup (os (snd r)) = path_lookup (os c) /\
  exists attempts,
    trace (os (snd r)) = trace (os c) ++ stop_events c ++ attempts /\
    Forall is_attempt attempts.
Proof.
  intros Hl. cbv zeta. rewrite interp_play_file by exact Hl.
  set (cmds := players (filepath (directory (self c)) f)).
  destruct (launched_frame cmds (stopped c)) as (Hs & Hk & Hc & Hp & _).
  destruct (launched_attempts cmds (stopped c)) as (l & Ht & Hf).
  cbv zeta in *.
  split.
  { destruct (launched_outcome cmds (stopped c)) as [(R & _) | ([[R _] | [R _]] & _)];
      rewrite R; discriminate. }
  split; [rewrite Hs; apply self_stopped |].
  split; [rewrite Hk; apply lock_stopped, Hl |].
  split.
  { rewrite Hc. unfold stopped. destruct (mpv_process (state c)); reflexivity. }
  split; [rewrite Hp; apply path_lookup_stopped |].
  exists l. split; [| exact Hf].
  rewrite Ht, trace_stopped, <- app_assoc. reflexivity.
Qed.

(** ** Random play *)

Lemma interp_play_random_file_empty d c :
  files (self c) = [] -> interp (play_random_file d) c = (Done tt, c).
Proof.
  intros H. unfold play_random_file, interp. cbn. rewrite H. reflexivity.
Qed.

Lemma interp_play_random_file d c :
  lock (state c) = None -> files (self c) <> [] ->
  interp (play_random_file d) c =
  let c1 := set_os c (snd (draw 0 (Z.of_nat (List.length (files (self c))) - 1) (os c))) in
  match py_index (files (self c)) (next_draw c) with
  | None => (Raised IndexError, c1)
  | Some f =>
      and_then (interp (play_file f) c1)
               (fun _ c2 => (Done tt, moved (next_draw c) d c2))
  end.
Proof.
  intros Hl Hf. unfold play_random_file, next_draw.
  rewrite interp_bind, interp_act. cbn [exec and_then].
  assert (Hm : forall (X : Type) (x y : X),
             match files (self c) with [] => x | _ :: _ => y end = y).
  { intros X x y. destruct (files (self c)); congruence. }
  rewrite Hm. rewrite interp_bind, interp_act. cbn [exec draw and_then snd].
  unfold index. cbv zeta.
  destruct (py_index (files (self c)) _) as [f |]; [| reflexivity].
  cbn [bind]. rewrite interp_bind.
  match goal with |- and_then (interp _ ?c1) _ = _ =>
    assert (Hl1 : lock (state c1) = None) by exact Hl;
    destruct (play_file_frame f c1 Hl1) as (_ & _ & Hl2 & _); cbv zeta in Hl2;
    destruct (interp (play_file f) c1) as [[b | e |] c2]
  end; cbn [and_then snd] in *; try reflexivity.
  rewrite interp_bind. unfold assign_highlight at 1.
  rewrite interp_bind, !interp_act. cbn [exec and_then].
  rewrite interp_act. cbn [exec and_then].
  rewrite interp_bind, interp_update_scroll. cbn [and_then]. rewrite interp_act. cbn [exec].
  unfold moved, note, holds. cbn. rewrite Hl2. reflexivity.
Qed.

Lemma no_draw_in_attempts lo hi v l :
  Forall is_attempt l -> ~ In (EvRandInt lo hi v) l.
Proof.
  intros H Hin. rewrite Forall_forall in H. exact (H _ Hin).
Qed.

Lemma no_draw_in_stop_events lo hi v c : ~ In (EvRandInt lo hi v) (stop_events c).
Proof.
  unfold stop_events. destruct (mpv_process (state c)); cbn; [| tauto].
  destruct (survives_term _ _); cbn; intuition discriminate.
Qed.

Lemma length_pos (A : Type) (l : list A) : l <> [] -> 0 <= Z.of_nat (List.length l) - 1.
Proof. destruct l; [congruence | cbn [List.length]; lia]. Qed.

(** The events of one [play_random_file]: the draw comes first and is the
    only one. *)
Lemma play_random_file_trace d c :
  lock (state c) = None -> files (self c) <> [] ->
  exists evs,
    trace (os (snd (interp (play_random_file d) c))) =
      trace (os c) ++
      EvRandInt 0 (Z.of_nat (List.length (files (self c))) - 1) (next_draw c) :: evs /\
    forall lo hi v, ~ In (EvRandInt lo hi v) evs.
Proof.
  intros Hl Hf. rewrite interp_play_random_file by assumption. cbv zeta.
  set (c1 := set_os c _).
  assert (Hl1 : lock (state c1) = None) by exact Hl.
  assert (Ht1 : trace (os c1) = trace (os c) ++
            [EvRandInt 0 (Z.of_nat (List.length (files (self c))) - 1) (next_draw c)])
    by reflexivity.
  destruct (py_index (files (self c)) (next_draw c)) as [f |].
  - destruct (play_file_frame f c1 Hl1) as (_ & _ & _ & _ & _ & l & Ht & Hatt).
    cbv zeta in Ht.
    exists (stop_events c1 ++ l). split.
    + destruct (interp (play_file f) c1) as [[b | e |] c2]; cbn [and_then snd] in *;
        try (unfold moved; cbn [os]);
        rewrite Ht, Ht1, <- app_assoc; reflexivity.
    + intros lo hi v Hin. apply in_app_or in Hin. destruct Hin as [Hin | Hin].
      * exact (@no_draw_in_stop_events lo hi v c1 Hin).
      * exact (@no_draw_in_attempts lo hi v l Hatt Hin).
  - exists []. split; [exact Ht1 | intros lo hi v []].
Qed.

(** C10.  The guard of [play_random_file].  On an empty library the call
    returns at once and the whole state, inside and outside the program,
    is the one before: no draw, no process.  The same holds for what its
    three callers (the [r] and [s] keys, and the handling of a finished
    child) pass on to it: the world outside, the session slot, the
    highlight and the start index are untouched.  Whenever the call does
    draw, the library is not empty and the draw is over
    [0 .. len(files) - 1], a range that is not empty. *)
Theorem play_random_file_guard (c : Config) (d : Z) :
  (files (self c) = [] -> interp (play_random_file d) c = (Done tt, c)) /\
  (files (self c) = [] -> lock (state c) = None ->
   forall entry,
     In entry [handle_input 114 d; handle_input 82 d;
               handle_input 115 d; handle_input 83 d;
               handle_finished d ;; Ret false] ->
     let c' := snd (interp entry c) in
     fst (interp entry c) = Done false /\
     os c' = os c /\
     mpv_process (state c') = mpv_process (state c) /\
     highlight (self c') = highlight (self c) /\
     start_index (self c') = start_index (self c)) /\
  (lock (state c) = None ->
   exists evs,
     trace (os (snd (interp (play_random_file d) c))) = trace (os c) ++ evs /\
     forall lo hi v,
       In (EvRandInt lo hi v) evs ->
       files (self c) <> [] /\
       lo = 0 /\ hi = Z.of_nat (List.length (files (self c))) - 1 /\ lo <= hi).
Proof.
  split; [apply interp_play_random_file_empty |]. split.
  - intros Hf Hl entry Hin.
    destruct c as [[cf mp nr lk] [dir fs h s sh] o a]. cbn in Hf, Hl. subst fs lk.
    cbn in Hin.
    destruct Hin as [<- | [<- | [<- | [<- | [<- | []]]]]];
      unfold interp; cbn; try (repeat split; reflexivity).
    + destruct sh; cbn; [repeat split; reflexivity |].
      destruct mp; cbn; repeat split; reflexivity.
    + destruct sh; cbn; [repeat split; reflexivity |].
      destruct mp; cbn; repeat split; reflexivity.
    + destruct cf; cbn; [| repeat split; reflexivity].
      destruct sh; cbn; repeat split; reflexivity.
  - intros Hl. destruct (files (self c)) as [| f0 fs] eqn:Ef.
    + exists []. rewrite interp_play_random_file_empty by exact Ef. cbn.
      split; [symmetry; apply app_nil_r | intros lo hi v []].
    + assert (Hne : files (self c) <> []) by (rewrite Ef; discriminate).
      destruct (play_random_file_trace d c Hl Hne) as (evs & Ht & Hno).
      eexists. split; [exact Ht |].
      intros lo hi v [Heq | Hin]; [| destruct (Hno _ _ _ Hin)].
      injection Heq as <- <- _. rewrite <- Ef.
      repeat split; try assumption. apply length_pos, Hne.
Qed.

Lemma play_random_file_guard_witness :
  let c := set_self demo (init_self "/music" []) in
  files (self c) = [] /\ interp (play_random_file 4) c = (Done tt, c).
Proof.
  split; [reflexivity |].
  exact (proj1 (@play_random_file_guard (set_self demo (init_self "/music" [])) 4) eq_refl).
Defined.

(** ** The finished signal *)

Lemma finished_writes_app l1 l2 :
  finished_writes (l1 ++ l2) = (finished_writes l1 + finished_writes l2)%nat.
Proof. unfold finished_writes. rewrite filter_app, length_app. reflexivity. Qed.

Lemma stopped_accesses c :
  exists new, accesses (stopped c) = accesses c ++ new /\ finished_writes new = 0%nat.
Proof.
  unfold stopped. destruct (mpv_process (state c)); cbn; eexists; split; reflexivity.
Qed.

Lemma launched_accesses cmds c :
  exists new,
    accesses (snd (launched cmds c)) = accesses c ++ new /\ finished_writes new = 0%nat.
Proof.
  revert c. induction cmds as [| cmd rest IH]; intros c; cbn.
  - exists []. split; [symmetry; apply app_nil_r | reflexivity].
  - destruct (path_lookup (os c) (hd ""%string cmd)); cbn.
    + eexists. split; reflexivity.
    + apply (IH (set_os c (emit (EvSpawnFailed cmd) (os c)))).
    + exists []. split; [symmetry; apply app_nil_r | reflexivity].
Qed.

Lemma play_file_accesses f c :
  lock (state c) = None ->
  exists new,
    accesses (snd (interp (play_file f) c)) = accesses c ++ new /\
    finished_writes new = 0%nat.
Proof.
  intros Hl. rewrite interp_play_file by exact Hl.
  destruct (stopped_accesses c) as (n1 & E1 & Z1).
  destruct (launched_accesses (players (filepath (directory (self c)) f)) (stopped c))
    as (n2 & E2 & Z2).
  exists (n1 ++ n2). split.
  - rewrite E2, E1, app_assoc. reflexivity.
  - rewrite finished_writes_app, Z1, Z2. reflexivity.
Qed.

Lemma play_random_file_accesses d c :
  lock (state c) = None ->
  exists new,
    accesses (snd (interp (play_random_file d) c)) = accesses c ++ new /\
    finished_writes new = 0%nat.
Proof.
  intros Hl. destruct (files (self c)) as [| f0 fs] eqn:Ef.
  - rewrite interp_play_random_file_empty by exact Ef.
    exists []. split; [symmetry; apply app_nil_r | reflexivity].
  - rewrite interp_play_random_file by (try rewrite Ef; easy). cbv zeta.
    destruct (py_index _ _) as [f |].
    + set (c1 := set_os c _).
      destruct (@play_file_accesses f c1 Hl) as (n & E & Z).
      destruct (interp (play_file f) c1) as [[b | e |] c2]; cbn [and_then snd] in *.
      * exists (n ++ [mkAccess Fg CRedraw Wr false]). split.
        -- unfold moved. cbn [accesses]. rewrite E, app_assoc. reflexivity.
        -- rewrite finished_writes_app, Z. reflexivity.
      * exists n. split; assumption.
      * exists n. split; assumption.
    + exists []. split; [symmetry; apply app_nil_r | reflexivity].
Qed.

Lemma interp_handle_finished d c :
  interp (handle_finished d) c =
  if child_finished (state c) then
    if shuffle_mode (self c) then interp (play_random_file d) (consumed c)
    else (Done tt, consumed c)
  else (Done tt, logged c [mkAccess Fg CFinished Rd (holds Fg (state c))]).
Proof.
  unfold handle_finished, interp. cbn [bind act interp_as exec].
  destruct (child_finished (state c)); [| reflexivity].
  cbn [bind act interp_as exec].
  change (self (set_state _ _)) with (self c).
  destruct (shuffle_mode (self c)).
  - unfold consumed. norm. reflexivity.
  - unfold consumed. norm. reflexivity.
Qed.

Lemma app_cons_not_self (A : Type) (l rest : list A) (x : A) : l <> l ++ x :: rest.
Proof.
  intros H. apply (f_equal (@List.length A)) in H.
  rewrite length_app in H. cbn in H. lia.
Qed.

(** C3.  The finished signal in one turn of the loop.  When
    [child_finished] is not set the handling only reads it.  When it is
    set, the handling writes it exactly once, to false, and neither the
    random play nor anything else in the handling writes it again; with
    shuffle on at that moment what follows is one [play_random_file], and
    with shuffle off the handling ends there, so that the world outside
    (no process started, none stopped), the session slot and the playlist
    attributes are unchanged.  With a non-empty library a random draw is
    made if and only if the signal was set and shuffle was on. *)
Theorem finished_signal (c : Config) (d : Z) :
  lock (state c) = None -> files (self c) <> [] ->
  let r := interp (handle_finished d) c in
  let c' := snd r in
  (child_finished (state c) = false ->
   r = (Done tt, logged c [mkAccess Fg CFinished Rd false])) /\
  (child_finished (state c) = true ->
   child_finished (state c') = false /\
   (exists new, accesses c' = accesses c ++ new /\ finished_writes new = 1%nat) /\
   (shuffle_mode (self c) = true -> r = interp (play_random_file d) (consumed c)) /\
   (shuffle_mode (self c) = false ->
    fst r = Done tt /\ os c' = os c /\ self c' = self c /\
    mpv_process (state c') = mpv_process (state c) /\
    needs_redraw (state c') = needs_redraw (state c))) /\
  ((exists lo hi v rest, trace (os c') = trace (os c) ++ EvRandInt lo hi v :: rest) <->
   child_finished (state c) = true /\ shuffle_mode (self c) = true).
Proof.
  intros Hl Hf. cbv zeta. rewrite interp_handle_finished.
  assert (Hh : holds Fg (state c) = false) by (unfold holds; rewrite Hl; reflexivity).
  assert (Hlc : lock (state (consumed c)) = None) by exact Hl.
  assert (Hfc : files (self (consumed c)) <> []) by exact Hf.
  destruct (child_finished (state c)) eqn:Ecf.
  - split; [discriminate |].
    destruct (shuffle_mode (self c)) eqn:Esh.
    + split.
      * intros _. split.
        { rewrite interp_play_random_file by assumption. cbv zeta.
          destruct (py_index _ _) as [f |]; [| reflexivity].
          set (c1 := set_os (consumed c) _).
          assert (Hl1 : lock (state c1) = None) by exact Hl.
          destruct (play_file_frame f c1 Hl1) as (_ & _ & _ & Hcf & _). cbv zeta in Hcf.
          destruct (interp (play_file f) c1) as [[b | e |] c2]; cbn [and_then snd] in *;
            exact Hcf. }
        split.
        { destruct (play_random_file_accesses d (consumed c) Hlc) as (n & E & Z).
          eexists. split.
          - rewrite E. unfold consumed. cbn [accesses]. rewrite <- app_assoc. reflexivity.
          - rewrite finished_writes_app, Z. reflexivity. }
        split; [reflexivity | discriminate].
      * split; [intros _; split; reflexivity |]. intros _.
        destruct (play_random_file_trace d (consumed c) Hlc Hfc) as (evs & Ht & _).
        eexists _, _, _, evs. exact Ht.
    + split.
      * intros _. cbn. split; [reflexivity |].
        split; [eexists; split; [reflexivity | reflexivity] |].
        split; [discriminate |]. intros _. repeat split; reflexivity.
      * split; [| intros [_ H]; discriminate].
        intros (lo & hi & v & rest & H). cbn in H.
        destruct (@app_cons_not_self _ _ _ _ H).
  - split; [intros _; rewrite Hh; reflexivity |].
    split; [discriminate |].
    split; [| intros [H _]; discriminate].
    intros (lo & hi & v & rest & H). cbn in H.
    destruct (@app_cons_not_self _ _ _ _ H).
Qed.

Lemma finished_signal_witness :
  lock (state demo_finished) = None /\ files (self demo_finished) <> [] /\
  child_finished (state demo_finished) = true /\
  child_finished (state (snd (interp (handle_finished 2) demo_finished))) = false.
Proof.
  assert (H1 : lock (state demo_finished) = None) by reflexivity.
  assert (H2 : files (self demo_finished) <> []) by discriminate.
  split; [exact H1 |]. split; [exact H2 |]. split; [reflexivity |].
  exact (proj1 (proj1 (proj2 (@finished_signal demo_finished 2 H1 H2)) eq_refl)).
Defined.

(** ** Shuffle *)

Lemma py_index_some (A : Type) (l : list A) (i : Z) :
  0 <= i < Z.of_nat (List.length l) ->
  exists x, py_index l i = Some x /\ nth_error l (Z.to_nat i) = Some x.
Proof.
  intros H. unfold py_index.
  destruct (Z.leb_spec 0 i); [| lia].
  destruct (Z.ltb_spec i (Z.of_nat (List.length l))); [| lia]. cbn.
  destruct (nth_error l (Z.to_nat i)) eqn:E; [eauto |].
  apply nth_error_None in E. lia.
Qed.

Lemma next_draw_in_range c :
  rng_ok (os c) -> files (self c) <> [] ->
  0 <= next_draw c < Z.of_nat (List.length (files (self c))).
Proof.
  intros Hr Hf. unfold next_draw.
  pose proof (length_pos Hf) as Hp.
  specialize (Hr (draws (os c)) 0 (Z.of_nat (List.length (files (self c))) - 1) Hp).
  lia.
Qed.

(** The [s] key that turns shuffle on while the slot is empty. *)
Lemma interp_toggle_on ch d c :
  ch = 115 \/ ch = 83 ->
  lock (state c) = None -> shuffle_mode (self c) = false ->
  mpv_process (state c) = None ->
  interp (handle_input ch d) c =
  and_then (interp (play_random_file d) (toggled_on c)) (fun _ c' => (Done false, c')).
Proof.
  intros Hch Hl Hs Hp.
  assert (E : handle_input ch d =
    (act (WriteRedraw true) ;;
     m <- act GetSelf ;;
     assign_shuffle_mode (negb (shuffle_mode m)) ;;
     m <- act GetSelf ;;
     (if shuffle_mode m then
        process <- get_process ;;
        match process with
        | None => play_random_file d
        | Some _ => Ret tt
        end
      else Ret tt) ;;
     Ret false)).
  { destruct Hch as [-> | ->]; reflexivity. }
  rewrite E. clear E.
  destruct c as [[cf mp nr lk] [dir fs h s sh] o a]. cbn in Hl, Hs, Hp. subst lk sh mp.
  rewrite interp_bind, interp_act. cbn [exec and_then].
  rewrite interp_bind, interp_act. cbn [exec and_then].
  rewrite interp_bind. unfold assign_shuffle_mode. rewrite interp_bind, !interp_act.
  cbn [exec and_then]. rewrite interp_act. cbn [exec and_then].
  rewrite interp_bind, interp_act. cbn [exec and_then].
  norm.
  rewrite !interp_bind, interp_get_process by reflexivity. cbn [and_then].
  norm.
  destruct (interp (play_random_file d) _) as [[[] | e |] c']; reflexivity.
Qed.

(** The loop over the three commands, by what the search for a player
    comes to. *)
Lemma launched_players path c :
  let r := launched (players path) c in
  match player_found (os c) with
  | Resolves =>
      fst r = Done true /\
      mpv_process (state (snd r)) = Some (next_pid (os c)) /\
      alive (os (snd r)) = next_pid (os c) :: alive (os c) /\
      exists cmd, In cmd (players path) /\
        In (EvSpawn cmd (next_pid (os c))) (trace (os (snd r)))
  | Missing =>
      fst r = Done false /\
      state (snd r) = state c /\
      alive (os (snd r)) = alive (os c) /\
      trace (os (snd r)) = trace (os c) ++ map EvSpawnFailed (players path)
  | Unusable => fst r = Raised OSError
  end.
Proof.
  unfold player_found, first_found, players, launched, spawn. cbn.
  destruct (path_lookup (os c) "mpv") eqn:E1; cbn.
  - repeat split. eexists. split; [left; reflexivity |].
    apply in_or_app. right. left. reflexivity.
  - destruct (path_lookup (os c) "mplayer") eqn:E2; cbn.
    + repeat split. eexists. split; [right; left; reflexivity |].
      apply in_or_app. right. left. reflexivity.
    + destruct (path_lookup (os c) "vlc") eqn:E3; cbn.
      * repeat split. eexists. split; [right; right; left; reflexivity |].
        apply in_or_app. right. left. reflexivity.
      * repeat split. rewrite <- !app_assoc. reflexivity.
      * reflexivity.
    + reflexivity.
  - reflexivity.
Qed.

Lemma play_random_file_shuffle d c :
  lock (state c) = None ->
  shuffle_mode (self (snd (interp (play_random_file d) c))) = shuffle_mode (self c).
Proof.
  intros Hl. destruct (files (self c)) as [| f0 fs] eqn:Ef.
  - rewrite interp_play_random_file_empty by exact Ef. reflexivity.
  - rewrite interp_play_random_file by (try rewrite Ef; easy). cbv zeta.
    destruct (py_index _ _) as [f |]; [| reflexivity].
    set (c1 := set_os c _).
    destruct (@play_file_frame f c1 Hl) as (_ & Hs & _). cbv zeta in Hs.
    destruct (interp (play_file f) c1) as [[b | e |] c2]; cbn [and_then snd] in *;
      try (unfold moved; cbn); rewrite Hs; reflexivity.
Qed.

(** C7, as the code has it.  For a non-empty library the [s] (or [S]) key
    flips the shuffle flag.  When that turns the flag on while the session
    slot is empty, an index into the library is drawn, and what follows
    goes by the first of mpv, mplayer and vlc that is found.  If that
    player can be launched, the key handler returns with a new process in
    the slot, running, launched with one of the three commands for the
    file at the drawn index, and the highlight is the drawn index.  If no
    player is found, the handler returns just the same and the highlight
    is the drawn index, but the slot stays empty and no process has been
    started.  If the player found cannot be executed, its error escapes
    the handler before the highlight is set: the highlight is as before,
    the slot stays empty and no process has been started, whether or not
    a later candidate could have been launched. *)
Theorem toggle_shuffle_plays (c : Config) (d ch : Z) :
  ch = 115 \/ ch = 83 ->
  lock (state c) = None -> files (self c) <> [] -> rng_ok (os c) ->
  let r := interp (handle_input ch d) c in
  let c' := snd r in
  let i := next_draw c in
  shuffle_mode (self c') = negb (shuffle_mode (self c)) /\
  (shuffle_mode (self c) = false -> mpv_process (state c) = None ->
   exists f,
     0 <= i < Z.of_nat (List.length (files (self c))) /\
     nth_error (files (self c)) (Z.to_nat i) = Some f /\
     (player_found (os c) = Resolves ->
      fst r = Done false /\
      highlight (self c') = i /\
      mpv_process (state c') = Some (next_pid (os c)) /\
      alive (os c') = next_pid (os c) :: alive (os c) /\
      exists cmd,
        In cmd (players (filepath (directory (self c)) f)) /\
        In (EvSpawn cmd (next_pid (os c))) (trace (os c'))) /\
     (player_found (os c) = Missing ->
      fst r = Done false /\
      highlight (self c') = i /\
      mpv_process (state c') = None /\
      alive (os c') = alive (os c) /\
      trace (os c') =
        trace (os c) ++
        EvRandInt 0 (Z.of_nat (List.length (files (self c))) - 1) i ::
        map EvSpawnFailed (players (filepath (directory (self c)) f))) /\
     (player_found (os c) = Unusable ->
      fst r = Raised OSError /\
      highlight (self c') = highlight (self c) /\
      mpv_process (state c') = None /\
      alive (os c') = alive (os c))).
Proof.
  intros Hch Hl Hf Hr. cbv zeta. split.
  - destruct (shuffle_mode (self c)) eqn:Es.
    + destruct c as [[cf mp nr lk] [dir fs h s sh] o a]. cbn in Hl, Es. subst lk sh.
      destruct Hch as [-> | ->]; reflexivity.
    + destruct (mpv_process (state c)) as [p |] eqn:Ep.
      * destruct c as [[cf mp nr lk] [dir fs h s sh] o a]. cbn in Hl, Es, Ep. subst lk sh mp.
        destruct Hch as [-> | ->]; reflexivity.
      * rewrite interp_toggle_on by assumption.
        pose proof (@play_random_file_shuffle d (toggled_on c) Hl) as Hsh.
        destruct (interp (play_random_file d) (toggled_on c)) as [[[] | e |] c'];
          exact Hsh.
  - intros Es Ep.
    destruct (@py_index_some _ (files (self c)) (next_draw c)
                (@next_draw_in_range c Hr Hf))
      as (f & Hidx & Hnth).
    exists f. split; [apply next_draw_in_range; assumption |].
    split; [exact Hnth |].
    rewrite interp_toggle_on by assumption.
    rewrite interp_play_random_file by assumption. cbv zeta.
    change (next_draw (toggled_on c)) with (next_draw c).
    change (files (self (toggled_on c))) with (files (self c)).
    rewrite Hidx.
    set (c1 := set_os (toggled_on c) _).
    assert (Hl1 : lock (state c1) = None) by exact Hl.
    rewrite interp_play_file by exact Hl1.
    assert (Hst : stopped c1 = logged c1 [mkAccess Fg CProcess Rd true]).
    { unfold stopped. change (mpv_process (state c1)) with (mpv_process (state c)).
      rewrite Ep. reflexivity. }
    rewrite Hst.
    change (directory (self c1)) with (directory (self c)).
    pose proof (launched_players (filepath (directory (self c)) f)
                  (logged c1 [mkAccess Fg CProcess Rd true])) as Hlaunch.
    cbv zeta in Hlaunch.
    change (player_found (os (logged c1 [mkAccess Fg CProcess Rd true])))
      with (player_found (os c)) in Hlaunch.
    pose proof (launched_outcome (players (filepath (directory (self c)) f))
                  (logged c1 [mkAccess Fg CProcess Rd true])) as Hout.
    pose proof (launched_frame (players (filepath (directory (self c)) f))
                  (logged c1 [mkAccess Fg CProcess Rd true])) as Hframe.
    cbv zeta in Hout, Hframe.
    destruct (launched _ _) as [out c2]. cbn [fst snd] in Hlaunch, Hout, Hframe.
    split; [| split].
    + intros Hfound. rewrite Hfound in Hlaunch.
      destruct Hlaunch as (-> & Hp & Ha & cmd & Hin & Hev).
      cbn [and_then fst snd]. cbn in Hp, Ha.
      repeat split; try assumption.
      exists cmd. split; assumption.
    + intros Hfound. rewrite Hfound in Hlaunch.
      destruct Hlaunch as (-> & Hs2 & Ha & Ht).
      cbn [and_then fst snd]. cbn in Hs2, Ha, Ht.
      repeat split; try assumption.
      * cbn. rewrite Hs2. exact Ep.
      * cbn. rewrite Ht, <- app_assoc. reflexivity.
    + intros Hfound. rewrite Hfound in Hlaunch. subst out.
      destruct Hframe as (Hself & _).
      destruct Hout as [(Hd & _) | (_ & Hs2 & Ha & _)]; [discriminate |].
      cbn [and_then fst snd].
      split; [reflexivity |]. split; [rewrite Hself; reflexivity |].
      split; [rewrite Hs2; exact Ep | exact Ha].
Qed.

Lemma toggle_shuffle_plays_witness :
  (115 = 115 \/ 115 = 83) /\ lock (state demo) = None /\
  files (self demo) <> [] /\ rng_ok (os demo) /\
  shuffle_mode (self demo) = false /\ mpv_process (state demo) = None /\
  player_found (os demo) = Resolves /\
  let c' := snd (interp (handle_input 115 2) demo) in
  shuffle_mode (self c') = true /\ highlight (self c') = 0 /\
  mpv_process (state c') = Some 0%nat.
Proof.
  assert (H1 : 115 = 115 \/ 115 = 83) by (left; reflexivity).
  assert (H2 : lock (state demo) = None) by reflexivity.
  assert (H3 : files (self demo) <> []) by discriminate.
  assert (H4 : rng_ok (os demo)) by (intros k lo hi H; cbn; lia).
  do 7 (split; [first [assumption | reflexivity] |]).
  destruct (@toggle_shuffle_plays demo 2 115 H1 H2 H3 H4) as [Hflip Hplay].
  destruct (Hplay eq_refl eq_refl) as (f & _ & _ & Hres & _).
  destruct (Hres eq_refl) as (_ & Hh & Hp & _).
  split; [exact Hflip |]. split; [exact Hh | exact Hp].
Defined.

(** The third outcome of C7 on a machine where mpv is found but cannot be
    executed: the flag is on, the drawn index is 0, the highlight is still
    1 and nothing plays, though mplayer could have been launched. *)
Lemma toggle_shuffle_unusable_player :
  player_found (os demo_unusable) = Unusable /\
  path_lookup (os demo_unusable) "mplayer" = Resolves /\
  next_draw demo_unusable = 0 /\
  interp (handle_input 115 2) demo_unusable =
    (Raised OSError,
     mkConfig (mkPlayerState false None true None)
              (mkMediaPlayer "/music" abc 1 0 true)
              (mkOS [] 0%nat (path_lookup (os demo_unusable)) (fun _ => true)
                    (rng (os demo_unusable)) 1%nat
                    [EvRandInt 0 2 0;
                     EvSpawnFailed ["mpv"; "--no-terminal"; "--quiet";
                                    "/music/a.mp3"]%string])
              (accesses (snd (interp (handle_input 115 2) demo_unusable)))).
Proof. vm_compute. repeat split; reflexivity. Qed.

(** C7, as the claim has it, fails where no player is installed: the [s]
    key turns shuffle on over an empty slot and a non-empty library, and
    no playback starts. *)
Lemma toggle_shuffle_without_player :
  files (self demo_bare) <> [] /\ ~ toggle_starts_playback demo_bare 2.
Proof.
  split; [discriminate |].
  intros [_ H]. destruct (H eq_refl eq_refl) as (p & f & cmd & Hp & _).
  vm_compute in Hp. discriminate.
Qed.

(** ** One session, all along the loop *)

Lemma keeps_ret (A : Type) (a : A) : keeps (Ret a).
Proof. intros c H. exact H. Qed.

Lemma keeps_raise (A : Type) (e : exn) : keeps (@Raise A e).
Proof. intros c H. exact H. Qed.

Lemma keeps_bind (A B : Type) (p : prog A) (f : A -> prog B) :
  keeps p -> (forall a, keeps (f a)) -> keeps (bind p f).
Proof.
  intros Hp Hf c Hc. rewrite interp_bind.
  specialize (Hp c Hc).
  destruct (interp p c) as [[a | e |] c']; cbn [and_then snd] in *;
    [apply Hf; exact Hp | exact Hp | exact Hp].
Qed.

Lemma keeps_act (R : Type) (o : action R) : quiet o = true -> keeps (act o).
Proof.
  intros Hq c [Hl H1]. rewrite interp_act. unfold safe, one_session in *.
  destruct o; try discriminate; cbn; try (split; assumption).
  - (* Terminate *)
    split; [exact Hl |].
    destruct (heeds_term (os c) p); cbn; [| exact H1].
    destruct (alive (os c)) as [| q [| q' l]]; cbn; [trivial | | contradiction].
    destruct (Nat.eqb p q); cbn; trivial.
  - (* Kill *)
    split; [exact Hl |].
    destruct (alive (os c)) as [| q [| q' l]]; cbn; [trivial | | contradiction].
    destruct (Nat.eqb p q); cbn; trivial.
Qed.

Lemma keeps_get_process : keeps get_process.
Proof.
  intros c [Hl H1]. rewrite interp_get_process by exact Hl. split; assumption.
Qed.

Lemma keeps_stop_playback : keeps stop_playback.
Proof.
  intros c [Hl H1]. rewrite interp_stop_playback by exact Hl. cbn [snd]. split.
  - apply lock_stopped, Hl.
  - unfold one_session. rewrite alive_stopped by exact H1. exact I.
Qed.

Lemma keeps_play_file f : keeps (play_file f).
Proof.
  intros c [Hl H1].
  destruct (play_file_spec f c Hl H1) as (Hl' & _ & _ & [(_ & A & B & _) | (_ & _ & B)]);
    (split; [exact Hl' |]).
  - exact (one_session_of_spec _ B A).
  - unfold one_session. rewrite B. exact I.
Qed.

Create HintDb keeps.
#[local] Hint Resolve keeps_ret keeps_raise keeps_get_process keeps_stop_playback
  keeps_play_file : keeps.

Ltac keeps_step :=
  match goal with
  | |- keeps (bind _ _) => apply keeps_bind; [| intros ?]
  | |- keeps (act _) => apply keeps_act; reflexivity
  | |- keeps (if ?b then _ else _) => destruct b
  | |- keeps (match ?x with _ => _ end) => destruct x
  | |- keeps _ => solve [auto with keeps]
  end.

Lemma keeps_update_scroll d : keeps (update_scroll d).
Proof. unfold update_scroll, assign_start_index. repeat keeps_step. Qed.

Lemma keeps_play_random_file d : keeps (play_random_file d).
Proof.
  unfold play_random_file, index, assign_highlight.
  repeat keeps_step; apply keeps_update_scroll.
Qed.

Lemma keeps_draw_interface : keeps draw_interface.
Proof. unfold draw_interface. repeat keeps_step. Qed.

Lemma keeps_handle_finished d : keeps (handle_finished d).
Proof.
  unfold handle_finished. repeat keeps_step; apply keeps_play_random_file.
Qed.

Lemma keeps_handle_input ch d : keeps (handle_input ch d).
Proof.
  unfold handle_input, assign_highlight, assign_start_index, assign_shuffle_mode, index.
  repeat keeps_step;
    first [apply keeps_update_scroll | apply keeps_play_random_file].
Qed.

Lemma keeps_loop_body term_y ch : keeps (loop_body term_y ch).
Proof.
  unfold loop_body. cbv zeta.
  repeat keeps_step;
    first [apply keeps_draw_interface | apply keeps_handle_finished
          | apply keeps_handle_input].
Qed.

(** However long the loop runs and whatever the keys, the main thread on
    its own never has two children, and the one it has is in the slot. *)
Lemma keeps_event_loop inputs : keeps (event_loop inputs).
Proof.
  induction inputs as [| [term_y ch] rest IH]; cbn [event_loop].
  - apply keeps_ret.
  - apply keeps_bind; [apply keeps_loop_body |].
    intros []; [apply keeps_stop_playback | exact IH].
Qed.

Lemma event_loop_one_session dir fs o inputs :
  alive o = [] ->
  let c := snd (interp (event_loop inputs) (mkConfig init_state (init_self dir fs) o [])) in
  (List.length (alive (os c)) <= 1)%nat /\ one_session c.
Proof.
  intros Ha.
  destruct (@keeps_event_loop inputs (mkConfig init_state (init_self dir fs) o []))
    as [_ H].
  { split; [reflexivity |]. unfold one_session. cbn. rewrite Ha. exact I. }
  cbv zeta. split; [| exact H].
  unfold one_session in H.
  destruct (alive (os _)) as [| q [| q' l]]; cbn; [lia | lia | contradiction].
Qed.

(** ** The redraw flag *)

(** A key without a branch: whatever the redraw flag was, it is cleared,
    and nothing is drawn. *)
Lemma unbound_key_clears_redraw ch d c :
  ch <> ERR -> bound_key ch = false ->
  interp (handle_input ch d) c =
  (Done false,
   mkConfig (with_redraw (state c) false) (self c) (os c)
            (accesses c ++ [mkAccess Fg CRedraw Wr (holds Fg (state c));
                            mkAccess Fg CRedraw Wr (holds Fg (state c))])).
Proof.
  intros He Hb. unfold bound_key in Hb.
  repeat (apply orb_false_iff in Hb; destruct Hb as [Hb ?]).
  unfold handle_input.
  destruct (Z.eqb_spec ch ERR) as [E | _]; [contradiction |].
  repeat match goal with
         | H : (ch =? _) = false |- _ => rewrite H; clear H
         end.
  cbn [orb]. rewrite interp_bind, interp_act. cbn [exec and_then].
  rewrite interp_bind, interp_act. cbn [exec and_then].
  destruct c as [[cf mp nr lk] m o a]. norm. reflexivity.
Qed.

(** C8 fails on the code.  In one turn of the loop the screen is drawn, a
    finished child is noticed with shuffle on, so that another file is
    played, the highlight moves and the redraw flag is set; the key read
    in the same turn is bound to nothing, and its handling clears the flag
    without a frame having been drawn.  The two idle turns that follow
    draw nothing: the only frame is the one from before, with the old
    highlight and no playback, while the highlight is 0 and process 0 is
    playing. *)
Theorem unknown_key_drops_pending_redraw :
  let c1 := snd (interp (draw_interface ;; handle_finished 7) demo_pending) in
  let c2 := snd (interp (handle_input 120 7) c1) in
  let r := interp (event_loop [(20, 120); (20, ERR); (20, ERR)]) demo_pending in
  needs_redraw (state c1) = true /\
  needs_redraw (state c2) = false /\
  trace (os c2) = trace (os c1) /\
  fst r = Done tt /\
  needs_redraw (state (snd r)) = false /\
  highlight (self (snd r)) = 0 /\
  mpv_process (state (snd r)) = Some 0%nat /\
  alive (os (snd r)) = [0%nat] /\
  renders (trace (os (snd r))) =
    [EvRender (mkMediaPlayer "/music" abc 2 1 true) false].
Proof. vm_compute. repeat split; reflexivity. Qed.

(** ** The two threads together *)

(** A thread stepped on its own arrives where [interp_as] says. *)
Lemma steps_interp_as t (A : Type) (p : prog A) c :
  exists n,
    interp_as t p c = (result_of (fst (steps n t p c)), snd (steps n t p c)).
Proof.
  revert c. induction p as [a | e | R o k IH]; intros c.
  - exists 0%nat. reflexivity.
  - exists 0%nat. reflexivity.
  - destruct (exec t o c) as [[r c'] |] eqn:E.
    + destruct (IH r c') as (n & Hn). exists (S n).
      cbn [steps step_prog interp_as]. rewrite E. exact Hn.
    + exists 0%nat. cbn [steps interp_as result_of fst snd]. rewrite E. reflexivity.
Qed.

(** C9 fails on the code.  The monitor reads the slot (process 0) under
    the lock and lets the lock go (3 operations).  The main thread runs a
    turn of its loop with the Enter key (22 operations): it stops process
    0, launches process 1 and records it.  The monitor goes on (6
    operations): the process it had read has exited, so it clears the
    slot and raises the two flags; the slot is now empty while process 1
    runs.  In the next turn, again with Enter, nothing is stopped and
    process 2 is launched beside process 1.  On the way both threads have
    written [child_finished] and [needs_redraw], and the main thread has
    read them, without holding the lock. *)
Theorem monitor_clear_loses_session :
  let s0 := schedule (repeat Mon 3 ++ repeat Fg 22) (demo_threads, demo_playing) in
  let s1 := schedule (repeat Mon 6) s0 in
  let s2 := schedule (repeat Mon 1 ++ repeat Fg 40) s1 in
  mpv_process (state (snd s0)) = Some 1%nat /\ alive (os (snd s0)) = [1%nat] /\
  mpv_process (state (snd s1)) = None /\ alive (os (snd s1)) = [1%nat] /\
  ~ one_session (snd s1) /\
  child_finished (state (snd s1)) = true /\
  main_prog (fst s2) = Ret tt /\
  mpv_process (state (snd s2)) = Some 2%nat /\
  alive (os (snd s2)) = [2%nat; 1%nat] /\
  In (mkAccess Mon CFinished Wr false) (accesses (snd s2)) /\
  In (mkAccess Mon CRedraw Wr false) (accesses (snd s2)) /\
  In (mkAccess Fg CFinished Rd false) (accesses (snd s2)) /\
  In (mkAccess Fg CFinished Wr false) (accesses (snd s2)) /\
  In (mkAccess Fg CRedraw Rd false) (accesses (snd s2)) /\
  In (mkAccess Fg CRedraw Wr false) (accesses (snd s2)).
Proof. vm_compute. repeat split; try tauto; discriminate. Qed.

(** * Further properties *)

(** ** The monitor *)

(** X1.  One turn of the monitor, run without interference.  It returns
    with the lock free and touches nothing outside [PlayerState].  When
    the slot holds a process that has exited, it empties the slot and sets
    [child_finished] and [needs_redraw].  When the slot holds a running
    process, or is empty, [PlayerState] is as before: no signal is raised
    for a process that still runs, nor where none was recorded. *)
Theorem monitor_tick_signal (c : Config) :
  lock (state c) = None ->
  let r := interp_as Mon monitor_tick c in
  fst r = Done tt /\
  self (snd r) = self c /\ os (snd r) = os c /\
  match mpv_process (state c) with
  | Some p =>
      if is_alive p (os c) then state (snd r) = state c
      else state (snd r) = mkPlayerState true None true None
  | None => state (snd r) = state c
  end.
Proof.
  destruct c as [[cf mp nr lk] m o a]. cbn [state lock]. intros ->.
  unfold monitor_tick. cbn.
  destruct mp as [p |]; cbn; [| repeat split; reflexivity].
  destruct (is_alive p o); cbn; repeat split; reflexivity.
Qed.

Lemma monitor_tick_signal_witness :
  let c := mkConfig (mkPlayerState false (Some 0%nat) false None)
                    (init_self "/music" abc) demo_os [] in
  lock (state c) = None /\
  state (snd (interp_as Mon monitor_tick c)) = mkPlayerState true None true None.
Proof.
  split; [reflexivity |].
  exact (proj2 (proj2 (proj2
    (@monitor_tick_signal
       (mkConfig (mkPlayerState false (Some 0%nat) false None)
                 (init_self "/music" abc) demo_os []) eq_refl)))).
Defined.

(** ** What the calls leave alone *)

Lemma rng_stopped c : rng (os (stopped c)) = rng (os c).
Proof.
  unfold stopped. destruct (mpv_process (state c)); cbn; [apply rest_halt | reflexivity].
Qed.

Lemma play_file_outcome f c :
  lock (state c) = None ->
  let r := interp (play_file f) c in
  (exists b, fst r = Done b) \/ fst r = Raised OSError.
Proof.
  intros Hl. cbv zeta. rewrite interp_play_file by exact Hl.
  destruct (launched_outcome (players (filepath (directory (self c)) f)) (stopped c))
    as [(R & _) | ([[R _] | [R _]] & _)]; rewrite R; eauto.
Qed.

Lemma play_file_rng f c :
  lock (state c) = None ->
  rng (os (snd (interp (play_file f) c))) = rng (os c).
Proof.
  intros Hl. rewrite interp_play_file by exact Hl.
  destruct (launched_frame (players (filepath (directory (self c)) f)) (stopped c))
    as (_ & _ & _ & _ & _ & Hr & _).
  cbv zeta in Hr. rewrite Hr. apply rng_stopped.
Qed.

Lemma needs_redraw_launched cmds c :
  needs_redraw (state c) = true ->
  needs_redraw (state (snd (launched cmds c))) = true.
Proof.
  revert c. induction cmds as [| cmd rest IH]; intros c H; cbn; [exact H |].
  destruct (path_lookup (os c) (hd ""%string cmd)); cbn;
    [reflexivity | apply IH; exact H | exact H].
Qed.

Lemma play_file_redraw f c :
  lock (state c) = None -> needs_redraw (state c) = true ->
  needs_redraw (state (snd (interp (play_file f) c))) = true.
Proof.
  intros Hl H. rewrite interp_play_file by exact Hl.
  apply needs_redraw_launched. unfold stopped.
  destruct (mpv_process (state c)); cbn; [reflexivity | exact H].
Qed.

(** [play_random_file] on a library that is not empty, with a [randint]
    that keeps to its bounds: either it returns, with the highlight on the
    drawn index and the window scrolled to it, or a player that cannot be
    executed ends it before the highlight is touched. *)
Lemma play_random_file_post d c :
  lock (state c) = None -> rng_ok (os c) -> files (self c) <> [] ->
  let r := interp (play_random_file d) c in
  lock (state (snd r)) = None /\
  rng (os (snd r)) = rng (os c) /\
  (fst r = Done tt /\
   needs_redraw (state (snd r)) = true /\
   self (snd r) =
     with_start_index (with_highlight (self c) (next_draw c))
       (scroll_target (start_index (self c)) (next_draw c) d) \/
   fst r = Raised OSError /\ self (snd r) = self c /\
   (needs_redraw (state c) = true -> needs_redraw (state (snd r)) = true)).
Proof.
  intros Hl Hr Hf. cbv zeta. rewrite interp_play_random_file by assumption. cbv zeta.
  destruct (@py_index_some _ (files (self c)) (next_draw c)
              (@next_draw_in_range c Hr Hf)) as (f & Hidx & _).
  rewrite Hidx.
  set (c1 := set_os c _).
  assert (Hl1 : lock (state c1) = None) by exact Hl.
  destruct (@play_file_frame f c1 Hl1) as (_ & Hs & Hl2 & _).
  pose proof (@play_file_outcome f c1 Hl1) as Ho.
  pose proof (@play_file_rng f c1 Hl1) as Hg.
  pose proof (@play_file_redraw f c1 Hl1) as Hd.
  cbv zeta in *.
  destruct (interp (play_file f) c1) as [[b | e |] c2]; cbn [and_then fst snd] in *.
  - split; [exact Hl2 |]. split; [exact Hg |]. left.
    split; [reflexivity |]. split; [reflexivity |].
    unfold moved. cbn [self]. rewrite Hs. reflexivity.
  - split; [exact Hl2 |]. split; [exact Hg |]. right.
    destruct Ho as [[b Hb] | Hb]; [discriminate |].
    injection Hb as ->.
    split; [reflexivity |]. split; [exact Hs | exact Hd].
  - destruct Ho as [[b Hb] | Hb]; discriminate.
Qed.

(** ** The branches of the key dispatch *)

Lemma key_cases ch :
  ch = ERR \/ (exists k, ch = nav_code k) \/ (ch = 10 \/ ch = 13) \/ ch = 32 \/
  (ch = 115 \/ ch = 83) \/ (ch = 114 \/ ch = 82) \/ quit_key ch = true \/
  (ch <> ERR /\ bound_key ch = false).
Proof.
  destruct (Z.eqb_spec ch ERR) as [-> | N0]; [tauto |]. right.
  destruct (Z.eqb_spec ch KEY_UP) as [-> | N1]; [left; exists NavUp; reflexivity |].
  destruct (Z.eqb_spec ch KEY_DOWN) as [-> | N2]; [left; exists NavDown; reflexivity |].
  destruct (Z.eqb_spec ch KEY_PPAGE) as [-> | N3]; [left; exists NavPageUp; reflexivity |].
  destruct (Z.eqb_spec ch KEY_NPAGE) as [-> | N4];
    [left; exists NavPageDown; reflexivity |].
  destruct (Z.eqb_spec ch KEY_HOME) as [-> | N5]; [left; exists NavHome; reflexivity |].
  destruct (Z.eqb_spec ch KEY_END) as [-> | N6]; [left; exists NavEnd; reflexivity |].
  right.
  destruct (Z.eqb_spec ch 10) as [-> | N7]; [tauto |].
  destruct (Z.eqb_spec ch 13) as [-> | N8]; [tauto |].
  destruct (Z.eqb_spec ch 32) as [-> | N9]; [tauto |].
  destruct (Z.eqb_spec ch 115) as [-> | N10]; [tauto |].
  destruct (Z.eqb_spec ch 83) as [-> | N11]; [tauto |].
  destruct (Z.eqb_spec ch 114) as [-> | N12]; [tauto |].
  destruct (Z.eqb_spec ch 82) as [-> | N13]; [tauto |].
  destruct (Z.eqb_spec ch 113) as [-> | N14]; [do 4 right; left; reflexivity |].
  destruct (Z.eqb_spec ch 81) as [-> | N15]; [do 4 right; left; reflexivity |].
  destruct (Z.eqb_spec ch 27) as [-> | N16]; [do 4 right; left; reflexivity |].
  do 5 right. split; [exact N0 |]. unfold bound_key.
  repeat match goal with
         | H : ch <> ?k |- _ => apply Z.eqb_neq in H; rewrite H; clear H
         end.
  reflexivity.
Qed.

Lemma interp_key_none d c : interp (handle_input ERR d) c = (Done false, c).
Proof. reflexivity. Qed.

Lemma interp_key_quit ch d c :
  quit_key ch = true -> interp (handle_input ch d) c = (Done true, keyed c).
Proof.
  unfold quit_key. intros H.
  assert (E : ch = 113 \/ ch = 81 \/ ch = 27).
  { apply orb_true_iff in H. destruct H as [H | H];
      [apply orb_true_iff in H; destruct H as [H | H] |];
      apply Z.eqb_eq in H; tauto. }
  destruct E as [-> | [-> | ->]]; reflexivity.
Qed.

Lemma interp_key_space d c :
  interp (handle_input 32 d) c =
  and_then (interp stop_playback (keyed c)) (fun _ c' => (Done false, c')).
Proof.
  change (handle_input 32 d) with (act (WriteRedraw true) ;; stop_playback ;; Ret false).
  rewrite interp_bind, interp_act. cbn [exec and_then].
  rewrite interp_bind.
  change (set_state (note Fg CRedraw Wr c)
                    (with_redraw (state (note Fg CRedraw Wr c)) true))
    with (keyed c).
  destruct (interp stop_playback (keyed c)) as [[[] | e |] c']; reflexivity.
Qed.

Lemma interp_key_random ch d c :
  ch = 114 \/ ch = 82 ->
  interp (handle_input ch d) c =
  and_then (interp (play_random_file d) (keyed c)) (fun _ c' => (Done false, c')).
Proof.
  intros Hch.
  assert (E : handle_input ch d =
              (act (WriteRedraw true) ;; play_random_file d ;; Ret false))
    by (destruct Hch as [-> | ->]; reflexivity).
  rewrite E, interp_bind, interp_act. cbn [exec and_then].
  rewrite interp_bind.
  change (set_state (note Fg CRedraw Wr c)
                    (with_redraw (state (note Fg CRedraw Wr c)) true))
    with (keyed c).
  destruct (interp (play_random_file d) (keyed c)) as [[[] | e |] c']; reflexivity.
Qed.

Lemma interp_key_enter ch d c f :
  ch = 10 \/ ch = 13 ->
  files (self c) <> [] ->
  py_index (files (self c)) (highlight (self c)) = Some f ->
  interp (handle_input ch d) c =
  and_then (interp (play_file f)
              (set_self (keyed c) (with_shuffle_mode (self c) false)))
           (fun _ c' => (Done false, c')).
Proof.
  intros Hch Hf Hi.
  assert (E : handle_input ch d =
    (act (WriteRedraw true) ;;
     assign_shuffle_mode false ;;
     m <- act GetSelf ;;
     match files m with
     | [] => Ret false
     | _ :: _ =>
         filename <- index (files m) (highlight m) ;;
         play_file filename ;;
         Ret false
     end))
    by (destruct Hch as [-> | ->]; reflexivity).
  rewrite E. clear E.
  rewrite interp_bind, interp_act. cbn [exec and_then].
  rewrite interp_bind. unfold assign_shuffle_mode.
  rewrite interp_bind, !interp_act. cbn [exec and_then].
  rewrite interp_act. cbn [exec and_then].
  rewrite interp_bind, interp_act. cbn [exec and_then].
  change (set_state (note Fg CRedraw Wr c)
                    (with_redraw (state (note Fg CRedraw Wr c)) true))
    with (keyed c).
  change (self (set_self (keyed c) (with_shuffle_mode (self (keyed c)) false)))
    with (with_shuffle_mode (self c) false).
  change (files (with_shuffle_mode (self c) false)) with (files (self c)).
  change (highlight (with_shuffle_mode (self c) false)) with (highlight (self c)).
  change (self (keyed c)) with (self c).
  destruct (files (self c)) as [| f0 fs] eqn:Ef; [congruence |].
  unfold index. rewrite Hi. cbn [bind]. rewrite interp_bind.
  destruct (interp (play_file f) _) as [[b | e |] c']; reflexivity.
Qed.

Lemma interp_key_toggle ch d c :
  ch = 115 \/ ch = 83 -> lock (state c) = None ->
  interp (handle_input ch d) c =
  if shuffle_mode (self c) then
    (Done false, set_self (keyed c) (with_shuffle_mode (self c) false))
  else
    match mpv_process (state c) with
    | Some _ =>
        (Done false,
         logged (set_self (keyed c) (with_shuffle_mode (self c) true))
                [mkAccess Fg CProcess Rd true])
    | None =>
        and_then (interp (play_random_file d) (toggled_on c))
                 (fun _ c' => (Done false, c'))
    end.
Proof.
  intros Hch Hl.
  destruct (shuffle_mode (self c)) eqn:Es.
  - destruct c as [[cf mp nr lk] [dir fs h s sh] o a]. cbn in Hl, Es. subst lk sh.
    destruct Hch as [-> | ->]; reflexivity.
  - destruct (mpv_process (state c)) as [p |] eqn:Ep.
    + destruct c as [[cf mp nr lk] [dir fs h s sh] o a]. cbn in Hl, Es, Ep. subst lk sh mp.
      destruct Hch as [-> | ->]; reflexivity.
    + apply interp_toggle_on; assumption.
Qed.

(** A navigation key, with the highlight on a file of the library. *)
Lemma nav_step_in_library (k : nav) d c :
  1 <= d -> in_library (self c) ->
  exists h s,
    interp (handle_input (nav_code k) d) c =
    (Done false,
     mkConfig (with_redraw (state c) true)
              (with_start_index (with_highlight (self c) h) s)
              (os c)
              (accesses c ++ [mkAccess Fg CRedraw Wr (holds Fg (state c))])) /\
    0 <= h < Z.of_nat (List.length (files (self c))) /\
    (viewport_ok d (self c) -> 0 <= s /\ s <= h < s + d).
Proof.
  intros Hd [Hi0 Hi1]. unfold viewport_ok.
  destruct c as [st [dir fs h s sh] o a]; cbn in *.
  destruct k; unfold handle_input, interp; cbn;
    repeat (split_if; cbn); z_facts;
    (eexists _, _; split; [reflexivity | lia]).
Qed.

Lemma quit_key_unbound ch : bound_key ch = false -> quit_key ch = false.
Proof.
  unfold bound_key, quit_key. intros H.
  repeat (apply orb_false_iff in H; destruct H as [H ?]).
  repeat match goal with
         | E : (ch =? _) = false |- _ => rewrite E; clear E
         end.
  reflexivity.
Qed.

Lemma in_library_nonempty m : in_library m -> files m <> [].
Proof.
  unfold in_library. destruct (files m); [cbn; lia | discriminate].
Qed.

(** What any key leaves: the answer is whether it is a quit key, the one
    exception possible is the error of a player that cannot be executed,
    the highlight stays on a file of the library and inside the window,
    and a key with a branch leaves the redraw flag set. *)
Lemma handle_input_post ch d c :
  1 <= d -> lock (state c) = None -> rng_ok (os c) -> in_library (self c) ->
  let r := interp (handle_input ch d) c in
  (fst r = Done (quit_key ch) \/ fst r = Raised OSError) /\
  lock (state (snd r)) = None /\ rng (os (snd r)) = rng (os c) /\
  files (self (snd r)) = files (self c) /\
  in_library (self (snd r)) /\
  (viewport_ok d (self c) -> viewport_ok d (self (snd r))) /\
  (bound_key ch = true -> needs_redraw (state (snd r)) = true).
Proof.
  intros Hd Hl Hr Hin. cbv zeta.
  pose proof (@in_library_nonempty (self c) Hin) as Hf.
  assert (Hh : holds Fg (state c) = false) by (unfold holds; rewrite Hl; reflexivity).
  destruct (key_cases ch)
    as [-> | [[k ->] | [He | [-> | [Ht | [Hx | [Hq | [Hn Hb]]]]]]]].
  - (* no key *)
    rewrite interp_key_none. cbn [fst snd].
    split; [left; reflexivity |]. split; [exact Hl |].
    split; [reflexivity |]. split; [reflexivity |]. split; [exact Hin |].
    split; [tauto |]. intros H. vm_compute in H. discriminate.
  - (* navigation *)
    destruct (@nav_step_in_library k d c Hd Hin) as (h & s & -> & Hlen & Hw).
    cbn [fst snd state self os lock with_redraw needs_redraw].
    split; [left; destruct k; reflexivity |].
    split; [exact Hl |]. split; [reflexivity |]. split; [reflexivity |].
    split; [unfold in_library; cbn; lia |].
    split; [| reflexivity].
    intros Hv. specialize (Hw Hv). unfold viewport_ok. cbn. lia.
  - (* Enter *)
    destruct (@py_index_some _ (files (self c)) (highlight (self c)) Hin)
      as (f & Hidx & _).
    rewrite (@interp_key_enter ch d c f He Hf Hidx).
    set (c1 := set_self (keyed c) (with_shuffle_mode (self c) false)).
    assert (Hl1 : lock (state c1) = None) by exact Hl.
    destruct (@play_file_frame f c1 Hl1) as (_ & Hs & Hl2 & _).
    pose proof (@play_file_outcome f c1 Hl1) as Ho.
    pose proof (@play_file_rng f c1 Hl1) as Hg.
    pose proof (@play_file_redraw f c1 Hl1 eq_refl) as Hd1.
    cbv zeta in *.
    assert (Hq : quit_key ch = false) by (destruct He as [-> | ->]; reflexivity).
    rewrite Hq.
    destruct (interp (play_file f) c1) as [[b | e |] c2]; cbn [and_then fst snd] in *.
    + split; [left; reflexivity |]. rewrite Hs.
      split; [exact Hl2 |]. split; [exact Hg |]. split; [reflexivity |].
      split; [exact Hin |]. split; [intros Hv; exact Hv |]. intros _. exact Hd1.
    + destruct Ho as [[b Hb] | Hb]; [discriminate |]. injection Hb as ->.
      split; [right; reflexivity |]. rewrite Hs.
      split; [exact Hl2 |]. split; [exact Hg |]. split; [reflexivity |].
      split; [exact Hin |]. split; [intros Hv; exact Hv |]. intros _. exact Hd1.
    + destruct Ho as [[b Hb] | Hb]; discriminate.
  - (* Space *)
    rewrite interp_key_space. rewrite (@interp_stop_playback (keyed c) Hl).
    cbn [and_then fst snd].
    split; [left; reflexivity |].
    split; [apply lock_stopped; exact Hl |].
    split; [rewrite rng_stopped; reflexivity |].
    rewrite self_stopped.
    split; [reflexivity |]. split; [exact Hin |]. split; [tauto |].
    intros _. unfold stopped. destruct (mpv_process (state (keyed c))); reflexivity.
  - (* s *)
    rewrite (@interp_key_toggle ch d c Ht Hl).
    assert (Hq : quit_key ch = false) by (destruct Ht as [-> | ->]; reflexivity).
    rewrite Hq.
    destruct (shuffle_mode (self c)).
    { cbn [fst snd]. split; [left; reflexivity |]. split; [exact Hl |].
      split; [reflexivity |]. split; [reflexivity |]. split; [exact Hin |].
      split; [intros Hv; exact Hv | reflexivity]. }
    destruct (mpv_process (state c)).
    { cbn [fst snd]. split; [left; reflexivity |]. split; [exact Hl |].
      split; [reflexivity |]. split; [reflexivity |]. split; [exact Hin |].
      split; [intros Hv; exact Hv | reflexivity]. }
    assert (Hlt : lock (state (toggled_on c)) = None) by exact Hl.
    assert (Hft : files (self (toggled_on c)) <> []) by exact Hf.
    destruct (@play_random_file_post d (toggled_on c) Hlt Hr Hft)
      as (Hl2 & Hg & [(Ho & Hd1 & Hs) | (Ho & Hs & Hd1)]); cbv zeta in *;
      destruct (interp (play_random_file d) (toggled_on c)) as [[[] | e |] c2];
      cbn [and_then fst snd] in *; try discriminate.
    + split; [left; reflexivity |]. rewrite Hs.
      split; [exact Hl2 |]. split; [exact Hg |]. split; [reflexivity |].
      pose proof (@next_draw_in_range c Hr Hf) as Hi.
      change (next_draw (toggled_on c)) with (next_draw c).
      split; [unfold in_library; cbn; exact Hi |].
      split; [| intros _; exact Hd1].
      intros _. unfold viewport_ok. cbn. apply scroll_target_ok; lia.
    + injection Ho as ->. split; [right; reflexivity |]. rewrite Hs.
      split; [exact Hl2 |]. split; [exact Hg |]. split; [reflexivity |].
      split; [exact Hin |]. split; [intros Hv; exact Hv |].
      intros _. apply Hd1. reflexivity.
  - (* r *)
    rewrite (@interp_key_random ch d c Hx).
    assert (Hq : quit_key ch = false) by (destruct Hx as [-> | ->]; reflexivity).
    rewrite Hq.
    assert (Hlt : lock (state (keyed c)) = None) by exact Hl.
    assert (Hft : files (self (keyed c)) <> []) by exact Hf.
    destruct (@play_random_file_post d (keyed c) Hlt Hr Hft)
      as (Hl2 & Hg & [(Ho & Hd1 & Hs) | (Ho & Hs & Hd1)]); cbv zeta in *;
      destruct (interp (play_random_file d) (keyed c)) as [[[] | e |] c2];
      cbn [and_then fst snd] in *; try discriminate.
    + split; [left; reflexivity |]. rewrite Hs.
      split; [exact Hl2 |]. split; [exact Hg |]. split; [reflexivity |].
      pose proof (@next_draw_in_range c Hr Hf) as Hi.
      change (next_draw (keyed c)) with (next_draw c).
      split; [unfold in_library; cbn; exact Hi |].
      split; [| intros _; exact Hd1].
      intros _. unfold viewport_ok. cbn. apply scroll_target_ok; lia.
    + injection Ho as ->. split; [right; reflexivity |]. rewrite Hs.
      split; [exact Hl2 |]. split; [exact Hg |]. split; [reflexivity |].
      split; [exact Hin |]. split; [intros Hv; exact Hv |].
      intros _. apply Hd1. reflexivity.
  - (* quit *)
    rewrite (@interp_key_quit ch d c Hq), Hq. cbn [fst snd].
    split; [left; reflexivity |]. split; [exact Hl |].
    split; [reflexivity |]. split; [reflexivity |]. split; [exact Hin |].
    split; [intros Hv; exact Hv | reflexivity].
  - (* a key without a branch *)
    rewrite (@unbound_key_clears_redraw ch d c Hn Hb), (@quit_key_unbound ch Hb).
    cbn [fst snd].
    split; [left; reflexivity |]. split; [exact Hl |].
    split; [reflexivity |]. split; [reflexivity |]. split; [exact Hin |].
    split; [intros Hv; exact Hv |]. rewrite Hb. discriminate.
Qed.

Lemma rng_ok_same o o' : rng o' = rng o -> rng_ok o -> rng_ok o'.
Proof. unfold rng_ok. intros ->. trivial. Qed.

(** X2.  Whatever keys are pressed, in any order, the highlight stays on
    a file of the library and inside the window, and the library is not
    changed: from a state with [0 <= highlight < len(files)] and the
    window around the highlight, with at least one row and a [randint]
    that keeps to its bounds, every key is handled to its end or ends in
    the error of a player that cannot be executed, never in an index
    error, and leaves the same bounds. *)
Theorem every_key_keeps_selection (d : Z) (c : Config) (keys : list Z) :
  1 <= d -> lock (state c) = None -> rng_ok (os c) ->
  in_library (self c) -> viewport_ok d (self c) ->
  Forall (fun r =>
            (fst r = Done false \/ fst r = Done true \/ fst r = Raised OSError) /\
            files (self (snd r)) = files (self c) /\
            in_library (self (snd r)) /\ viewport_ok d (self (snd r)))
         (visited d keys c).
Proof.
  intros Hd.
  remember (files (self c)) as fs eqn:Efs. revert c Efs.
  induction keys as [| ch keys IH]; intros c Efs Hl Hr Hin Hv; cbn [visited].
  - constructor.
  - destruct (@handle_input_post ch d c Hd Hl Hr Hin)
      as (Ho & Hl' & Hg & Hf & Hin' & Hv' & _).
    cbv zeta in *. constructor.
    + split.
      { destruct Ho as [Ho | Ho]; rewrite Ho; [destruct (quit_key ch) |]; tauto. }
      split; [congruence |]. split; [exact Hin' | exact (Hv' Hv)].
    + apply IH; try assumption; [congruence | | exact (Hv' Hv)].
      exact (@rng_ok_same (os c) _ Hg Hr).
Qed.

Lemma every_key_keeps_selection_witness :
  1 <= 2 /\ lock (state demo) = None /\ rng_ok (os demo) /\
  in_library (self demo) /\ viewport_ok 2 (self demo) /\
  Forall (fun r =>
            (fst r = Done false \/ fst r = Done true \/ fst r = Raised OSError) /\
            files (self (snd r)) = files (self demo) /\
            in_library (self (snd r)) /\ viewport_ok 2 (self (snd r)))
         (visited 2 [KEY_END; 10; 114; 120; 32; 115; KEY_UP] demo).
Proof.
  assert (H1 : 1 <= 2) by lia.
  assert (H2 : lock (state demo) = None) by reflexivity.
  assert (H3 : rng_ok (os demo)) by (intros k lo hi H; cbn; lia).
  assert (H4 : in_library (self demo)) by (unfold in_library; cbn; lia).
  assert (H5 : viewport_ok 2 (self demo)) by (unfold viewport_ok; cbn; lia).
  do 5 (split; [assumption |]).
  exact (@every_key_keeps_selection 2 demo
           [KEY_END; 10; 114; 120; 32; 115; KEY_UP] H1 H2 H3 H4 H5).
Defined.

(** ** Starting a player *)

(** [play_file] where a player can be launched, and where none is found. *)
Lemma play_file_by_player f c :
  lock (state c) = None ->
  let r := interp (play_file f) c in
  match player_found (os c) with
  | Resolves =>
      fst r = Done true /\
      mpv_process (state (snd r)) = Some (next_pid (os c)) /\
      alive (os (snd r)) = next_pid (os c) :: alive (os (stopped c)) /\
      exists cmd, In cmd (players (filepath (directory (self c)) f)) /\
        In (EvSpawn cmd (next_pid (os c))) (trace (os (snd r)))
  | Missing =>
      fst r = Done false /\
      mpv_process (state (snd r)) = None /\
      alive (os (snd r)) = alive (os (stopped c)) /\
      trace (os (snd r)) =
        trace (os c) ++ stop_events c ++
        map EvSpawnFailed (players (filepath (directory (self c)) f))
  | Unusable => fst r = Raised OSError
  end.
Proof.
  intros Hl. cbv zeta. rewrite interp_play_file by exact Hl.
  pose proof (launched_players (filepath (directory (self c)) f) (stopped c)) as H.
  cbv zeta in H.
  assert (E : player_found (os (stopped c)) = player_found (os c)).
  { unfold player_found, first_found. rewrite path_lookup_stopped. reflexivity. }
  rewrite E in H.
  destruct (player_found (os c)).
  - rewrite next_pid_stopped in H. exact H.
  - destruct H as (H1 & H2 & H3 & H4).
    split; [exact H1 |]. split; [rewrite H2; apply mpv_process_stopped |].
    split; [exact H3 |]. rewrite H4, trace_stopped, <- app_assoc. reflexivity.
  - exact H.
Qed.

(** [play_file] from a state with at most one child: how it ends, by what
    the search for a player comes to. *)
Lemma play_file_session f c :
  safe c ->
  let r := interp (play_file f) c in
  self (snd r) = self c /\ lock (state (snd r)) = None /\
  child_finished (state (snd r)) = child_finished (state c) /\
  match player_found (os c) with
  | Resolves =>
      fst r = Done true /\
      needs_redraw (state (snd r)) = true /\
      mpv_process (state (snd r)) = Some (next_pid (os c)) /\
      alive (os (snd r)) = [next_pid (os c)] /\
      exists cmd, In cmd (players (filepath (directory (self c)) f)) /\
        In (EvSpawn cmd (next_pid (os c))) (trace (os (snd r)))
  | Missing =>
      fst r = Done false /\
      mpv_process (state (snd r)) = None /\ alive (os (snd r)) = [] /\
      trace (os (snd r)) =
        trace (os c) ++ stop_events c ++
        map EvSpawnFailed (players (filepath (directory (self c)) f))
  | Unusable =>
      fst r = Raised OSError /\
      mpv_process (state (snd r)) = None /\ alive (os (snd r)) = []
  end.
Proof.
  intros [Hl H1]. cbv zeta.
  destruct (@play_file_frame f c Hl) as (_ & Hs & Hl' & Hc & _).
  destruct (@play_file_spec f c Hl H1) as (_ & _ & _ & Hsp).
  pose proof (@play_file_by_player f c Hl) as Hp.
  cbv zeta in *.
  split; [exact Hs |]. split; [exact Hl' |]. split; [exact Hc |].
  destruct (player_found (os c)).
  - destruct Hp as (Ho & Hm & Ha & cmd & Hin & Hev).
    split; [exact Ho |].
    split.
    { rewrite interp_play_file by exact Hl.
      destruct (launched_outcome (players (filepath (directory (self c)) f)) (stopped c))
        as [(_ & _ & R & _) | ([[R _] | [R _]] & _)]; [exact R | |];
        rewrite interp_play_file in Ho by exact Hl; rewrite R in Ho; discriminate. }
    split; [exact Hm |].
    split; [rewrite Ha, alive_stopped by exact H1; reflexivity |].
    exists cmd. split; assumption.
  - destruct Hp as (Ho & Hm & Ha & Ht).
    split; [exact Ho |]. split; [exact Hm |].
    split; [rewrite Ha; apply alive_stopped; exact H1 | exact Ht].
  - split; [exact Hp |].
    destruct Hsp as [(Ho & _) | (_ & Hm & Ha)]; [rewrite Hp in Ho; discriminate |].
    split; assumption.
Qed.

(** X3.  The Enter key.  With the highlight on a file of the library it
    clears the shuffle flag, stops the session there is, and leaves the
    highlight and the window where they are.  If a player can be launched,
    the one running child is then a new process, recorded in the slot and
    launched with one of the three commands for the highlighted file.  If
    no player is found the handler returns all the same, and if the first
    player found cannot be executed its error escapes: in both cases the
    shuffle flag is cleared and the former session is stopped, but nothing
    plays. *)
Theorem enter_plays_highlighted (c : Config) (ch d : Z) :
  ch = 10 \/ ch = 13 -> safe c -> in_library (self c) ->
  let r := interp (handle_input ch d) c in
  let c' := snd r in
  exists f,
    nth_error (files (self c)) (Z.to_nat (highlight (self c))) = Some f /\
    self c' = with_shuffle_mode (self c) false /\
    match player_found (os c) with
    | Resolves =>
        fst r = Done false /\
        mpv_process (state c') = Some (next_pid (os c)) /\
        alive (os c') = [next_pid (os c)] /\
        exists cmd, In cmd (players (filepath (directory (self c)) f)) /\
          In (EvSpawn cmd (next_pid (os c))) (trace (os c'))
    | Missing =>
        fst r = Done false /\
        mpv_process (state c') = None /\ alive (os c') = []
    | Unusable =>
        fst r = Raised OSError /\
        mpv_process (state c') = None /\ alive (os c') = []
    end.
Proof.
  intros He [Hl H1] Hin. cbv zeta.
  pose proof (@in_library_nonempty (self c) Hin) as Hf.
  destruct (@py_index_some _ (files (self c)) (highlight (self c)) Hin)
    as (f & Hidx & Hnth).
  exists f. split; [exact Hnth |].
  rewrite (@interp_key_enter ch d c f He Hf Hidx).
  set (c1 := set_self (keyed c) (with_shuffle_mode (self c) false)).
  assert (Hs1 : safe c1) by (split; [exact Hl | exact H1]).
  destruct (@play_file_session f c1 Hs1) as (Hs & _ & _ & Hp). cbv zeta in *.
  change (player_found (os c1)) with (player_found (os c)) in Hp.
  change (next_pid (os c1)) with (next_pid (os c)) in Hp.
  change (directory (self c1)) with (directory (self c)) in Hp.
  destruct (interp (play_file f) c1) as [[b | e |] c2]; cbn [and_then fst snd] in *;
    (split; [exact Hs |]);
    destruct (player_found (os c)); try (destruct Hp as (Ho & Hp); try discriminate).
  - destruct Hp as (_ & Hm & Ha & Hc). repeat split; assumption.
  - destruct Hp as (Hm & Ha & _). repeat split; assumption.
  - injection Ho as ->. destruct Hp as (Hm & Ha). repeat split; assumption.
Qed.

Lemma enter_plays_highlighted_witness :
  (10 = 10 \/ 10 = 13) /\ safe demo /\ in_library (self demo) /\
  player_found (os demo) = Resolves /\
  mpv_process (state (snd (interp (handle_input 10 2) demo))) = Some 0%nat.
Proof.
  assert (H1 : 10 = 10 \/ 10 = 13) by (left; reflexivity).
  assert (H2 : safe demo) by (split; reflexivity).
  assert (H3 : in_library (self demo)) by (unfold in_library; cbn; lia).
  do 3 (split; [assumption |]). split; [reflexivity |].
  destruct (@enter_plays_highlighted demo 10 2 H1 H2 H3) as (f & _ & _ & H).
  exact (proj1 (proj2 H)).
Defined.

(** [play_random_file] from a state with at most one child. *)
Lemma play_random_file_session d c :
  1 <= d -> safe c -> rng_ok (os c) -> files (self c) <> [] ->
  let r := interp (play_random_file d) c in
  let c' := snd r in
  let i := next_draw c in
  exists f,
    0 <= i < Z.of_nat (List.length (files (self c))) /\
    nth_error (files (self c)) (Z.to_nat i) = Some f /\
    lock (state c') = None /\
    child_finished (state c') = child_finished (state c) /\
    shuffle_mode (self c') = shuffle_mode (self c) /\
    files (self c') = files (self c) /\
    match player_found (os c) with
    | Resolves =>
        fst r = Done tt /\
        highlight (self c') = i /\ viewport_ok d (self c') /\
        needs_redraw (state c') = true /\
        mpv_process (state c') = Some (next_pid (os c)) /\
        alive (os c') = [next_pid (os c)] /\
        exists cmd, In cmd (players (filepath (directory (self c)) f)) /\
          In (EvSpawn cmd (next_pid (os c))) (trace (os c'))
    | Missing =>
        fst r = Done tt /\
        highlight (self c') = i /\ viewport_ok d (self c') /\
        needs_redraw (state c') = true /\
        mpv_process (state c') = None /\ alive (os c') = []
    | Unusable =>
        fst r = Raised OSError /\
        self c' = self c /\
        mpv_process (state c') = None /\ alive (os c') = []
    end.
Proof.
  intros Hd [Hl H1] Hr Hf. cbv zeta.
  pose proof (@next_draw_in_range c Hr Hf) as Hi.
  destruct (@py_index_some _ (files (self c)) (next_draw c) Hi) as (f & Hidx & Hnth).
  exists f. split; [exact Hi |]. split; [exact Hnth |].
  rewrite interp_play_random_file by assumption. cbv zeta. rewrite Hidx.
  set (c1 := set_os c _).
  assert (Hs1 : safe c1) by (split; [exact Hl | exact H1]).
  destruct (@play_file_session f c1 Hs1) as (Hs & Hl2 & Hc & Hp). cbv zeta in *.
  change (player_found (os c1)) with (player_found (os c)) in Hp.
  change (next_pid (os c1)) with (next_pid (os c)) in Hp.
  change (directory (self c1)) with (directory (self c)) in Hp.
  assert (Hview : viewport_ok d
            (with_start_index (with_highlight (self c) (next_draw c))
               (scroll_target (start_index (self c)) (next_draw c) d))).
  { unfold viewport_ok. cbn. apply scroll_target_ok; lia. }
  destruct (interp (play_file f) c1) as [[b | e |] c2]; cbn [and_then fst snd] in *;
    destruct (player_found (os c));
    try (destruct Hp as (Ho & Hp); try discriminate).
  - destruct Hp as (_ & Hm & Ha & Hcmd).
    unfold moved. cbn [state self os lock child_finished with_redraw
                       needs_redraw mpv_process].
    rewrite Hs.
    repeat match goal with |- _ /\ _ => split end;
      first [assumption | reflexivity | exact Hview].
  - destruct Hp as (Hm & Ha & _).
    unfold moved. cbn [state self os lock child_finished with_redraw
                       needs_redraw mpv_process].
    rewrite Hs.
    repeat match goal with |- _ /\ _ => split end;
      first [assumption | reflexivity | exact Hview].
  - injection Ho as ->. destruct Hp as (Hm & Ha).
    rewrite Hs.
    repeat match goal with |- _ /\ _ => split end;
      first [assumption | reflexivity | exact Hview].
Qed.

(** X4.  The random-play key, [r] or [R], from a state with at most one
    child and a library that is not empty.  Whatever the shuffle flag, it
    leaves the flag as it is, draws an index of the library and stops the
    session there is.  If a player can be launched, the one running child
    is then a new process, recorded in the slot and launched for the file
    at the drawn index, the highlight is that index and the window holds
    it.  If no player is found the highlight moves all the same and
    nothing plays.  If the first player found cannot be executed, its
    error escapes, the highlight is as before and nothing plays. *)
Theorem random_key_plays (c : Config) (ch d : Z) :
  ch = 114 \/ ch = 82 -> 1 <= d ->
  safe c -> rng_ok (os c) -> files (self c) <> [] ->
  let r := interp (handle_input ch d) c in
  let c' := snd r in
  let i := next_draw c in
  exists f,
    0 <= i < Z.of_nat (List.length (files (self c))) /\
    nth_error (files (self c)) (Z.to_nat i) = Some f /\
    shuffle_mode (self c') = shuffle_mode (self c) /\
    match player_found (os c) with
    | Resolves =>
        fst r = Done false /\
        highlight (self c') = i /\ viewport_ok d (self c') /\
        mpv_process (state c') = Some (next_pid (os c)) /\
        alive (os c') = [next_pid (os c)] /\
        exists cmd, In cmd (players (filepath (directory (self c)) f)) /\
          In (EvSpawn cmd (next_pid (os c))) (trace (os c'))
    | Missing =>
        fst r = Done false /\
        highlight (self c') = i /\ viewport_ok d (self c') /\
        mpv_process (state c') = None /\ alive (os c') = []
    | Unusable =>
        fst r = Raised OSError /\
        self c' = self c /\
        mpv_process (state c') = None /\ alive (os c') = []
    end.
Proof.
  intros Hx Hd [Hl H1] Hr Hf. cbv zeta.
  rewrite (@interp_key_random ch d c Hx).
  assert (Hs1 : safe (keyed c)) by (split; [exact Hl | exact H1]).
  assert (Hf1 : files (self (keyed c)) <> []) by exact Hf.
  destruct (@play_random_file_session d (keyed c) Hd Hs1 Hr Hf1)
    as (f & Hi & Hnth & _ & _ & Hsh & _ & Hp).
  cbv zeta in *.
  change (next_draw (keyed c)) with (next_draw c) in *.
  change (player_found (os (keyed c))) with (player_found (os c)) in Hp.
  change (next_pid (os (keyed c))) with (next_pid (os c)) in Hp.
  change (self (keyed c)) with (self c) in *.
  exists f. split; [exact Hi |]. split; [exact Hnth |].
  destruct (interp (play_random_file d) (keyed c)) as [[[] | e |] c2];
    cbn [and_then fst snd] in *; (split; [exact Hsh |]);
    destruct (player_found (os c));
    try (destruct Hp as (Ho & Hp); try discriminate).
  - destruct Hp as (Hh & Hv & _ & Hm & Ha & Hc).
    repeat match goal with |- _ /\ _ => split end;
      assumption || reflexivity.
  - destruct Hp as (Hh & Hv & _ & Hm & Ha). repeat match goal with |- _ /\ _ => split end;
      assumption || reflexivity.
  - injection Ho as ->. destruct Hp as (Hs & Hm & Ha).
    repeat match goal with |- _ /\ _ => split end;
      assumption || reflexivity.
Qed.

Lemma random_key_plays_witness :
  (114 = 114 \/ 114 = 82) /\ 1 <= 2 /\ safe demo_stubborn /\
  rng_ok (os demo_stubborn) /\ files (self demo_stubborn) <> [] /\
  player_found (os demo_stubborn) = Resolves /\
  alive (os (snd (interp (handle_input 114 2) demo_stubborn))) = [1%nat].
Proof.
  assert (H1 : 114 = 114 \/ 114 = 82) by (left; reflexivity).
  assert (H2 : 1 <= 2) by lia.
  assert (H3 : safe demo_stubborn) by (split; reflexivity).
  assert (H4 : rng_ok (os demo_stubborn)) by (intros k lo hi H; cbn; lia).
  assert (H5 : files (self demo_stubborn) <> []) by discriminate.
  do 5 (split; [assumption |]). split; [reflexivity |].
  destruct (@random_key_plays demo_stubborn 114 2 H1 H2 H3 H4 H5)
    as (f & _ & _ & _ & H).
  exact (proj1 (proj2 (proj2 (proj2 (proj2 H))))).
Defined.

(** ** The end of the loop *)

Lemma answers_interp_as t (A : Type) (P : A -> Prop) (p : prog A) c a :
  answers P p -> fst (interp_as t p c) = Done a -> P a.
Proof.
  revert c. induction p as [b | e | R o k IH]; intros c Hp H; cbn in *.
  - injection H as <-. exact Hp.
  - discriminate.
  - destruct (exec t o c) as [[r c'] |]; [| discriminate].
    exact (IH r c' (Hp r) H).
Qed.

Lemma answers_bind (A B : Type) (Q : A -> Prop) (P : B -> Prop)
    (p : prog A) (f : A -> prog B) :
  answers Q p -> (forall a, Q a -> answers P (f a)) -> answers P (bind p f).
Proof.
  intros Hp Hf. induction p as [b | e | R o k IH]; cbn in *.
  - apply Hf, Hp.
  - exact I.
  - intros r. apply IH, Hp.
Qed.

Lemma answers_any (A : Type) (p : prog A) : answers (fun _ => True) p.
Proof. induction p as [b | e | R o k IH]; cbn; auto. Qed.

Lemma answers_then (A B : Type) (P : B -> Prop) (p : prog A) (f : A -> prog B) :
  (forall a, answers P (f a)) -> answers P (bind p f).
Proof.
  intros Hf. apply answers_bind with (Q := fun _ => True); [apply answers_any | auto].
Qed.

Ltac answers_step :=
  match goal with
  | |- answers _ (Ret _) => cbn [answers]
  | |- answers _ (bind _ _) => apply answers_then; intros ?
  | |- answers _ (if ?b then _ else _) => destruct b eqn:?
  | |- answers _ (match ?x with _ => _ end) => destruct x eqn:?
  end.

(** The loop breaks on the quit keys and on no other. *)
Lemma answers_handle_input ch d :
  answers (fun b => b = quit_key ch) (handle_input ch d).
Proof.
  unfold handle_input, quit_key.
  repeat answers_step;
    repeat match goal with
           | H : (_ || _) = true |- _ => apply orb_true_iff in H; destruct H as [H | H]
           | H : (_ || _) = false |- _ => apply orb_false_iff in H; destruct H as [? H]
           | H : (ch =? _) = true |- _ => apply Z.eqb_eq in H; subst ch
           end;
    try reflexivity;
    repeat match goal with
           | H : (ch =? _) = false |- _ => rewrite H; clear H
           end;
    reflexivity.
Qed.

Lemma answers_loop_body term_y ch :
  answers (fun b => b = quit_key ch) (loop_body term_y ch).
Proof.
  unfold loop_body. cbv zeta.
  do 2 (apply answers_then; intros ?).
  apply answers_bind with (Q := fun b => b = quit_key ch);
    [apply answers_handle_input |].
  intros b Hb. apply answers_then. intros _. exact Hb.
Qed.

Lemma loop_body_answer term_y ch c b :
  fst (interp (loop_body term_y ch) c) = Done b -> b = quit_key ch.
Proof. apply answers_interp_as with (P := fun b => b = quit_key ch), answers_loop_body. Qed.

(** X5.  What follows a quit key is never read: the loop over inputs with a
    quit key among them ends as the loop over the inputs up to that key,
    in whatever state it starts. *)
Theorem quit_stops_reading (pre post : list (Z * Z)) (term_y q : Z) (c : Config) :
  quit_key q = true ->
  interp (event_loop (pre ++ (term_y, q) :: post)) c =
  interp (event_loop (pre ++ [(term_y, q)])) c.
Proof.
  intros Hq. revert c. induction pre as [| [ty ch] pre IH]; intros c; cbn [app event_loop].
  - rewrite !interp_bind.
    pose proof (@loop_body_answer term_y q c) as Hb.
    destruct (interp (loop_body term_y q) c) as [[b | e |] c1]; cbn [and_then fst] in *;
      try reflexivity.
    rewrite (Hb b eq_refl), Hq. reflexivity.
  - rewrite !interp_bind.
    destruct (interp (loop_body ty ch) c) as [[[] | e |] c1]; cbn [and_then];
      try reflexivity.
    apply IH.
Qed.

Lemma quit_stops_reading_witness :
  quit_key 113 = true /\
  interp (event_loop ([(20, 10)] ++ (20, 113) :: [(20, 10); (20, 114)])) demo =
  interp (event_loop ([(20, 10)] ++ [(20, 113)])) demo.
Proof.
  split; [reflexivity |].
  exact (@quit_stops_reading [(20, 10)] [(20, 10); (20, 114)] 20 113 demo eq_refl).
Defined.

(** ** One turn of the loop *)

Lemma interp_draw_interface c :
  lock (state c) = None ->
  interp draw_interface c =
  if needs_redraw (state c) then (Done tt, drawn c)
  else (Done tt, logged c [mkAccess Fg CRedraw Rd false]).
Proof.
  intros Hl. destruct c as [[cf mp nr lk] m o a]. cbn [state lock] in Hl. subst lk.
  destruct nr; [| reflexivity].
  unfold draw_interface, drawn, interp. cbn.
  destruct mp; norm; reflexivity.
Qed.

Lemma interp_loop_body term_y ch c :
  interp (loop_body term_y ch) c =
  and_then (interp draw_interface c) (fun _ c1 =>
  and_then (interp (handle_finished (Z.max 1 (term_y - 13))) c1) (fun _ c2 =>
  interp (handle_input ch (Z.max 1 (term_y - 13))) c2)).
Proof.
  unfold loop_body. cbv zeta. rewrite interp_bind.
  destruct (interp draw_interface c) as [[[] | e |] c1]; cbn [and_then]; try reflexivity.
  rewrite interp_bind.
  destruct (interp (handle_finished _) c1) as [[[] | e |] c2]; cbn [and_then];
    try reflexivity.
  rewrite interp_bind.
  destruct (interp (handle_input _ _) c2) as [[[] | e |] c3]; cbn [and_then];
    reflexivity.
Qed.

Lemma needs_redraw_stopped c :
  needs_redraw (state c) = true -> needs_redraw (state (stopped c)) = true.
Proof. unfold stopped. destruct (mpv_process (state c)); cbn; auto. Qed.

(** A turn of the monitor that finds the slot empty. *)
Lemma monitor_tick_idle c :
  lock (state c) = None -> mpv_process (state c) = None ->
  interp_as Mon monitor_tick c = (Done tt, logged c [mkAccess Mon CProcess Rd true]).
Proof.
  destruct c as [[cf mp nr lk] m o a]. cbn [state lock mpv_process].
  intros -> ->. reflexivity.
Qed.

(** A turn of the monitor that finds a process in the slot that has exited. *)
Lemma monitor_tick_exited c p :
  lock (state c) = None -> mpv_process (state c) = Some p -> is_alive p (os c) = false ->
  interp_as Mon monitor_tick c =
  (Done tt,
   mkConfig (mkPlayerState true None true None) (self c) (os c)
            (accesses c ++ [mkAccess Mon CProcess Rd true;
                            mkAccess Mon CProcess Wr true;
                            mkAccess Mon CFinished Wr false;
                            mkAccess Mon CRedraw Wr false])).
Proof.
  destruct c as [[cf mp nr lk] m o a]. cbn [state lock mpv_process os].
  intros -> -> Ha. unfold monitor_tick. cbn. rewrite Ha. cbn. norm. reflexivity.
Qed.

(** An idle turn of the loop that finds the redraw flag set and no
    finished signal. *)
Lemma idle_turn_draws term_y c :
  lock (state c) = None -> needs_redraw (state c) = true ->
  child_finished (state c) = false ->
  interp (loop_body term_y ERR) c =
  (Done false, logged (drawn c) [mkAccess Fg CFinished Rd false]).
Proof.
  intros Hl Hn Hc. rewrite interp_loop_body, interp_draw_interface by exact Hl.
  rewrite Hn. cbn [and_then]. rewrite interp_handle_finished.
  change (child_finished (state (drawn c))) with (child_finished (state c)).
  rewrite Hc. cbn [and_then]. rewrite interp_key_none.
  unfold holds. change (lock (state (drawn c))) with (lock (state c)). rewrite Hl.
  reflexivity.
Qed.

(** X8.  The way from the end of a file to the next one.  The process in
    the slot has exited and nothing else runs.  A turn of the monitor
    raises the finished signal; the idle turn of the loop that follows
    takes it back.  With shuffle off that turn launches nothing: it draws
    one frame and leaves the attributes alone.  With shuffle on it draws
    an index of the library; if a player can be launched, the highlight
    is then that index, inside the window, and the one running child is a
    new process, recorded in the slot and launched for the file at that
    index; if no player is found the highlight moves and nothing plays;
    if the first player found cannot be executed, its error ends the
    turn and nothing plays. *)
Theorem finished_file_advances (c : Config) (p : pid) (term_y : Z) :
  lock (state c) = None -> mpv_process (state c) = Some p -> alive (os c) = [] ->
  rng_ok (os c) -> files (self c) <> [] ->
  let c1 := snd (interp_as Mon monitor_tick c) in
  let r := interp (loop_body term_y ERR) c1 in
  let c2 := snd r in
  let i := next_draw c in
  child_finished (state c1) = true /\
  child_finished (state c2) = false /\
  if shuffle_mode (self c) then
    match player_found (os c) with
    | Resolves =>
        fst r = Done false /\
        highlight (self c2) = i /\ viewport_ok (Z.max 1 (term_y - 13)) (self c2) /\
        mpv_process (state c2) = Some (next_pid (os c)) /\
        alive (os c2) = [next_pid (os c)] /\
        exists f cmd,
          nth_error (files (self c)) (Z.to_nat i) = Some f /\
          In cmd (players (filepath (directory (self c)) f)) /\
          In (EvSpawn cmd (next_pid (os c))) (trace (os c2))
    | Missing =>
        fst r = Done false /\ highlight (self c2) = i /\
        mpv_process (state c2) = None /\ alive (os c2) = []
    | Unusable =>
        fst r = Raised OSError /\
        mpv_process (state c2) = None /\ alive (os c2) = []
    end
  else
    fst r = Done false /\ self c2 = self c /\
    mpv_process (state c2) = None /\
    trace (os c2) = trace (os c) ++ [EvRender (self c) false].
Proof.
  intros Hl Hm Ha Hr Hf. cbv zeta.
  assert (Hdead : is_alive p (os c) = false) by (unfold is_alive; rewrite Ha; reflexivity).
  rewrite (@monitor_tick_exited c p Hl Hm Hdead). cbn [snd].
  set (c1 := mkConfig _ _ _ _).
  split; [reflexivity |].
  rewrite interp_loop_body, (@interp_draw_interface c1 eq_refl).
  change (needs_redraw (state c1)) with true. cbv iota. cbn [and_then].
  rewrite interp_handle_finished.
  change (child_finished (state (drawn c1))) with true. cbv iota.
  change (shuffle_mode (self (drawn c1))) with (shuffle_mode (self c)).
  destruct (shuffle_mode (self c)).
  - assert (Hs : safe (consumed (drawn c1))).
    { split; [reflexivity |]. unfold one_session.
      change (alive (os (consumed (drawn c1)))) with (alive (os c)).
      rewrite Ha. exact I. }
    assert (Hd : 1 <= Z.max 1 (term_y - 13)) by lia.
    destruct (@play_random_file_session (Z.max 1 (term_y - 13)) (consumed (drawn c1))
                Hd Hs Hr Hf)
      as (f & _ & Hnth & _ & Hc & _ & _ & Hp).
    cbv zeta in *.
    change (next_draw (consumed (drawn c1))) with (next_draw c) in *.
    change (player_found (os (consumed (drawn c1)))) with (player_found (os c)) in Hp.
    change (next_pid (os (consumed (drawn c1)))) with (next_pid (os c)) in Hp.
    change (self (consumed (drawn c1))) with (self c) in *.
    change (child_finished (state (consumed (drawn c1)))) with false in Hc.
    destruct (interp (play_random_file _) (consumed (drawn c1))) as [[[] | e |] c2];
      cbn [and_then fst snd] in *; (split; [exact Hc |]);
      destruct (player_found (os c));
      try (destruct Hp as (Ho & Hp); try discriminate).
    + destruct Hp as (Hh & Hv & _ & Hm2 & Ha2 & cmd & Hin & Hev).
      rewrite interp_key_none. cbn [fst snd].
      do 4 (split; [assumption || reflexivity |]). split; [assumption |].
      exists f, cmd. auto.
    + destruct Hp as (Hh & Hv & _ & Hm2 & Ha2).
      rewrite interp_key_none. cbn [fst snd].
      repeat match goal with |- _ /\ _ => split end; assumption || reflexivity.
    + injection Ho as ->. destruct Hp as (_ & Hm2 & Ha2).
      repeat match goal with |- _ /\ _ => split end; assumption || reflexivity.
  - cbn [and_then]. rewrite interp_key_none. cbn [fst snd].
    repeat match goal with |- _ /\ _ => split end; reflexivity.
Qed.

Lemma finished_file_advances_witness :
  let c := mkConfig (mkPlayerState false (Some 0%nat) false None)
                    (mkMediaPlayer "/music" abc 0 0 true)
                    (mkOS [] 1%nat (path_lookup demo_os) (heeds_term demo_os)
                          (rng demo_os) (draws demo_os) (trace demo_os)) [] in
  lock (state c) = None /\ mpv_process (state c) = Some 0%nat /\ alive (os c) = [] /\
  rng_ok (os c) /\ files (self c) <> [] /\
  shuffle_mode (self c) = true /\ player_found (os c) = Resolves /\
  alive (os (snd (interp (loop_body 20 ERR) (snd (interp_as Mon monitor_tick c))))) =
    [1%nat].
Proof.
  cbv zeta.
  set (c := mkConfig _ _ _ _).
  assert (H4 : rng_ok (os c)) by (intros k lo hi H; cbn; lia).
  assert (H5 : files (self c) <> []) by discriminate.
  do 3 (split; [reflexivity |]). split; [exact H4 |]. split; [exact H5 |].
  do 2 (split; [reflexivity |]).
  pose proof (@finished_file_advances c 0%nat 20 eq_refl eq_refl eq_refl H4 H5) as H.
  cbv zeta in H. destruct H as (_ & _ & H).
  exact (proj1 (proj2 (proj2 (proj2 (proj2 H))))).
Defined.

(** X9.  A key with a branch is followed by a frame.  Whatever the key
    did, it left the redraw flag set, so that [draw_interface], called in
    the state the key leaves, as the next turn of the loop does first,
    renders once, showing the attributes and the playing status as the
    key left them, and clears the flag. *)
Theorem key_is_followed_by_frame (c : Config) (ch d : Z) :
  1 <= d -> lock (state c) = None -> rng_ok (os c) -> in_library (self c) ->
  bound_key ch = true ->
  let c1 := snd (interp (handle_input ch d) c) in
  let c2 := snd (interp draw_interface c1) in
  trace (os c2) =
    trace (os c1) ++
    [EvRender (self c1) (match mpv_process (state c1) with
                         | Some _ => true
                         | None => false
                         end)] /\
  needs_redraw (state c2) = false /\
  self c2 = self c1 /\ alive (os c2) = alive (os c1).
Proof.
  intros Hd Hl Hr Hin Hb. cbv zeta.
  destruct (@handle_input_post ch d c Hd Hl Hr Hin) as (_ & Hl1 & _ & _ & _ & _ & Hn).
  cbv zeta in *. specialize (Hn Hb).
  rewrite interp_draw_interface by exact Hl1. rewrite Hn.
  repeat split; reflexivity.
Qed.

Lemma key_is_followed_by_frame_witness :
  1 <= 7 /\ lock (state demo) = None /\ rng_ok (os demo) /\ in_library (self demo) /\
  bound_key KEY_DOWN = true /\
  trace (os (snd (interp draw_interface (snd (interp (handle_input KEY_DOWN 7) demo))))) =
    trace (os demo) ++ [EvRender (mkMediaPlayer "/music" abc 1 0 false) false].
Proof.
  assert (H1 : 1 <= 7) by lia.
  assert (H3 : rng_ok (os demo)) by (intros k lo hi H; cbn; lia).
  assert (H4 : in_library (self demo)) by (unfold in_library; cbn; lia).
  split; [exact H1 |]. split; [reflexivity |]. split; [exact H3 |].
  split; [exact H4 |]. split; [reflexivity |].
  exact (proj1 (@key_is_followed_by_frame demo KEY_DOWN 7 H1 eq_refl H3 H4 eq_refl)).
Defined.

(** ** The lock, under every schedule *)

Lemma disciplined_bind (A B : Type) (p : prog A) (f : A -> prog B) held :
  disciplined held p -> (forall a, disciplined false (f a)) ->
  disciplined held (bind p f).
Proof.
  intros Hp Hf. revert held Hp.
  induction p as [a | e | R o k IH]; intros held Hp; cbn in *.
  - subst held. apply Hf.
  - exact Hp.
  - destruct (lock_effect o held); [| exact Hp]. intros r. apply IH, Hp.
Qed.

Lemma disciplined_try_except (A : Type) (p : prog A) (h : exn -> prog A) held :
  disciplined held p -> (forall e, disciplined false (h e)) ->
  disciplined held (try_except p h).
Proof.
  intros Hp Hh. revert held Hp.
  induction p as [a | e | R o k IH]; intros held Hp; cbn in *.
  - exact Hp.
  - subst held. apply Hh.
  - destruct (lock_effect o held); [| exact Hp]. intros r. apply IH, Hp.
Qed.

Lemma disciplined_try_finally (A : Type) (p : prog A) (q : prog unit) held :
  disciplined held p -> disciplined false q ->
  disciplined held (try_finally p q).
Proof.
  intros Hp Hq. revert held Hp.
  induction p as [a | e | R o k IH]; intros held Hp; cbn [try_finally disciplined] in *.
  - subst held. apply disciplined_bind; [exact Hq | intros; reflexivity].
  - subst held. apply disciplined_bind; [exact Hq | intros; reflexivity].
  - destruct (lock_effect o held); [| exact Hp]. intros r. apply IH, Hp.
Qed.

Lemma disciplined_act (R : Type) (o : action R) :
  lock_effect o false = Some false -> disciplined false (act o).
Proof. intros H. cbn. rewrite H. intros r. reflexivity. Qed.

Lemma disciplined_get_process : disciplined false get_process.
Proof. cbn. intros. reflexivity. Qed.

Lemma disciplined_set_process v : disciplined false (set_process v).
Proof. cbn. intros. reflexivity. Qed.

Create HintDb disciplined.
#[local] Hint Resolve disciplined_get_process disciplined_set_process : disciplined.

Ltac disciplined_step :=
  match goal with
  | |- disciplined false (Ret _) => reflexivity
  | |- disciplined false (Raise _) => reflexivity
  | |- disciplined false (bind _ _) => apply disciplined_bind; [| intros ?]
  | |- disciplined false (try_except _ _) => apply disciplined_try_except; [| intros ?]
  | |- disciplined false (try_finally _ _) => apply disciplined_try_finally
  | |- disciplined false (act _) => apply disciplined_act; reflexivity
  | |- disciplined false (if ?b then _ else _) => destruct b
  | |- disciplined false (match ?x with _ => _ end) => destruct x
  | |- disciplined false _ => solve [auto with disciplined]
  end.

Lemma disciplined_stop_playback : disciplined false stop_playback.
Proof. unfold stop_playback, wait. repeat disciplined_step. Qed.

Lemma disciplined_try_players cmds : disciplined false (try_players cmds).
Proof.
  induction cmds as [| cmd rest IH]; cbn [try_players]; [reflexivity |].
  unfold popen. repeat disciplined_step; exact IH.
Qed.

Lemma disciplined_play_file f : disciplined false (play_file f).
Proof.
  unfold play_file. repeat disciplined_step;
    [apply disciplined_stop_playback | apply disciplined_try_players].
Qed.

Lemma disciplined_update_scroll d : disciplined false (update_scroll d).
Proof. unfold update_scroll, assign_start_index. repeat disciplined_step. Qed.

Lemma disciplined_play_random_file d : disciplined false (play_random_file d).
Proof.
  unfold play_random_file, index, assign_highlight.
  repeat disciplined_step;
    first [apply disciplined_play_file | apply disciplined_update_scroll].
Qed.

Lemma disciplined_handle_input ch d : disciplined false (handle_input ch d).
Proof.
  unfold handle_input, assign_highlight, assign_start_index, assign_shuffle_mode, index.
  repeat disciplined_step;
    first [apply disciplined_update_scroll | apply disciplined_play_random_file
          | apply disciplined_play_file | apply disciplined_stop_playback].
Qed.

Lemma disciplined_loop_body term_y ch : disciplined false (loop_body term_y ch).
Proof.
  unfold loop_body, draw_interface, handle_finished. cbv zeta.
  repeat disciplined_step;
    first [apply disciplined_handle_input | apply disciplined_play_random_file].
Qed.

Lemma disciplined_event_loop inputs : disciplined false (event_loop inputs).
Proof.
  induction inputs as [| [term_y ch] rest IH]; cbn [event_loop]; [reflexivity |].
  apply disciplined_bind; [apply disciplined_loop_body |].
  intros []; [apply disciplined_stop_playback | exact IH].
Qed.

Lemma disciplined_monitor_tick : disciplined false monitor_tick.
Proof. unfold monitor_tick. repeat disciplined_step. Qed.

Lemma step_prog_orderly t u (A B : Type) (p : prog A) (q : prog B) c :
  tid_eqb u t = false ->
  disciplined (holds t (state c)) p -> disciplined (holds u (state c)) q ->
  disciplined (holds t (state (snd (step_prog t p c)))) (fst (step_prog t p c)) /\
  disciplined (holds u (state (snd (step_prog t p c)))) q.
Proof.
  intros Hut Hp Hq.
  destruct p as [a | e | R o k]; cbn [step_prog fst snd]; [tauto | tauto |].
  destruct c as [[cf mp nr lk] m o' acc].
  unfold holds in *. cbn [state lock] in *.
  destruct o; cbn [exec disciplined lock_effect] in *;
    destruct lk as [[] |]; destruct t; destruct u; try discriminate;
    cbn in *; try contradiction;
    repeat match goal with
           | |- _ /\ _ => split
           | |- context [spawn ?cmd ?o] => destruct (spawn cmd o)
           end;
    cbn in *; auto.
Qed.

Lemma step_prog_guarded t (A : Type) (p : prog A) c :
  disciplined (holds t (state c)) p -> Forall guarded (accesses c) ->
  Forall guarded (accesses (snd (step_prog t p c))).
Proof.
  intros Hp Ha.
  assert (Hsnoc : forall x, guarded x -> Forall guarded (accesses c ++ [x])).
  { intros x Hx. apply Forall_app.
    split; [exact Ha | constructor; [exact Hx | constructor]]. }
  destruct p as [a | e | R o k]; cbn [step_prog fst snd]; [assumption | assumption |].
  destruct c as [[cf mp nr lk] m o' acc].
  unfold holds in *. cbn [state lock accesses] in *.
  destruct o; cbn [exec disciplined lock_effect] in *;
    destruct lk as [[] |]; destruct t; try discriminate;
    cbn in *; try contradiction;
    repeat match goal with
           | |- context [spawn ?cmd ?o] => destruct (spawn cmd o)
           end;
    cbn in *; auto;
    try (apply Hsnoc; intros E; (discriminate || reflexivity)).
Qed.

(** The program the monitor runs next: its body again, once the body has
    ended. *)
Lemma disciplined_monitor_body th c :
  disciplined (holds Mon (state c)) (monitor_prog th) ->
  disciplined (holds Mon (state c))
    (match monitor_prog th with Ret _ => monitor_tick | p => p end).
Proof.
  intros Hm. destruct (monitor_prog th) as [[] | e | R o k]; try exact Hm.
  cbn in Hm. rewrite Hm. apply disciplined_monitor_tick.
Qed.

Lemma step_orderly s t : orderly s -> orderly (step s t).
Proof.
  destruct s as [th c]. unfold orderly. cbn [fst snd]. intros (Hf & Hm).
  destruct t; cbn [step].
  - pose proof (@step_prog_orderly Fg Mon _ _ (main_prog th) (monitor_prog th) c
                  eq_refl Hf Hm) as H.
    destruct (step_prog Fg (main_prog th) c) as [p c']. exact H.
  - pose proof (@disciplined_monitor_body th c Hm) as Hb.
    pose proof (@step_prog_orderly Mon Fg _ _ _ (main_prog th) c eq_refl Hb Hf) as H.
    destruct (step_prog Mon _ c) as [p c']. cbn [fst snd] in *. tauto.
Qed.

Lemma step_guarded s t :
  orderly s -> Forall guarded (accesses (snd s)) ->
  Forall guarded (accesses (snd (step s t))).
Proof.
  destruct s as [th c]. unfold orderly. cbn [fst snd]. intros (Hf & Hm) Ha.
  destruct t; cbn [step].
  - pose proof (@step_prog_guarded Fg _ (main_prog th) c Hf Ha) as H.
    destruct (step_prog Fg (main_prog th) c) as [p c']. exact H.
  - pose proof (@disciplined_monitor_body th c Hm) as Hb.
    pose proof (@step_prog_guarded Mon _ _ c Hb Ha) as H.
    destruct (step_prog Mon _ c) as [p c']. exact H.
Qed.

Lemma schedule_orderly ts s :
  orderly s -> Forall guarded (accesses (snd s)) ->
  orderly (schedule ts s) /\ Forall guarded (accesses (snd (schedule ts s))).
Proof.
  unfold schedule. revert s. induction ts as [| t ts IH]; intros s H Ha; cbn [fold_left].
  - split; assumption.
  - apply IH; [apply step_orderly, H | apply step_guarded; assumption].
Qed.

Lemma orderly_start inputs c :
  lock (state c) = None -> orderly (mkThreads (event_loop inputs) monitor_tick, c).
Proof.
  intros Hl. unfold orderly, holds. cbn [fst snd main_prog monitor_prog]. rewrite Hl.
  split; [apply disciplined_event_loop | apply disciplined_monitor_tick].
Qed.

(** X10.  The slot is only touched under the lock.  Let the main thread
    run the event loop on any inputs and the monitor its loop, their
    operations interleaved in any order, from a state with the lock free.
    Then every read and every write of [mpv_process] that either thread
    makes is made while that thread holds the lock. *)
Theorem slot_accessed_under_lock (inputs : list (Z * Z)) (ts : list tid) (c : Config) :
  lock (state c) = None -> Forall guarded (accesses c) ->
  let s := schedule ts (mkThreads (event_loop inputs) monitor_tick, c) in
  forall a, In a (accesses (snd s)) -> acc_cell a = CProcess -> acc_locked a = true.
Proof.
  intros Hl Ha. cbv zeta.
  destruct (@schedule_orderly ts _ (@orderly_start inputs c Hl) Ha) as [_ H].
  intros a Hin. exact (proj1 (Forall_forall _ _) H a Hin).
Qed.

Lemma slot_accessed_under_lock_witness :
  let ts := repeat Mon 3 ++ repeat Fg 22 ++ repeat Mon 6 in
  let s := schedule ts (mkThreads (event_loop [(20, 10); (20, 10)]) monitor_tick,
                        demo_playing) in
  lock (state demo_playing) = None /\ Forall guarded (accesses demo_playing) /\
  In (mkAccess Mon CProcess Wr true) (accesses (snd s)) /\
  In (mkAccess Fg CProcess Wr true) (accesses (snd s)) /\
  forall a, In a (accesses (snd s)) -> acc_cell a = CProcess -> acc_locked a = true.
Proof.
  cbv zeta. split; [reflexivity |]. split; [constructor |].
  split; [vm_compute; tauto |]. split; [vm_compute; tauto |].
  exact (@slot_accessed_under_lock [(20, 10); (20, 10)]
           (repeat Mon 3 ++ repeat Fg 22 ++ repeat Mon 6) demo_playing
           eq_refl (Forall_nil guarded)).
Defined.

Lemma disciplined_can_step t (A : Type) (p : prog A) c :
  holds t (state c) = true -> disciplined true p -> can_step t p c = true.
Proof.
  intros Hh Hp. destruct p as [a | e | R o k]; cbn in Hp; try discriminate.
  unfold can_step.
  destruct o; cbn in Hp; try contradiction; cbn [exec];
    repeat match goal with
           | |- context [spawn ?cmd ?o] => destruct (spawn cmd o)
           | |- context [draw ?lo ?hi ?o] => destruct (draw lo hi o)
           end;
    reflexivity.
Qed.

(** X11.  The lock never brings the program to a halt.  Under every
    schedule of the two threads, from a state with the lock free, the
    thread that holds the lock has a next operation and can perform it:
    it has not ended with the lock taken, and it does not wait for the
    lock it holds. *)
Theorem lock_holder_can_move (inputs : list (Z * Z)) (ts : list tid) (c : Config)
    (t : tid) :
  lock (state c) = None ->
  let s := schedule ts (mkThreads (event_loop inputs) monitor_tick, c) in
  lock (state (snd s)) = Some t -> movable t s = true.
Proof.
  intros Hl. cbv zeta.
  assert (H : orderly (schedule ts (mkThreads (event_loop inputs) monitor_tick, c))).
  { assert (G : forall ts s, orderly s -> orderly (schedule ts s)).
    { unfold schedule. intros l. induction l as [| u l IH]; intros s Hs; cbn [fold_left];
        [exact Hs | apply IH, step_orderly, Hs]. }
    apply G, orderly_start, Hl. }
  destruct (schedule ts _) as [th c']. unfold orderly in H. cbn [fst snd] in *.
  destruct H as (Hf & Hm). intros Ht.
  assert (Hh : holds t (state c') = true)
    by (unfold holds; rewrite Ht; destruct t; reflexivity).
  destruct t; unfold movable; cbn [fst snd].
  - rewrite Hh in Hf. apply disciplined_can_step; assumption.
  - rewrite Hh in Hm.
    destruct (monitor_prog th) as [[] | e | R o k]; try discriminate.
    apply disciplined_can_step; assumption.
Qed.

Lemma lock_holder_can_move_witness :
  let s := schedule (repeat Mon 2)
             (mkThreads (event_loop [(20, 10); (20, 10)]) monitor_tick, demo_playing) in
  lock (state demo_playing) = None /\ lock (state (snd s)) = Some Mon /\
  movable Mon s = true /\ movable Fg s = true.
Proof.
  cbv zeta. split; [reflexivity |]. split; [reflexivity |].
  split; [| reflexivity].
  exact (@lock_holder_can_move [(20, 10); (20, 10)] (repeat Mon 2) demo_playing Mon
           eq_refl eq_refl).
Defined.

(** ** Keys that leave playback alone *)

(** A navigation key, in any state. *)
Lemma nav_any (k : nav) d c :
  exists h s,
    interp (handle_input (nav_code k) d) c =
    (Done false,
     mkConfig (with_redraw (state c) true)
              (with_start_index (with_highlight (self c) h) s)
              (os c)
              (accesses c ++ [mkAccess Fg CRedraw Wr (holds Fg (state c))])).
Proof.
  destruct c as [st [dir fs h s sh] o a]; cbn.
  destruct k; unfold handle_input, interp; cbn;
    repeat (split_if; cbn); eexists _, _; reflexivity.
Qed.

(** X12.  Moving the selection is all the navigation keys do.  An Up,
    Down, PageUp, PageDown, Home or End key, a key with no branch, or no
    key at all, in any state: the handler returns without breaking the
    loop, no process is launched, signalled or waited for, no random
    number is drawn and nothing is rendered; the slot, the finished
    signal and the lock are as before, and so are the directory, the
    library and the shuffle flag. *)
Theorem selection_keys_leave_playback (c : Config) (ch d : Z) :
  ch = ERR \/ (exists k, ch = nav_code k) \/ bound_key ch = false ->
  let r := interp (handle_input ch d) c in
  fst r = Done false /\
  os (snd r) = os c /\
  mpv_process (state (snd r)) = mpv_process (state c) /\
  child_finished (state (snd r)) = child_finished (state c) /\
  lock (state (snd r)) = lock (state c) /\
  directory (self (snd r)) = directory (self c) /\
  files (self (snd r)) = files (self c) /\
  shuffle_mode (self (snd r)) = shuffle_mode (self c).
Proof.
  intros H. cbv zeta.
  assert (H' : ch = ERR \/ (exists k, ch = nav_code k) \/
               (ch <> ERR /\ bound_key ch = false)).
  { destruct (Z.eq_dec ch ERR); tauto. }
  clear H. destruct H' as [-> | [[k ->] | [Hn Hb]]].
  - rewrite interp_key_none. repeat split; reflexivity.
  - destruct (nav_any k d c) as (h & s & ->). repeat split; reflexivity.
  - rewrite (@unbound_key_clears_redraw ch d c Hn Hb). repeat split; reflexivity.
Qed.

Lemma selection_keys_leave_playback_witness :
  (KEY_NPAGE = ERR \/ (exists k, KEY_NPAGE = nav_code k) \/ bound_key KEY_NPAGE = false) /\
  highlight (self (snd (interp (handle_input KEY_NPAGE 2) demo_playing))) = 2 /\
  os (snd (interp (handle_input KEY_NPAGE 2) demo_playing)) = os demo_playing.
Proof.
  assert (H : KEY_NPAGE = ERR \/ (exists k, KEY_NPAGE = nav_code k) \/
              bound_key KEY_NPAGE = false)
    by (right; left; exists NavPageDown; reflexivity).
  split; [exact H |]. split; [reflexivity |].
  exact (proj1 (proj2 (@selection_keys_leave_playback demo_playing KEY_NPAGE 2 H))).
Defined.

(** X13.  The shuffle key alone does not touch what plays.  Turning
    shuffle off, or turning it on while the slot holds a process, flips
    the flag and does nothing else: no process is launched or stopped,
    no random number is drawn, and the highlight and the window stay
    where they are. *)
Theorem toggle_keeps_session (c : Config) (ch d : Z) :
  ch = 115 \/ ch = 83 -> lock (state c) = None ->
  shuffle_mode (self c) = true \/ mpv_process (state c) <> None ->
  let r := interp (handle_input ch d) c in
  fst r = Done false /\
  self (snd r) = with_shuffle_mode (self c) (negb (shuffle_mode (self c))) /\
  os (snd r) = os c /\
  mpv_process (state (snd r)) = mpv_process (state c) /\
  child_finished (state (snd r)) = child_finished (state c) /\
  needs_redraw (state (snd r)) = true.
Proof.
  intros Hch Hl Hc. cbv zeta. rewrite (@interp_key_toggle ch d c Hch Hl).
  destruct (shuffle_mode (self c)) eqn:Es.
  - repeat split; reflexivity.
  - destruct Hc as [Hc | Hc]; [discriminate |].
    destruct (mpv_process (state c)) as [p |] eqn:Ep; [| congruence].
    cbn. rewrite Ep. repeat split; reflexivity.
Qed.

Lemma toggle_keeps_session_witness :
  (115 = 115 \/ 115 = 83) /\ lock (state demo_playing) = None /\
  (shuffle_mode (self demo_playing) = true \/ mpv_process (state demo_playing) <> None) /\
  shuffle_mode (self (snd (interp (handle_input 115 2) demo_playing))) = true /\
  os (snd (interp (handle_input 115 2) demo_playing)) = os demo_playing.
Proof.
  assert (H1 : 115 = 115 \/ 115 = 83) by (left; reflexivity).
  assert (H3 : shuffle_mode (self demo_playing) = true \/
               mpv_process (state demo_playing) <> None) by (right; discriminate).
  split; [exact H1 |]. split; [reflexivity |]. split; [exact H3 |].
  split; [reflexivity |].
  exact (proj1 (proj2 (proj2 (@toggle_keeps_session demo_playing 115 2 H1 eq_refl H3)))).
Defined.

(** ** The order of the players *)

(** The loop over the commands stops at the first whose program is found;
    those before it have failed, those after it are not tried. *)
Lemma launched_first before cmd after c :
  Forall (fun b => path_lookup (os c) (hd ""%string b) = Missing) before ->
  path_lookup (os c) (hd ""%string cmd) = Resolves ->
  let r := launched (before ++ cmd :: after) c in
  fst r = Done true /\
  mpv_process (state (snd r)) = Some (next_pid (os c)) /\
  alive (os (snd r)) = next_pid (os c) :: alive (os c) /\
  trace (os (snd r)) =
    trace (os c) ++ map EvSpawnFailed before ++ [EvSpawn cmd (next_pid (os c))].
Proof.
  cbv zeta. revert c. induction before as [| b before IH]; intros c Hb Hc.
  - cbn [app launched]. rewrite Hc. unfold spawn. rewrite Hc.
    repeat split; reflexivity.
  - inversion Hb as [| ? ? Hb1 Hb2]; subst.
    cbn [app launched]. rewrite Hb1.
    destruct (IH (set_os c (emit (EvSpawnFailed b) (os c))) Hb2 Hc)
      as (H1 & H2 & H3 & H4).
    split; [exact H1 |]. split; [exact H2 |]. split; [exact H3 |].
    rewrite H4. cbn [set_os os emit trace next_pid map].
    rewrite <- app_assoc. reflexivity.
Qed.

(** The path given to the player, in a directory and in the root. *)
Example filepath_in_root :
  filepath "/music" "a.mp3" = "/music/a.mp3"%string /\
  filepath "/" "a.mp3" = "/a.mp3"%string /\
  filepath "/music" "" = "/music"%string /\
  filepath "/music" "/tmp/a.mp3" = "/tmp/a.mp3"%string.
Proof. repeat split; reflexivity. Qed.

(** X14.  The order of preference.  Of the commands [play_file] builds,
    for mpv, mplayer and vlc in this order, the one launched is the first
    whose program is found: for each one before it a failed attempt is
    recorded, none after it is tried.  The process launched is recorded
    in the slot, and it is the only new one. *)
Theorem play_file_first_player (c : Config) (f : string)
    (before after : list (list string)) (cmd : list string) :
  lock (state c) = None ->
  players (filepath (directory (self c)) f) = before ++ cmd :: after ->
  Forall (fun b => path_lookup (os c) (hd ""%string b) = Missing) before ->
  path_lookup (os c) (hd ""%string cmd) = Resolves ->
  let r := interp (play_file f) c in
  fst r = Done true /\
  mpv_process (state (snd r)) = Some (next_pid (os c)) /\
  alive (os (snd r)) = next_pid (os c) :: alive (os (stopped c)) /\
  trace (os (snd r)) =
    trace (os c) ++ stop_events c ++
    map EvSpawnFailed before ++ [EvSpawn cmd (next_pid (os c))].
Proof.
  intros Hl Hp Hb Hc. cbv zeta. rewrite interp_play_file by exact Hl. rewrite Hp.
  assert (Hb' : Forall (fun b => path_lookup (os (stopped c)) (hd ""%string b) = Missing)
                       before) by (rewrite path_lookup_stopped; exact Hb).
  assert (Hc' : path_lookup (os (stopped c)) (hd ""%string cmd) = Resolves)
    by (rewrite path_lookup_stopped; exact Hc).
  destruct (@launched_first before cmd after (stopped c) Hb' Hc') as (H1 & H2 & H3 & H4).
  rewrite next_pid_stopped in *.
  split; [exact H1 |]. split; [exact H2 |]. split; [exact H3 |].
  rewrite H4, trace_stopped, <- app_assoc. reflexivity.
Qed.

Lemma play_file_first_player_witness :
  let path := "/music/b.mp3"%string in
  lock (state demo_mplayer) = None /\
  players (filepath (directory (self demo_mplayer)) "b.mp3") =
    [["mpv"; "--no-terminal"; "--quiet"; path]%string] ++
    ["mplayer"; "-quiet"; path]%string :: [["vlc"; "--intf"; "dummy"; path]%string] /\
  Forall (fun b => path_lookup (os demo_mplayer) (hd ""%string b) = Missing)
         [["mpv"; "--no-terminal"; "--quiet"; path]%string] /\
  path_lookup (os demo_mplayer) (hd ""%string ["mplayer"; "-quiet"; path]%string)
    = Resolves /\
  trace (os (snd (interp (play_file "b.mp3") demo_mplayer))) =
    [EvSpawnFailed ["mpv"; "--no-terminal"; "--quiet"; path]%string;
     EvSpawn ["mplayer"; "-quiet"; path]%string 0%nat].
Proof.
  cbv zeta.
  assert (Hb : Forall (fun b => path_lookup (os demo_mplayer) (hd ""%string b) = Missing)
                      [["mpv"; "--no-terminal"; "--quiet"; "/music/b.mp3"]%string])
    by (constructor; [reflexivity | constructor]).
  split; [reflexivity |]. split; [reflexivity |]. split; [exact Hb |].
  split; [reflexivity |].
  exact (proj2 (proj2 (proj2
    (@play_file_first_player demo_mplayer "b.mp3"
       [["mpv"; "--no-terminal"; "--quiet"; "/music/b.mp3"]%string]
       [["vlc"; "--intf"; "dummy"; "/music/b.mp3"]%string]
       ["mplayer"; "-quiet"; "/music/b.mp3"]%string
       eq_refl eq_refl Hb eq_refl)))).
Defined.

(** ** Turns and ticks that do not overlap *)

(** A turn of the monitor that finds a running process in the slot. *)
Lemma monitor_tick_running c p :
  lock (state c) = None -> mpv_process (state c) = Some p -> is_alive p (os c) = true ->
  interp_as Mon monitor_tick c = (Done tt, logged c [mkAccess Mon CProcess Rd true]).
Proof.
  destruct c as [[cf mp nr lk] m o a]. cbn [state lock mpv_process os].
  intros -> -> Ha. unfold monitor_tick. cbn. rewrite Ha. reflexivity.
Qed.

Lemma monitor_tick_safe c : safe c -> safe (snd (interp_as Mon monitor_tick c)).
Proof.
  intros [Hl H1].
  destruct (mpv_process (state c)) as [p |] eqn:Hm.
  - destruct (is_alive p (os c)) eqn:Ha.
    + rewrite (@monitor_tick_running c p Hl Hm Ha). split; assumption.
    + rewrite (@monitor_tick_exited c p Hl Hm Ha). split; [reflexivity |].
      unfold one_session in *. cbn [snd os state mpv_process].
      unfold is_alive in Ha.
      destruct (alive (os c)) as [| q [| q' l]]; [exact I | | contradiction].
      rewrite Hm in H1. injection H1 as ->.
      cbn in Ha. rewrite Nat.eqb_refl in Ha. discriminate.
  - rewrite (@monitor_tick_idle c Hl Hm). split; assumption.
Qed.

Lemma blocks_safe bs c : safe c -> Forall safe (blocks bs c).
Proof.
  revert c. induction bs as [| [term_y ch |] rest IH]; intros c Hs; cbn [blocks].
  - constructor.
  - pose proof (@keeps_loop_body term_y ch c Hs) as H1.
    destruct (interp (loop_body term_y ch) c) as [[[] | e |] c1]; cbn [snd] in H1.
    + constructor; [| constructor]. apply keeps_stop_playback. exact H1.
    + constructor; [exact H1 | apply IH; exact H1].
    + constructor; [exact H1 | constructor].
    + constructor; [exact H1 | constructor].
  - cbv zeta. pose proof (@monitor_tick_safe c Hs) as H1.
    constructor; [exact H1 | apply IH; exact H1].
Qed.

(** Operations of the main thread alone. *)
Lemma schedule_fg n p m c :
  schedule (repeat Fg n) (mkThreads p m, c) =
  (mkThreads (fst (steps n Fg p c)) m, snd (steps n Fg p c)).
Proof.
  unfold schedule. revert p c. induction n as [| n IH]; intros p c; [reflexivity |].
  cbn [repeat fold_left step steps main_prog monitor_prog].
  destruct (step_prog Fg p c) as [p' c']. apply IH.
Qed.

(** The main thread run up to the end of the first part of its program. *)
Lemma steps_bind (A B : Type) (p : prog A) (f : A -> prog B) c :
  exists n,
    snd (steps n Fg (bind p f) c) = snd (interp p c) /\
    match fst (interp p c) with
    | Done a => fst (steps n Fg (bind p f) c) = f a
    | Raised e => fst (steps n Fg (bind p f) c) = Raise e
    | Blocked => True
    end.
Proof.
  revert c. induction p as [a | e | R o k IH]; intros c.
  - exists 0%nat. split; reflexivity.
  - exists 0%nat. split; reflexivity.
  - unfold interp. cbn [interp_as].
    destruct (exec Fg o c) as [[r c'] |] eqn:E.
    + destruct (IH r c') as (n & H1 & H2). exists (S n).
      cbn [steps step_prog bind]. rewrite E. split; [exact H1 | exact H2].
    + exists 0%nat. split; [reflexivity | exact I].
Qed.

(** Operations of the monitor alone, within one turn of it. *)
Lemma schedule_mon (p : prog unit) mp c :
  exists n q,
    schedule (repeat Mon n) (mkThreads mp p, c) =
      (mkThreads mp q, snd (interp_as Mon p c)) /\
    (fst (interp_as Mon p c) = Done tt -> q = Ret tt).
Proof.
  revert c. induction p as [[] | e | R o k IH]; intros c.
  - exists 0%nat, (Ret tt). split; reflexivity.
  - exists 0%nat, (Raise e). split; [reflexivity | discriminate].
  - cbn [interp_as]. destruct (exec Mon o c) as [[r c'] |] eqn:E.
    + destruct (IH r c') as (n & q & H1 & H2). exists (S n), q.
      split; [| exact H2].
      unfold schedule in *. cbn [repeat fold_left step step_prog monitor_prog main_prog].
      rewrite E. exact H1.
    + exists 0%nat, (Act o k). split; [reflexivity | discriminate].
Qed.

Lemma monitor_tick_done c :
  lock (state c) = None -> fst (interp_as Mon monitor_tick c) = Done tt.
Proof.
  intros Hl. destruct (mpv_process (state c)) as [p |] eqn:Hm.
  - destruct (is_alive p (os c)) eqn:Ha.
    + rewrite (@monitor_tick_running c p Hl Hm Ha). reflexivity.
    + rewrite (@monitor_tick_exited c p Hl Hm Ha). reflexivity.
  - rewrite (@monitor_tick_idle c Hl Hm). reflexivity.
Qed.

(** A whole turn of the monitor, as operations of a schedule: the first
    one starts the body over if the last turn has ended. *)
Lemma schedule_tick mp mon c :
  mon = monitor_tick \/ mon = Ret tt -> lock (state c) = None ->
  exists n,
    schedule (repeat Mon n) (mkThreads mp mon, c) =
    (mkThreads mp (Ret tt), snd (interp_as Mon monitor_tick c)).
Proof.
  intros Hmon Hl.
  destruct (@schedule_mon monitor_tick mp c) as (n & q & H1 & H2).
  rewrite (H2 (@monitor_tick_done c Hl)) in H1.
  exists n. destruct Hmon as [-> | ->]; [exact H1 |].
  destruct n as [| n].
  - unfold schedule in H1. cbn [repeat fold_left] in H1. discriminate.
  - unfold schedule in *. cbn [repeat fold_left] in *. exact H1.
Qed.

Lemma last_cons (A : Type) (l : list A) (x d : A) : last (x :: l) d = last l x.
Proof.
  revert x d. induction l as [| y l IH]; intros x d; [reflexivity |].
  change (last (x :: y :: l) d) with (last (y :: l) d).
  rewrite (IH y d), (IH y x). reflexivity.
Qed.

Lemma schedule_app ts1 ts2 s : schedule (ts1 ++ ts2) s = schedule ts2 (schedule ts1 s).
Proof. unfold schedule. apply fold_left_app. Qed.

(** A run in blocks is one of the interleavings. *)
Lemma blocks_scheduled bs :
  forall c mon,
    safe c -> mon = monitor_tick \/ mon = Ret tt ->
    exists ts,
      snd (schedule ts (mkThreads (event_loop (plan_inputs bs)) mon, c)) =
      last (blocks bs c) c.
Proof.
  induction bs as [| [term_y ch |] rest IH]; intros c mon Hs Hmon.
  - exists []. reflexivity.
  - cbn [plan_inputs flat_map app blocks event_loop].
    fold (plan_inputs rest).
    set (f := fun quit : bool =>
                if quit then stop_playback else event_loop (plan_inputs rest)).
    destruct (@steps_bind _ _ (loop_body term_y ch) f c) as (n & H1 & H2).
    pose proof (@keeps_loop_body term_y ch c Hs) as Hs1.
    pose proof (@schedule_fg n (bind (loop_body term_y ch) f) mon c) as Hn.
    destruct (interp (loop_body term_y ch) c) as [[[] | e |] c1];
      cbn [fst snd] in *.
    + destruct (@steps_interp_as Fg _ stop_playback c1) as (n2 & H3).
      exists (repeat Fg n ++ repeat Fg n2).
      rewrite schedule_app, Hn, H1, H2. subst f. cbv beta iota.
      rewrite schedule_fg. cbn [snd last].
      change (interp stop_playback c1) with (interp_as Fg stop_playback c1).
      rewrite H3. reflexivity.
    + destruct (IH c1 mon Hs1 Hmon) as (ts & Hts).
      exists (repeat Fg n ++ ts).
      rewrite schedule_app, Hn, H1, H2. subst f. cbv beta iota.
      rewrite last_cons. exact Hts.
    + exists (repeat Fg n). rewrite Hn. cbn [snd last]. exact H1.
    + exists (repeat Fg n). rewrite Hn. cbn [snd last]. exact H1.
  - cbn [plan_inputs flat_map app blocks]. fold (plan_inputs rest). cbv zeta.
    destruct Hs as [Hl H1].
    destruct (@schedule_tick (event_loop (plan_inputs rest)) mon c Hmon Hl) as (n & Hn).
    pose proof (@monitor_tick_safe c (conj Hl H1)) as Hs1.
    destruct (IH (snd (interp_as Mon monitor_tick c)) (Ret tt) Hs1 (or_intror eq_refl))
      as (ts & Hts).
    exists (repeat Mon n ++ ts).
    rewrite schedule_app, Hn, last_cons. exact Hts.
Qed.

(** X15.  Without overlap, one session.  Let the monitor make its turns
    only between the turns of the loop of the main thread, each turn of
    either run to its end before the other thread goes on.  Such a run is
    one of the interleavings of the two threads: a schedule of their
    operations leads from the same start to its last state.  From a
    state with the lock free and at most one child, the one in the slot,
    the same holds after every turn of either thread, and after the
    cleanup: a second child, or a child that the slot has lost, needs a
    turn of the monitor that overlaps a turn of the loop. *)
Theorem whole_turns_keep_one_session (bs : list block) (c : Config) :
  safe c ->
  Forall safe (blocks bs c) /\
  exists ts,
    snd (schedule ts (mkThreads (event_loop (plan_inputs bs)) monitor_tick, c)) =
    last (blocks bs c) c.
Proof.
  intros Hs. split; [apply blocks_safe; exact Hs |].
  apply blocks_scheduled; [exact Hs | left; reflexivity].
Qed.

Lemma whole_turns_keep_one_session_witness :
  safe demo_playing /\
  Forall safe
    (blocks [Tick; Turn 20 10; Tick; Turn 20 10; Tick; Turn 20 113] demo_playing) /\
  map (fun c => alive (os c))
      (blocks [Tick; Turn 20 10; Tick; Turn 20 10; Tick; Turn 20 113] demo_playing) =
    [[0%nat]; [1%nat]; [1%nat]; [2%nat]; [2%nat]; []].
Proof.
  assert (H : safe demo_playing) by (split; reflexivity).
  split; [exact H |]. split; [| vm_compute; reflexivity].
  exact (proj1 (@whole_turns_keep_one_session
                  [Tick; Turn 20 10; Tick; Turn 20 10; Tick; Turn 20 113]
                  demo_playing H)).
Defined.

(** The state a run in blocks ends in is the last of its states. *)
Lemma finish_last bs c : snd (finish bs c) = last (blocks bs c) c.
Proof.
  revert c. induction bs as [| [term_y ch |] rest IH]; intros c; cbn [finish blocks].
  - reflexivity.
  - destruct (interp (loop_body term_y ch) c) as [[[] | e |] c1];
      [| rewrite last_cons; apply IH | reflexivity | reflexivity].
    destruct (interp stop_playback c1) as [[u | e |] c2]; reflexivity.
  - cbv zeta. rewrite last_cons. apply IH.
Qed.

(** X6.  After a quit, no child, where turns do not overlap.  Let the
    monitor make its turns only between the turns of the loop, each turn
    of either thread run to its end before the other goes on, the cleanup
    included.  When such a run, from a state with the lock free and at
    most one child, the one in the slot, has left the loop on a quit key
    and cleaned up, the slot is empty, no process of a player runs and
    the lock is free.  The run is one of the interleavings of the two
    threads: a schedule of their operations leads from the same start to
    that state. *)
Theorem quit_leaves_no_child (bs : list block) (c : Config) :
  safe c -> fst (finish bs c) = Done true ->
  mpv_process (state (snd (finish bs c))) = None /\
  alive (os (snd (finish bs c))) = [] /\
  lock (state (snd (finish bs c))) = None /\
  exists ts,
    snd (schedule ts (mkThreads (event_loop (plan_inputs bs)) monitor_tick, c)) =
    snd (finish bs c).
Proof.
  intros Hs Hd.
  assert (H : mpv_process (state (snd (finish bs c))) = None /\
              alive (os (snd (finish bs c))) = [] /\
              lock (state (snd (finish bs c))) = None).
  { revert c Hs Hd.
    induction bs as [| [term_y ch |] rest IH]; intros c Hs; cbn [finish];
      [discriminate | |].
    - pose proof (@keeps_loop_body term_y ch c Hs) as Hs1.
      destruct (interp (loop_body term_y ch) c) as [[[] | e |] c1];
        cbn [fst snd] in *; try discriminate.
      + destruct Hs1 as [Hl H1]. rewrite interp_stop_playback by exact Hl.
        intros _. cbn [snd].
        split; [apply mpv_process_stopped |].
        split; [apply alive_stopped; exact H1 | apply lock_stopped; exact Hl].
      + apply IH. exact Hs1.
    - apply IH. apply monitor_tick_safe. exact Hs. }
  destruct H as (H1 & H2 & H3).
  do 3 (split; [assumption |]).
  rewrite finish_last. apply blocks_scheduled; [exact Hs | left; reflexivity].
Qed.

Lemma quit_leaves_no_child_witness :
  safe demo_playing /\
  fst (finish [Tick; Turn 20 10; Tick; Turn 20 113; Tick] demo_playing) = Done true /\
  In (EvSpawn ["mpv"; "--no-terminal"; "--quiet"; "/music/a.mp3"]%string 1%nat)
     (trace (os (snd (finish [Tick; Turn 20 10; Tick; Turn 20 113; Tick]
                        demo_playing)))) /\
  alive (os (snd (finish [Tick; Turn 20 10; Tick; Turn 20 113; Tick]
                    demo_playing))) = [].
Proof.
  assert (H1 : safe demo_playing) by (split; reflexivity).
  assert (H2 : fst (finish [Tick; Turn 20 10; Tick; Turn 20 113; Tick] demo_playing)
               = Done true) by (vm_compute; reflexivity).
  split; [exact H1 |]. split; [exact H2 |]. split; [vm_compute; tauto |].
  exact (proj1 (proj2
    (@quit_leaves_no_child [Tick; Turn 20 10; Tick; Turn 20 113; Tick]
       demo_playing H1 H2))).
Defined.

(** Whole turns of the monitor over an empty slot change nothing but the
    record of its reads. *)
Lemma ticks_idle n c :
  lock (state c) = None -> mpv_process (state c) = None ->
  state (last (blocks (repeat Tick n) c) c) = state c /\
  self (last (blocks (repeat Tick n) c) c) = self c /\
  os (last (blocks (repeat Tick n) c) c) = os c.
Proof.
  revert c. induction n as [| n IH]; intros c Hl Hm; cbn [repeat blocks].
  - repeat split; reflexivity.
  - cbv zeta. rewrite last_cons, (@monitor_tick_idle c Hl Hm). cbn [snd].
    destruct (IH (logged c [mkAccess Mon CProcess Rd true]) Hl Hm) as (H1 & H2 & H3).
    rewrite H1, H2, H3. repeat split; reflexivity.
Qed.

(** X7.  Stopping by hand starts nothing, where the monitor comes after.
    Let the Space key be handled, from a state with the lock free, at
    most one child, the one in the slot, and no finished signal; then let
    the monitor make any number of turns, each begun after the key has
    been handled and run to its end; then let the loop make an idle turn.
    The monitor finds the slot empty and leaves [PlayerState] as it is:
    no finished signal is raised for the process that was stopped.  The
    idle turn draws one frame and launches nothing, also when shuffle is
    on: the only events since before the key are those of stopping and
    that frame.  (A turn of the monitor that had read the slot before the
    key is no such turn: see [stop_key_overlapped].) *)
Theorem stop_key_does_not_advance (c : Config) (d term_y : Z) (n : nat) :
  safe c -> child_finished (state c) = false ->
  let c1 := snd (interp (handle_input 32 d) c) in
  let c2 := last (blocks (repeat Tick n) c1) c1 in
  let r := interp (loop_body term_y ERR) c2 in
  state c2 = state c1 /\
  fst r = Done false /\
  self (snd r) = self c /\
  mpv_process (state (snd r)) = None /\
  alive (os (snd r)) = [] /\
  child_finished (state (snd r)) = false /\
  trace (os (snd r)) = trace (os c) ++ stop_events c ++ [EvRender (self c) false].
Proof.
  intros [Hl H1] Hc. cbv zeta.
  rewrite interp_key_space.
  rewrite (@interp_stop_playback (keyed c) Hl). cbn [and_then snd].
  pose proof (@lock_stopped (keyed c) Hl) as Hl1.
  pose proof (mpv_process_stopped (keyed c)) as Hm1.
  pose proof (@needs_redraw_stopped (keyed c) eq_refl) as Hn1.
  pose proof (child_finished_stopped (keyed c)) as Hc1.
  pose proof (self_stopped (keyed c)) as Hs1.
  pose proof (@alive_stopped (keyed c) H1) as Ha1.
  pose proof (trace_stopped (keyed c)) as Ht1.
  change (child_finished (state (keyed c))) with (child_finished (state c)) in Hc1.
  change (self (keyed c)) with (self c) in Hs1.
  change (trace (os (keyed c))) with (trace (os c)) in Ht1.
  change (stop_events (keyed c)) with (stop_events c) in Ht1.
  rewrite Hc in Hc1.
  remember (stopped (keyed c)) as c1 eqn:E1. clear E1.
  destruct (@ticks_idle n c1 Hl1 Hm1) as (Est & Eself & Eos).
  remember (last (blocks (repeat Tick n) c1) c1) as c2 eqn:E2. clear E2.
  split; [exact Est |].
  assert (Hl2 : lock (state c2) = None) by (rewrite Est; exact Hl1).
  assert (Hn2 : needs_redraw (state c2) = true) by (rewrite Est; exact Hn1).
  assert (Hc2 : child_finished (state c2) = false) by (rewrite Est; exact Hc1).
  rewrite (@idle_turn_draws term_y c2 Hl2 Hn2 Hc2).
  cbn [fst snd logged drawn state self os accesses emit trace alive
       with_redraw mpv_process child_finished].
  rewrite Est, Eself, Eos, Hm1, Hs1, Ht1, <- app_assoc.
  repeat match goal with |- _ /\ _ => split end; assumption || reflexivity.
Qed.

Lemma stop_key_does_not_advance_witness :
  let c := mkConfig (mkPlayerState false (Some 0%nat) false None)
                    (mkMediaPlayer "/music" abc 1 0 true)
                    (with_alive demo_os [0%nat]) [] in
  safe c /\ child_finished (state c) = false /\
  shuffle_mode (self c) = true /\
  alive (os (snd (interp (loop_body 20 ERR)
               (last (blocks (repeat Tick 3) (snd (interp (handle_input 32 7) c)))
                     (snd (interp (handle_input 32 7) c)))))) = [].
Proof.
  cbv zeta.
  assert (H1 : safe (mkConfig (mkPlayerState false (Some 0%nat) false None)
                    (mkMediaPlayer "/music" abc 1 0 true)
                    (with_alive demo_os [0%nat]) [])) by (split; reflexivity).
  split; [exact H1 |]. split; [reflexivity |]. split; [reflexivity |].
  exact (proj1 (proj2 (proj2 (proj2 (proj2
    (@stop_key_does_not_advance _ 7 20 3 H1 eq_refl)))))).
Defined.

(** The order matters.  With shuffle on, the monitor reads the slot (3
    operations); the main thread handles the Space key and stops process
    0; the monitor goes on (7 operations): the process it had read has
    exited, so it raises the finished signal; the idle turns of the loop
    then launch process 1 for a random file. *)
Lemma stop_key_overlapped :
  let s1 := schedule (repeat Mon 3 ++ repeat Fg 14) demo_overlap in
  let s2 := schedule (repeat Mon 7) s1 in
  let s3 := schedule (repeat Fg 80) s2 in
  shuffle_mode (self (snd demo_overlap)) = true /\
  mpv_process (state (snd s1)) = None /\ alive (os (snd s1)) = [] /\
  child_finished (state (snd s1)) = false /\
  child_finished (state (snd s2)) = true /\
  mpv_process (state (snd s3)) = Some 1%nat /\ alive (os (snd s3)) = [1%nat].
Proof. vm_compute. repeat split; reflexivity. Qed.

(** ** Media files *)

Lemma length_append (s t : string) :
  String.length (s ++ t) = (String.length s + String.length t)%nat.
Proof. induction s as [| c s IH]; cbn; [reflexivity | rewrite IH; reflexivity]. Qed.

Lemma take_drop i s : (take i s ++ drop i s)%string = s.
Proof.
  revert s. induction i as [| i IH]; intros [| c r]; cbn; try reflexivity.
  rewrite IH. reflexivity.
Qed.

Lemma drop_append (s t : string) : drop (String.length s) (s ++ t) = t.
Proof. induction s as [| c s IH]; cbn; [destruct t; reflexivity | exact IH]. Qed.

Lemma rfind_append_dot (s r : string) :
  rfind "." r = None ->
  rfind "." (s ++ String "." r) = Some (String.length s).
Proof.
  intros H. induction s as [| c s IH]; cbn.
  - rewrite H. reflexivity.
  - rewrite IH. reflexivity.
Qed.

Lemma rfind_cons_none ch c r :
  rfind ch (String c r) = None <-> Ascii.eqb c ch = false /\ rfind ch r = None.
Proof.
  cbn. destruct (rfind ch r); [split; [discriminate | intros [_ H]; discriminate] |].
  destruct (Ascii.eqb c ch); split; try discriminate; try tauto.
  intros [H _]. discriminate.
Qed.

Lemma lower_byte_dot c : lower_byte c = "."%char -> c = "."%char.
Proof.
  destruct c as [[] [] [] [] [] [] [] []]; vm_compute; intros H;
    try discriminate; reflexivity.
Qed.

(** The two ways [lower] goes on at a character. *)
Lemma lower_cons c r :
  (exists r3, c = "226"%char /\ r = String "132" (String "170" r3) /\
              lower (String c r) = String "k" (lower r3)) \/
  lower (String c r) = String (lower_byte c) (lower r).
Proof.
  destruct r as [| c2 [| c3 r3]]; cbn [lower]; try (right; reflexivity).
  destruct (Ascii.eqb_spec c "226"); [| right; reflexivity].
  destruct (Ascii.eqb_spec c2 "132"); [| right; reflexivity].
  destruct (Ascii.eqb_spec c3 "170"); [| right; reflexivity].
  subst. left. exists r3. repeat split; reflexivity.
Qed.

Lemma lower_empty s : lower s = EmptyString -> s = EmptyString.
Proof.
  destruct s as [| c r]; [reflexivity |].
  destruct (lower_cons c r) as [(r3 & _ & _ & E) | E]; rewrite E; discriminate.
Qed.

(** Lowering brings no dot in, and takes none out. *)
Lemma rfind_dot_lower s : rfind "." (lower s) = None -> rfind "." s = None.
Proof.
  remember (String.length s) as n eqn:En.
  assert (Hn : (String.length s <= n)%nat) by lia. clear En.
  revert s Hn. induction n as [| n IH]; intros [| c r] Hn H; try reflexivity;
    cbn [String.length] in Hn; [lia |].
  destruct (lower_cons c r) as [(r3 & -> & -> & E) | E]; rewrite E in H;
    apply rfind_cons_none in H; destruct H as [Hc H].
  - cbn [String.length] in Hn. apply IH in H; [| lia].
    cbn. rewrite H. reflexivity.
  - apply IH in H; [| lia]. apply rfind_cons_none. split; [| exact H].
    destruct (Ascii.eqb_spec c "."); [subst c; discriminate | reflexivity].
Qed.

Lemma lower_dot_head e y :
  lower e = String "." y -> exists r, e = String "." r /\ lower r = y.
Proof.
  destruct e as [| c r]; [discriminate |].
  destruct (lower_cons c r) as [(r3 & _ & _ & E) | E]; rewrite E; intros H;
    injection H as Hc Hr; [discriminate |].
  apply lower_byte_dot in Hc. subst c. exists r. split; [reflexivity | exact Hr].
Qed.

(** Every extension is a dot and then at least one character, none a dot. *)
Lemma extension_shape x :
  In x MEDIA_EXTENSIONS ->
  exists y, x = String "." y /\ rfind "." y = None /\ y <> EmptyString.
Proof.
  unfold MEDIA_EXTENSIONS. cbn [In]. intros H.
  repeat (destruct H as [<- | H];
          [eexists; split; [reflexivity | split; [reflexivity | discriminate]] |]).
  contradiction.
Qed.

Lemma is_media_file_in name :
  is_media_file name = true <-> In (lower (suffix name)) MEDIA_EXTENSIONS.
Proof.
  unfold is_media_file. rewrite existsb_exists. split.
  - intros (x & Hx & E). apply String.eqb_eq in E. rewrite E. exact Hx.
  - intros H. exists (lower (suffix name)). split; [exact H | apply String.eqb_refl].
Qed.

(** X16.  Which names are media files.  A name is one exactly when it is a
    stem that is not empty followed by an ending whose lower case is one
    of the thirteen extensions: the case of the ending does not matter,
    what comes before the last dot does not matter either, and a name that is
    nothing but an extension, as [.mp3], is none. *)
Theorem is_media_file_iff (name : string) :
  is_media_file name = true <->
  exists stem ext,
    name = (stem ++ ext)%string /\ stem <> EmptyString /\
    In (lower ext) MEDIA_EXTENSIONS.
Proof.
  rewrite is_media_file_in. split.
  - unfold suffix. intros H.
    destruct (rfind "." name) as [i |] eqn:Ei; [| cbn in H; intuition discriminate].
    destruct ((0 <? i)%nat && (i <? String.length name - 1)%nat) eqn:Et;
      [| cbn in H; intuition discriminate].
    apply andb_true_iff in Et. destruct Et as [H0 H1].
    apply Nat.ltb_lt in H0, H1.
    exists (take i name), (drop i name).
    split; [symmetry; apply take_drop |]. split; [| exact H].
    destruct i as [| j]; [lia |].
    destruct name as [| c r]; [cbn in H1; lia | discriminate].
  - intros (stem & ext & -> & Hs & H).
    destruct (@extension_shape _ H) as (y & Ey & Hy & Hne).
    destruct (@lower_dot_head _ _ Ey) as (r & -> & Hr). subst y.
    apply rfind_dot_lower in Hy.
    assert (Hr : r <> EmptyString) by (intros ->; apply Hne; reflexivity).
    unfold suffix. rewrite rfind_append_dot by exact Hy.
    rewrite length_append. cbn [String.length].
    assert (H0 : (0 <? String.length stem)%nat = true).
    { apply Nat.ltb_lt. destruct stem; [contradiction | cbn; lia]. }
    assert (H1 : (String.length stem <?
                  String.length stem + S (String.length r) - 1)%nat = true).
    { apply Nat.ltb_lt. destruct r; [contradiction | cbn; lia]. }
    rewrite H0, H1. cbn [andb]. rewrite drop_append. exact H.
Qed.

Lemma is_media_file_iff_witness :
  is_media_file "Live.Set.FLAC" = true /\
  exists stem ext,
    "Live.Set.FLAC"%string = (stem ++ ext)%string /\ stem <> EmptyString /\
    In (lower ext) MEDIA_EXTENSIONS.
Proof.
  split; [reflexivity |].
  exact (proj1 (is_media_file_iff "Live.Set.FLAC") eq_refl).
Defined.

Example is_media_file_samples :
  is_media_file "a.mp3" = true /\ is_media_file "Live.Set.FLAC" = true /\
  is_media_file (String "x" (String "." (String "m"
     (String "226" (String "132" (String "170" (String "v" EmptyString))))))) = true /\
  is_media_file ".mp3" = false /\ is_media_file "mp3" = false /\
  is_media_file "a.mp3.txt" = false /\ is_media_file "a.mp3." = false.
Proof. vm_compute. repeat split; reflexivity. Qed.

(** ** Loading the library *)

Lemma lex_leb_trans (a b c : list N) :
  lex_leb a b = true -> lex_leb b c = true -> lex_leb a c = true.
Proof.
  revert b c. induction a as [| x a IH]; intros [| y b] [| z c]; cbn;
    try congruence.
  destruct (N.ltb_spec x y), (N.ltb_spec y x), (N.ltb_spec y z), (N.ltb_spec z y),
           (N.ltb_spec x z), (N.ltb_spec z x);
    try congruence; try lia.
  apply IH.
Qed.

Lemma lex_leb_total (a b : list N) : lex_leb a b = true \/ lex_leb b a = true.
Proof.
  revert b. induction a as [| x a IH]; intros [| y b]; cbn; auto.
  destruct (N.ltb_spec x y), (N.ltb_spec y x); auto; try lia.
Qed.

Lemma name_le_trans a b c : name_le a b -> name_le b c -> name_le a c.
Proof. apply lex_leb_trans. Qed.

Lemma name_le_total a b : name_le a b \/ name_le b a.
Proof. apply lex_leb_total. Qed.

Lemma insert_sorted_perm x l : Permutation (insert_sorted x l) (x :: l).
Proof.
  induction l as [| y r IH]; cbn; [reflexivity |].
  destruct (name_leb x y); [reflexivity |].
  rewrite IH. apply perm_swap.
Qed.

Lemma sort_perm l : Permutation (sort l) l.
Proof.
  induction l as [| x r IH]; cbn; [reflexivity |].
  rewrite insert_sorted_perm, IH. reflexivity.
Qed.

Lemma insert_sorted_sorted x l :
  StronglySorted name_le l -> StronglySorted name_le (insert_sorted x l).
Proof.
  induction 1 as [| y r Hr IH Hy]; cbn; [repeat constructor |].
  destruct (name_leb x y) eqn:E.
  - constructor; [constructor; assumption |].
    constructor; [exact E |].
    apply Forall_impl with (P := name_le y); [| exact Hy].
    intros z Hz. exact (@name_le_trans x y z E Hz).
  - constructor; [exact IH |].
    assert (F : Forall (name_le y) (x :: r)).
    2: { apply Forall_forall. intros z Hz.
         apply (Permutation_in _ (insert_sorted_perm x r)) in Hz.
         exact (proj1 (Forall_forall _ _) F z Hz). }
    constructor; [| exact Hy].
    destruct (name_le_total x y) as [H | H]; [unfold name_le in H; congruence | exact H].
Qed.

Lemma sort_sorted l : StronglySorted name_le (sort l).
Proof.
  induction l as [| x r IH]; cbn; [constructor | apply insert_sorted_sorted, IH].
Qed.

Lemma collect_filter entries : collect entries = map fst (filter wanted entries).
Proof.
  unfold collect.
  assert (G : forall acc,
             fold_left (fun fs entry => if wanted entry then fs ++ [fst entry] else fs)
                       entries acc
             = acc ++ map fst (filter wanted entries)).
  { induction entries as [| e r IH]; intros acc; cbn; [symmetry; apply app_nil_r |].
    rewrite IH. destruct (wanted e); cbn; [rewrite <- app_assoc |]; reflexivity. }
  apply (G []).
Qed.

Lemma in_collect name entries :
  In name (collect entries) <->
  In (name, true) entries /\ hidden name = false /\ is_media_file name = true.
Proof.
  rewrite collect_filter, in_map_iff. split.
  - intros ([n b] & <- & H). apply filter_In in H. destruct H as [Hin Hw].
    unfold wanted in Hw. cbn [fst snd] in *.
    apply andb_true_iff in Hw. destruct Hw as [Hw Hm].
    apply andb_true_iff in Hw. destruct Hw as [Hf Hh].
    subst b. apply negb_true_iff in Hh. tauto.
  - intros (Hin & Hh & Hm). exists (name, true). split; [reflexivity |].
    apply filter_In. split; [exact Hin |].
    unfold wanted. cbn [fst snd]. rewrite Hh, Hm. reflexivity.
Qed.

Lemma getcwd_some w : getcwd w <> None -> getcwd w = Some (cwd w).
Proof. unfold getcwd. destruct (node_at w (cwd w)); congruence. Qed.

Lemma chdir_getcwd w : chdir (cwd w) w <> None -> getcwd w = Some (cwd w).
Proof.
  intros H. apply getcwd_some. unfold chdir, getcwd in *.
  destruct (node_at w (cwd w)); congruence.
Qed.

(** [load_media_files] on a directory that lets itself be entered and
    listed. *)
Lemma load_media_files_ok m w d entries :
  getcwd w <> None ->
  node_at w (directory m) = IsDir d -> enterable d = true ->
  listing d = Some entries ->
  load_media_files m w =
  (inr (Z.of_nat (List.length (sort (collect entries)))),
   with_files m (sort (collect entries)),
   mkWorld (node_at w) (directory m)).
Proof.
  intros Hc Hn He Hls. unfold load_media_files. rewrite Hn, (@getcwd_some w Hc).
  unfold chdir, listdir. rewrite Hn, He.
  cbn [node_at cwd]. rewrite Hn, Hls. reflexivity.
Qed.

(** An undecodable byte sorts as its surrogate: the name of the single
    byte 255 comes before the name of U+E000 (bytes 238, 128, 128), though
    byte 238 is below byte 255. *)
Example sort_by_code_points :
  let stray := String "255" ".mp3" in
  let private := String "238" (String "128" (String "128" ".mp3")) in
  code_points stray = [56575; 46; 109; 112; 51]%N /\
  code_points private = [57344; 46; 109; 112; 51]%N /\
  sort [private; stray] = [stray; private] /\
  String.leb private stray = true.
Proof. vm_compute. repeat split; reflexivity. Qed.

(** X17.  What a successful load leaves.  For a directory that can be
    entered and listed, the working directory being there,
    [load_media_files] returns the number of names it has put into
    [files], leaves the other attributes alone and the working directory
    in that directory.  The names are in the ascending order of
    [list.sort], that of their code points, a byte that is no part of
    well-formed UTF-8 counting as the surrogate Python reads it as; and
    they are those of the listing that are regular files, do not start
    with a dot and have a media extension: each as often as it is listed,
    none else. *)
Theorem load_media_files_sorted (m : MediaPlayer) (w : World)
    (d : dir_info) (entries : list (string * bool)) :
  getcwd w <> None ->
  node_at w (directory m) = IsDir d -> enterable d = true ->
  listing d = Some entries ->
  exists fs,
    load_media_files m w =
      (inr (Z.of_nat (List.length fs)), with_files m fs,
       mkWorld (node_at w) (directory m)) /\
    StronglySorted name_le fs /\
    Permutation fs (map fst (filter wanted entries)) /\
    forall name,
      In name fs <->
      In (name, true) entries /\ hidden name = false /\ is_media_file name = true.
Proof.
  intros Hc Hn He Hls. exists (sort (collect entries)).
  split; [exact (@load_media_files_ok m w d entries Hc Hn He Hls) |].
  split; [apply sort_sorted |].
  split; [rewrite <- collect_filter; apply sort_perm |].
  intros name. rewrite <- in_collect. split; apply Permutation_in.
  - apply sort_perm.
  - symmetry. apply sort_perm.
Qed.

Lemma load_media_files_sorted_witness :
  getcwd demo_world <> None /\
  node_at demo_world (directory (init_self "/music" [])) =
    IsDir (mkDir true (Some [("b.mp3", true); (".hidden.mp3", true);
                             ("a.MP3", true); ("notes.txt", true);
                             ("sub.mp3", false)]%string)) /\
  load_media_files (init_self "/music" []) demo_world =
    (inr 2, init_self "/music" ["a.MP3"; "b.mp3"]%string,
     mkWorld (node_at demo_world) "/music") /\
  exists fs,
    load_media_files (init_self "/music" []) demo_world =
      (inr (Z.of_nat (List.length fs)), with_files (init_self "/music" []) fs,
       mkWorld (node_at demo_world) (directory (init_self "/music" []))) /\
    StronglySorted name_le fs.
Proof.
  assert (H : getcwd demo_world <> None) by discriminate.
  split; [exact H |]. split; [reflexivity |]. split; [reflexivity |].
  destruct (@load_media_files_sorted (init_self "/music" []) demo_world _ _
              H eq_refl eq_refl eq_refl) as (fs & H1 & H2 & _).
  exists fs. split; [exact H1 | exact H2].
Defined.

(** [load_media_files] fails in one way, and leaves the attributes and
    the disk alone. *)
Lemma load_media_files_error m w e :
  fst (fst (load_media_files m w)) = inl e ->
  e = OSError /\ snd (fst (load_media_files m w)) = m /\
  node_at (snd (load_media_files m w)) = node_at w.
Proof.
  unfold load_media_files, listdir, restore, chdir.
  destruct (node_at w (directory m)) as [| | d];
    try (cbn; intros E; injection E as <-; auto).
  destruct (getcwd w) as [o |]; [| cbn; intros E; injection E as <-; auto].
  destruct (enterable d); cbn [node_at cwd].
  - destruct (node_at w (directory m)) as [| | d1];
      try (cbn; destruct (node_at w o) as [| | d2]; try destruct (enterable d2);
           cbn; intros E; injection E as <-; auto).
    destruct (listing d1); cbv zeta; cbn [fst snd]; [discriminate |].
    destruct (node_at w o) as [| | d2]; try destruct (enterable d2);
      cbn; intros E; injection E as <-; auto.
  - destruct (node_at w o) as [| | d2]; try destruct (enterable d2);
      cbn; intros E; injection E as <-; auto.
Qed.

(** X18.  What a failed load leaves.  Let the process be in a directory
    that can be entered.  [load_media_files] fails exactly when its
    directory is missing, is no directory, cannot be entered or cannot be
    listed; what it raises is an [OSError].  The attributes, [files]
    among them, are then as before, nothing on the disk has changed, and
    the process is in the directory it was in. *)
Theorem load_media_files_failure (m : MediaPlayer) (w : World) :
  chdir (cwd w) w <> None ->
  let r := load_media_files m w in
  ((exists e, fst (fst r) = inl e) <->
   ~ exists d entries,
       node_at w (directory m) = IsDir d /\ enterable d = true /\
       listing d = Some entries) /\
  forall e, fst (fst r) = inl e ->
    e = OSError /\ snd (fst r) = m /\
    node_at (snd r) = node_at w /\ cwd (snd r) = cwd w.
Proof.
  intros Hc. cbv zeta. split.
  - split.
    + intros (e & E) (d & entries & Hn & He & Hls).
      rewrite (@load_media_files_ok m w d entries) in E; try assumption;
        [discriminate |].
      rewrite (@chdir_getcwd w Hc). discriminate.
    + intros H. unfold load_media_files, listdir.
      destruct (node_at w (directory m)) as [| | d] eqn:Hn; cbn; eauto.
      rewrite (@chdir_getcwd w Hc).
      assert (Ec1 : chdir (directory m) w =
                    if enterable d then Some (mkWorld (node_at w) (directory m)) else None)
        by (unfold chdir; rewrite Hn; reflexivity).
      rewrite Ec1. destruct (enterable d) eqn:He; cbn; eauto.
      rewrite Hn. destruct (listing d) as [entries |] eqn:Hls; cbn; eauto.
      exfalso. apply H. exists d, entries. auto.
  - intros e E.
    destruct (@load_media_files_error m w e E) as (He & Hm & Hn).
    do 3 (split; [assumption |]).
    revert E. unfold load_media_files, listdir, restore.
    destruct (node_at w (directory m)) as [| | d] eqn:Hd; try reflexivity.
    rewrite (@chdir_getcwd w Hc).
    assert (Ec1 : chdir (directory m) w =
                  if enterable d then Some (mkWorld (node_at w) (directory m)) else None)
      by (unfold chdir; rewrite Hd; reflexivity).
    rewrite Ec1. clear Ec1.
    assert (Ec2 : forall p, chdir (cwd w) (mkWorld (node_at w) p) = Some w).
    { intros p. unfold chdir in *. cbn [node_at].
      destruct (node_at w (cwd w)) as [| | d0]; try congruence.
      destruct (enterable d0); [destruct w; reflexivity | congruence]. }
    destruct (enterable d).
    + cbn [node_at cwd]. rewrite Hd.
      destruct (listing d); cbv zeta; cbn [fst snd]; [discriminate |].
      rewrite Ec2. reflexivity.
    + pose proof (Ec2 (cwd w)) as Ec3.
      assert (Ew : mkWorld (node_at w) (cwd w) = w) by (destruct w; reflexivity).
      rewrite Ew in Ec3. rewrite Ec3. reflexivity.
Qed.

Lemma load_media_files_failure_witness :
  chdir (cwd demo_world) demo_world <> None /\
  load_media_files (init_self "/locked" ["old.mp3"]%string) demo_world =
    (inl OSError, init_self "/locked" ["old.mp3"]%string, demo_world) /\
  forall e,
    fst (fst (load_media_files (init_self "/locked" ["old.mp3"]%string) demo_world))
      = inl e ->
    e = OSError /\
    snd (fst (load_media_files (init_self "/locked" ["old.mp3"]%string) demo_world))
      = init_self "/locked" ["old.mp3"]%string /\
    node_at (snd (load_media_files (init_self "/locked" ["old.mp3"]%string) demo_world))
      = node_at demo_world /\
    cwd (snd (load_media_files (init_self "/locked" ["old.mp3"]%string) demo_world))
      = cwd demo_world.
Proof.
  assert (H : chdir (cwd demo_world) demo_world <> None) by discriminate.
  split; [exact H |]. split; [reflexivity |].
  exact (proj2 (@load_media_files_failure
                  (init_self "/locked" ["old.mp3"]%string) demo_world H)).
Defined.

(** ** From start to end *)

(** A load that succeeds has found its directory in order. *)
Lemma load_media_files_inr m w n m' w' :
  load_media_files m w = (inr n, m', w') ->
  exists d entries,
    node_at w (directory m) = IsDir d /\ enterable d = true /\
    listing d = Some entries /\
    n = Z.of_nat (List.length (sort (collect entries))) /\
    m' = with_files m (sort (collect entries)) /\
    w' = mkWorld (node_at w) (directory m).
Proof.
  unfold load_media_files, listdir.
  destruct (node_at w (directory m)) as [| | d] eqn:Hn; try discriminate.
  destruct (getcwd w); [| discriminate].
  assert (Ec1 : chdir (directory m) w =
                if enterable d then Some (mkWorld (node_at w) (directory m)) else None)
    by (unfold chdir; rewrite Hn; reflexivity).
  rewrite Ec1. destruct (enterable d) eqn:He; [| discriminate].
  cbn [node_at cwd]. rewrite Hn.
  destruct (listing d) as [entries |] eqn:Hls; [| discriminate].
  cbv zeta. intros E. injection E as <- <- <-.
  exists d, entries. repeat split; assumption || reflexivity.
Qed.

Lemma sort_nil l : sort l = [] -> l = [].
Proof.
  intros H. pose proof (sort_perm l) as P. rewrite H in P.
  apply Permutation_nil. exact P.
Qed.

Lemma collect_nil entries :
  collect entries = [] <-> forall e, In e entries -> wanted e = false.
Proof.
  rewrite collect_filter. split.
  - intros H e Hin. destruct (wanted e) eqn:E; [| reflexivity].
    assert (Hf : In e (filter wanted entries)) by (apply filter_In; auto).
    apply (in_map fst) in Hf. rewrite H in Hf. contradiction.
  - intros H. induction entries as [| e r IH]; [reflexivity |].
    cbn. rewrite (H e (or_introl eq_refl)). apply IH.
    intros e' Hin. apply H. right. exact Hin.
Qed.

(** X19.  A start that does not reach the loop.  When [run] ends with a
    text, nothing has been launched and nothing drawn: [PlayerState] and
    the processes are as before.  The text is that of an empty library
    exactly when the directory could be entered and listed and no entry
    of it is a regular file with a media extension that does not start
    with a dot; [files] is then empty and the process has moved into the
    directory.  Otherwise the text is that of the error, and the
    attributes are as before. *)
Theorem run_without_media (c : Config) (w : World) (inputs : list (Z * keyboard))
    (text : message) :
  let r := run c w inputs in
  fst (fst r) = Message text ->
  state (snd (fst r)) = state c /\ os (snd (fst r)) = os c /\
  accesses (snd (fst r)) = accesses c /\
  match text with
  | NoMediaFiles =>
      files (self (snd (fst r))) = [] /\ cwd (snd r) = directory (self c) /\
      exists d entries,
        node_at w (directory (self c)) = IsDir d /\ enterable d = true /\
        listing d = Some entries /\
        forall e, In e entries -> wanted e = false
  | ErrorAccessingDirectory =>
      self (snd (fst r)) = self c /\
      ~ exists d entries,
          getcwd w <> None /\
          node_at w (directory (self c)) = IsDir d /\ enterable d = true /\
          listing d = Some entries
  end.
Proof.
  cbv zeta. unfold run.
  destruct (load_media_files (self c) w) as [[[e | n] m] w'] eqn:E; cbn [fst snd].
  - intros H. injection H as <-.
    pose proof (@load_media_files_error (self c) w e) as He.
    rewrite E in He. cbn [fst snd] in He. destruct (He eq_refl) as (_ & -> & _).
    repeat split; try reflexivity.
    intros (d & entries & Hc & Hn & Hen & Hls).
    rewrite (@load_media_files_ok (self c) w d entries Hc Hn Hen Hls) in E.
    discriminate.
  - destruct (@load_media_files_inr (self c) w n m w' E)
      as (d & entries & Hn & Hen & Hls & -> & -> & ->).
    destruct (Z.eqb_spec (Z.of_nat (List.length (sort (collect entries)))) 0) as [Z0 | N0];
      cbn [fst snd].
    + intros H. injection H as <-.
      assert (Hs : sort (collect entries) = [])
        by (destruct (sort (collect entries)); [reflexivity | cbn in Z0; lia]).
      repeat split; try reflexivity; [cbn; exact Hs |].
      exists d, entries. do 3 (split; [assumption |]).
      apply collect_nil, sort_nil, Hs.
    + destruct (fst (interp _ _)) as [[] | e |]; discriminate.
Qed.

Lemma run_without_media_witness :
  let c := mkConfig init_state (init_self "/home" []) demo_os [] in
  fst (fst (run c demo_world [(20, Key 10); (20, Key 113)])) = Message NoMediaFiles /\
  os (snd (fst (run c demo_world [(20, Key 10); (20, Key 113)]))) = demo_os /\
  fst (fst (run (mkConfig init_state (init_self "/music" []) demo_os [])
                demo_world [(20, Key 10); (20, Key 113)])) = Returned.
Proof.
  cbv zeta.
  assert (H : fst (fst (run (mkConfig init_state (init_self "/home" []) demo_os [])
                            demo_world [(20, Key 10); (20, Key 113)]))
              = Message NoMediaFiles)
    by reflexivity.
  split; [exact H |]. split; [| vm_compute; reflexivity].
  exact (proj1 (proj2
    (@run_without_media _ demo_world [(20, Key 10); (20, Key 113)] _ H))).
Defined.

(** A turn breaks the loop on a quit key and on an interrupt, and on
    nothing else, whatever its operations answer. *)
Lemma answers_turn term_y k : answers (fun b => b = breaks k) (turn term_y k).
Proof.
  destruct k as [ch |]; cbn [turn breaks].
  - apply answers_loop_body.
  - do 2 (apply answers_then; intros ?). reflexivity.
Qed.

(** The loop is left only where the keyboard breaks it. *)
Lemma answers_main_loop inputs :
  answers (fun b => b = true -> existsb (fun i => breaks (snd i)) inputs = true)
          (main_loop inputs).
Proof.
  induction inputs as [| [term_y k] rest IH]; cbn [main_loop existsb snd].
  - intros H. discriminate.
  - apply answers_bind with (Q := fun b => b = breaks k); [apply answers_turn |].
    intros b ->. destruct (breaks k); cbn [orb].
    + apply answers_then. intros _ _. reflexivity.
    + exact IH.
Qed.

(** On keys alone the loop is the event loop, with the answer whether a
    quit key was among them. *)
Lemma main_loop_keys (inputs : list (Z * Z)) c :
  interp (main_loop (map (fun i => (fst i, Key (snd i))) inputs)) c =
  and_then (interp (event_loop inputs) c) (fun _ c' => (Done (quit_among inputs), c')).
Proof.
  revert c. induction inputs as [| [term_y ch] rest IH]; intros c; [reflexivity |].
  cbn [map main_loop event_loop turn fst snd]. rewrite !interp_bind.
  pose proof (@loop_body_answer term_y ch c) as Hb.
  destruct (interp (loop_body term_y ch) c) as [[b | e |] c1]; cbn [and_then fst] in *;
    try reflexivity.
  specialize (Hb b eq_refl). unfold quit_among. cbn [existsb snd]. rewrite <- Hb.
  destruct b; cbn [orb].
  - rewrite interp_bind.
    destruct (interp stop_playback c1) as [[[] | e |] c2]; reflexivity.
  - apply IH.
Qed.

(** X20.  Exit code 0.  [main] returns 0 only when the directory could be
    entered and listed and holds a regular file with a media extension
    that does not start with a dot, and the loop was left at the keyboard:
    by a quit key or by an interrupt caught where the key is read.  The
    process is then in that directory. *)
Theorem main_exit_zero (directory_path : string) (w : World) (o : OS)
    (inputs : list (Z * keyboard)) :
  let r := main directory_path w o inputs in
  fst (fst r) = Some 0 ->
  (exists d entries name,
     node_at w directory_path = IsDir d /\ enterable d = true /\
     listing d = Some entries /\
     In (name, true) entries /\ hidden name = false /\ is_media_file name = true) /\
  (exists term_y k,
     In (term_y, k) inputs /\
     (k = Interrupt \/ exists ch, k = Key ch /\ quit_key ch = true)) /\
  cwd (snd r) = directory_path.
Proof.
  cbv zeta. unfold main.
  destruct (node_at w directory_path) as [| | d0] eqn:Hn0; try discriminate.
  destruct (listing d0); [| discriminate]. cbv zeta. cbn [fst snd].
  unfold run. cbn [self].
  destruct (load_media_files (init_self directory_path []) w) as [[[e | n] m] w'] eqn:E;
    cbn [fst snd]; [discriminate |].
  destruct (@load_media_files_inr _ w n m w' E)
    as (d & entries & Hn & Hen & Hls & -> & -> & ->).
  cbn [directory init_self] in *.
  destruct (Z.eqb_spec (Z.of_nat (List.length (sort (collect entries)))) 0) as [Z0 | N0];
    cbn [fst snd]; [discriminate |].
  set (c0 := set_self _ _).
  pose proof (@answers_interp_as Fg _ _ (main_loop inputs) c0 true
                (answers_main_loop inputs)) as Hb.
  change (interp_as Fg (main_loop inputs) c0) with (interp (main_loop inputs) c0) in Hb.
  destruct (interp (main_loop inputs) c0) as [[[] | e |] c1]; cbn [fst snd] in *;
    try discriminate.
  intros _. split; [| split; [| reflexivity]].
  - destruct (sort (collect entries)) as [| name rest] eqn:Es; [cbn in N0; lia |].
    assert (Hin : In name (collect entries)).
    { apply (Permutation_in name (sort_perm (collect entries))).
      rewrite Es. left. reflexivity. }
    apply in_collect in Hin. destruct Hin as (H1 & H2 & H3).
    exists d, entries, name. repeat split; assumption || congruence.
  - specialize (Hb eq_refl eq_refl). apply existsb_exists in Hb.
    destruct Hb as ([term_y k] & Hin & Hk). cbn [snd] in Hk.
    exists term_y, k. split; [exact Hin |].
    destruct k as [ch |]; [right; exists ch; split; [reflexivity | exact Hk] | left; reflexivity].
Qed.

Lemma main_exit_zero_witness :
  let r := main "/music" demo_world demo_os [(20, Key 10); (20, Interrupt)] in
  fst (fst r) = Some 0 /\
  fst (fst (main "/music" demo_world demo_os [(20, Key 10); (20, Key 113)])) = Some 0 /\
  fst (fst (main "/music" demo_world demo_os [(20, Key 10); (20, Key 32)])) = None /\
  In (EvSpawn ["mpv"; "--no-terminal"; "--quiet"; "/music/a.MP3"]%string 0%nat)
     (trace (os (snd (fst r)))) /\
  cwd (snd r) = "/music"%string.
Proof.
  cbv zeta.
  assert (H : fst (fst (main "/music" demo_world demo_os
                          [(20, Key 10); (20, Interrupt)])) = Some 0)
    by (vm_compute; reflexivity).
  split; [exact H |]. split; [vm_compute; reflexivity |].
  split; [vm_compute; reflexivity |]. split; [vm_compute; tauto |].
  exact (proj2 (proj2
    (@main_exit_zero "/music" demo_world demo_os [(20, Key 10); (20, Interrupt)] H))).
Defined.

(** ** The file list on the screen *)




(** X22.  No room, no list.  On a terminal of 10 lines or fewer the file
    list area stays empty, whatever the library and the selection: the
    first row would lie on the line of the buttons or below. *)
Theorem small_terminal_lists_nothing (term_y : Z) (m : MediaPlayer) :
  term_y <= 10 -> file_rows term_y m = Some [].
Proof.
  intros Ht. unfold file_rows. cbv zeta.
  replace (Z.max 1 (term_y - 7 - 6)) with 1 by lia.
  change (Z.to_nat 1) with 1%nat. cbn [list_rows]. cbv zeta.
  destruct (start_index m + 0 >=? Z.of_nat (List.length (files m))); [reflexivity |].
  destruct (Z.geb_spec (7 + 0) (term_y - 3)) as [_ | H]; [reflexivity | lia].
Qed.

Lemma small_terminal_lists_nothing_witness :
  10 <= 10 /\ file_rows 10 (init_self "/music" abc) = Some [] /\
  file_rows 11 (init_self "/music" abc) = Some [(7, "a.mp3"%string, true)].
Proof.
  assert (H : 10 <= 10) by lia.
  split; [exact H |]. split; [| reflexivity].
  exact (@small_terminal_lists_nothing 10 (init_self "/music" abc) H).
Defined.

Lemma py_prefix_all (A : Type) (s : list A) k :
  Z.of_nat (List.length s) <= k -> py_prefix s k = s.
Proof.
  intros H. unfold py_prefix.
  destruct (Z.leb_spec 0 k) as [_ | Hk]; [| lia].
  apply firstn_all2. lia.
Qed.

Lemma length_py_prefix (A : Type) (s : list A) k :
  0 <= k <= Z.of_nat (List.length s) -> Z.of_nat (List.length (py_prefix s k)) = k.
Proof.
  intros H. unfold py_prefix.
  destruct (Z.leb_spec 0 k) as [_ | Hk]; [| lia].
  rewrite length_firstn. lia.
Qed.

(** X23.  The width of a row.  On a terminal of at least 24 columns, a
    name of up to [term_x - 14] characters is shown whole, a longer one
    as its first [term_x - 17] characters and three dots.  The row of
    the selection is the marker, the name and spaces up to [term_x - 10]
    characters, whatever the length of the name; any other row is three
    spaces and the name.  The bound is in characters: the text of a row
    has fewer than [term_x - 7] of them, so that a row of characters one
    column wide each, written from column 4, ends before column
    [term_x - 3], where the border of the box is.  (Nothing is said of
    the columns that wider characters take.) *)
Theorem row_text_width (A : Type) (space star dot : A) (term_x : Z)
    (selected : bool) (filename : list A) :
  24 <= term_x ->
  let t := row_text space star dot term_x selected filename in
  let n := Z.of_nat (List.length filename) in
  let shown :=
    if n <=? term_x - 14 then filename
    else firstn (Z.to_nat (term_x - 17)) filename ++ [dot; dot; dot] in
  t = (if selected then
         [space; star; space] ++ shown ++
         repeat space (Z.to_nat (term_x - 13 - Z.min n (term_x - 14)))
       else [space; space; space] ++ shown) /\
  Z.of_nat (List.length t) =
    (if selected then term_x - 10 else 3 + Z.min n (term_x - 14)) /\
  4 + Z.of_nat (List.length t) < term_x - 3.
Proof.
  intros Ht. cbv zeta.
  assert (Hshown :
    display_name dot (term_x - 4) filename =
    if Z.of_nat (List.length filename) <=? term_x - 14 then filename
    else firstn (Z.to_nat (term_x - 17)) filename ++ [dot; dot; dot]).
  { unfold display_name. cbv zeta.
    replace (Z.max 10 (term_x - 4 - 10)) with (term_x - 14) by lia.
    rewrite Z.gtb_ltb.
    destruct (Z.ltb_spec (term_x - 14) (Z.of_nat (List.length filename)));
      destruct (Z.leb_spec (Z.of_nat (List.length filename)) (term_x - 14));
      try lia; [| reflexivity].
    unfold py_prefix.
    destruct (Z.leb_spec 0 (term_x - 14 - 3)); [| lia].
    replace (term_x - 14 - 3) with (term_x - 17) by lia. reflexivity. }
  assert (Hlen :
    Z.of_nat (List.length (display_name dot (term_x - 4) filename)) =
    Z.min (Z.of_nat (List.length filename)) (term_x - 14)).
  { rewrite Hshown.
    destruct (Z.leb_spec (Z.of_nat (List.length filename)) (term_x - 14)); [lia |].
    rewrite length_app, length_firstn. cbn [List.length]. lia. }
  unfold row_text. cbv zeta. rewrite <- Hshown.
  set (name := display_name dot (term_x - 4) filename) in *.
  destruct selected.
  - assert (Hpad :
      Z.max 0 (term_x - 4 - 6 - Z.of_nat (List.length ([space; star; space] ++ name))) =
      term_x - 13 - Z.min (Z.of_nat (List.length filename)) (term_x - 14)).
    { rewrite length_app. cbn [List.length]. lia. }
    rewrite Hpad.
    assert (Hall :
      Z.of_nat (List.length (([space; star; space] ++ name) ++
         repeat space (Z.to_nat
           (term_x - 13 - Z.min (Z.of_nat (List.length filename)) (term_x - 14))))) =
      term_x - 10).
    { rewrite !length_app, repeat_length. cbn [List.length]. lia. }
    rewrite py_prefix_all by lia.
    split; [rewrite <- app_assoc; reflexivity |].
    rewrite Hall. lia.
  - assert (Hall : Z.of_nat (List.length ([space; space; space] ++ name)) =
                   3 + Z.min (Z.of_nat (List.length filename)) (term_x - 14)).
    { rewrite length_app. cbn [List.length]. lia. }
    rewrite py_prefix_all by lia.
    split; [reflexivity |]. rewrite Hall. lia.
Qed.

Lemma row_text_width_witness :
  24 <= 24 /\
  row_text " "%char "*"%char "."%char 24 true
    (list_ascii_of_string "a-long-name.mp3") =
    list_ascii_of_string " * a-long-... " /\
  Z.of_nat (List.length (row_text " "%char "*"%char "."%char 24 true
                           (list_ascii_of_string "a-long-name.mp3"))) = 14.
Proof.
  assert (H : 24 <= 24) by lia.
  split; [exact H |]. split; [reflexivity |].
  exact (proj1 (proj2 (@row_text_width _ " "%char "*"%char "."%char 24 true
                         (list_ascii_of_string "a-long-name.mp3") H))).
Defined.

(** ** The buttons *)

(** X24.  The row of buttons.  It lies on the line right below the last
    line a file row can take.  Each button drawn starts at column 4 or
    beyond and ends before the last column of the terminal; two buttons
    never overlap; and the only button ever shown selected is Shuffle,
    exactly while shuffle is on. *)
Theorem button_row_layout (term_y term_x : Z) (m : MediaPlayer) :
  3 < term_y ->
  exists bs,
    button_row term_y term_x m = Some (term_y - 3, bs) /\
    (forall x t s, In (x, t, s) bs ->
       4 <= x /\ x + Z.of_nat (String.length t) < term_x /\
       (s = true -> t = "< Shuffle >"%string /\ shuffle_mode m = true)) /\
    (forall x1 t1 s1 x2 t2 s2,
       In (x1, t1, s1) bs -> In (x2, t2, s2) bs -> x1 < x2 ->
       x1 + Z.of_nat (String.length t1) <= x2) /\
    (shuffle_mode m = true -> 39 < term_x -> In (28, "< Shuffle >"%string, true) bs).
Proof.
  intros Ht. unfold button_row.
  destruct (Z.gtb_spec term_y 3) as [_ | H]; [| lia].
  eexists. split; [reflexivity |].
  cbn [button_loop String.length]. cbv zeta.
  change (button_text "Play") with "< Play >"%string.
  change (button_text "Stop") with "< Stop >"%string.
  change (button_text "Shuffle") with "< Shuffle >"%string.
  change (button_text "Random") with "< Random >"%string.
  change (button_text "Quit") with "< Quit >"%string.
  repeat match goal with
         | |- context [?a <? term_x] =>
             let E := fresh "E" in
             destruct (Z.ltb_spec a term_x) as [E | E]; cbn in E
         end;
    cbn [app In];
    (split; [| split]);
    intros;
    repeat match goal with
           | H : _ \/ _ |- _ => destruct H
           | H : False |- _ => contradiction
           | H : (_, _, _) = (_, _, _) |- _ => injection H as <- <- <-
           end;
    cbn [String.length] in *;
    try lia;
    try (repeat split; try lia; intros; try discriminate; try reflexivity; assumption);
    try (match goal with
         | H : shuffle_mode m = true |- _ => rewrite H
         end; right; right; left; reflexivity).
Qed.

Lemma button_row_layout_witness :
  3 < 20 /\
  button_row 20 45 (mkMediaPlayer "/music" abc 0 0 true) =
    Some (17, [(4, "< Play >"%string, false); (16, "< Stop >"%string, false);
               (28, "< Shuffle >"%string, true)]) /\
  exists bs,
    button_row 20 45 (mkMediaPlayer "/music" abc 0 0 true) = Some (20 - 3, bs) /\
    forall x t s, In (x, t, s) bs ->
      4 <= x /\ x + Z.of_nat (String.length t) < 45 /\
      (s = true -> t = "< Shuffle >"%string /\
                   shuffle_mode (mkMediaPlayer "/music" abc 0 0 true) = true).
Proof.
  assert (H : 3 < 20) by lia.
  split; [exact H |]. split; [reflexivity |].
  destruct (@button_row_layout 20 45 (mkMediaPlayer "/music" abc 0 0 true) H)
    as (bs & H1 & H2 & _).
  exists bs. split; [exact H1 | exact H2].
Defined.
